(** * raycast.c: the scene reader and the ray/primitive intersection routines

    A shallow embedding of [raycast.c] and what holds of it.

    - The intersection routines [plane_intersection] and
      [sphere_intersection] are pure functions over C [double]s.  They are
      embedded over Rocq's primitive floats: a [double] is an IEEE 754
      binary64 number, every operation of the source ([+], [-], [*], [/],
      [sqrt], [<], [>]) is the IEEE one, rounded to nearest on its own,
      with NaN, the infinities and the two zeros.
    - The scene reader [read_scene] and its character level helpers
      [next_c], [expect_c], [skip_ws], [next_string], [next_number] and
      [next_vector] are embedded in a state monad over the state of the
      process (the stream, the global [line], what was written to
      [stderr], the array of objects, what uninitialised storage holds),
      whose computations may end the process ([exit]).  Loops take an
      iteration budget; Part XI shows which budgets are enough.

    Parts I to V are the program and the vocabulary of the statements,
    Parts VI to XI the proofs. *)

From Stdlib Require Import ZArith List Ascii String Bool Lia Floats.
Import ListNotations.

(* ================================================================== *)
(** * Part I: vectors and the intersection routines                    *)
(* ================================================================== *)

(** A [double[3]] as the program uses it: three components, read by index
    0, 1 and 2. *)
Record vec3 : Set := mkVec { v0 : float; v1 : float; v2 : float }.

Module Intersection.
Local Open Scope float_scope.

(** [double sqr(double v)], line 172. *)
Definition sqr (v : float) : float := v * v.

(** The value both routines return for "no intersection". *)
Definition no_intersection : float := -1.

(** [plane_intersection], lines 585-604.  The loop of lines 591-593 fills
    [b] component by component. *)
Definition plane_intersection (origin direction position normal : vec3) : float :=
  let a := (v0 normal * v0 direction) + (v1 normal * v1 direction)
           + (v2 normal * v2 direction) in
  let b := mkVec (v0 position - v0 origin) (v1 position - v1 origin)
                 (v2 position - v2 origin) in
  let d := (v0 b * v0 normal) + (v1 b * v1 normal) + (v2 b * v2 normal) in
  let t := d / a in
  if t <? 0 then -1 else t.

(** [sphere_intersection], lines 606-632. *)
Definition sphere_intersection (origin direction offset : vec3) (radius : float) : float :=
  let a := sqr (v0 direction) + sqr (v1 direction) + sqr (v2 direction) in
  let b := 2 * (v0 direction * (v0 origin - v0 offset)
                + v1 direction * (v1 origin - v1 offset)
                + v2 direction * (v2 origin - v2 offset)) in
  let c := sqr (v0 origin - v0 offset) + sqr (v1 origin - v1 offset)
           + sqr (v2 origin - v2 offset) - sqr radius in
  let det := sqr b - 4 * a * c in
  if det <? 0 then -1
  else
    let det := sqrt det in
    let t0 := (- b - det) / (2 * a) in
    if 0 <? t0 then t0
    else
      let t1 := (- b + det) / (2 * a) in
      if 0 <? t1 then t1 else -1.

(** ** The routines as the specification words them

    The specification speaks of vectors, dot products and an optional
    distance.  These definitions follow its words; the theorems of Part IV
    compare them with the two routines above. *)

Definition dot (u v : vec3) : float := v0 u * v0 v + v1 u * v1 v + v2 u * v2 v.

Definition vsub (u v : vec3) : vec3 := mkVec (v0 u - v0 v) (v1 u - v1 v) (v2 u - v2 v).

(** The optional distance a sentinel-valued result stands for. *)
Definition distance_of (r : float) : option float :=
  if Leibniz.eqb r no_intersection then None else Some r.

Definition sphere_a (direction : vec3) : float := dot direction direction.
Definition sphere_b (origin direction center : vec3) : float :=
  2 * dot direction (vsub origin center).
Definition sphere_c (origin center : vec3) (radius : float) : float :=
  dot (vsub origin center) (vsub origin center) - radius * radius.
Definition sphere_disc (origin direction center : vec3) (radius : float) : float :=
  let b := sphere_b origin direction center in
  b * b - 4 * sphere_a direction * sphere_c origin center radius.
Definition sphere_t0 (origin direction center : vec3) (radius : float) : float :=
  (- sphere_b origin direction center - sqrt (sphere_disc origin direction center radius))
  / (2 * sphere_a direction).
Definition sphere_t1 (origin direction center : vec3) (radius : float) : float :=
  (- sphere_b origin direction center + sqrt (sphere_disc origin direction center radius))
  / (2 * sphere_a direction).

Definition plane_a (direction normal : vec3) : float := dot normal direction.
Definition plane_d (origin position normal : vec3) : float := dot (vsub position origin) normal.
Definition plane_t (origin direction position normal : vec3) : float :=
  plane_d origin position normal / plane_a direction normal.

(** A result is a distance along the ray when it is a number that is not
    infinite. *)
Definition is_distance (r : float) : bool := is_finite r.

End Intersection.

(* ================================================================== *)
(** * Part II: the process state                                        *)
(* ================================================================== *)

Local Open Scope Z_scope.

(** ** C [int]s and characters *)

(** An [int] is 32 bits wide; an increment that leaves the range wraps
    around, as it does on the machines the program runs on. *)
Definition wrap_int (z : Z) : Z := (z + 2 ^ 31) mod 2 ^ 32 - 2 ^ 31.

(** [fgetc] hands back a character as an [unsigned char] converted to
    [int], or [EOF]. *)
Definition code (a : ascii) : Z := Z.of_N (N_of_ascii a).
Definition ascii_of_code (c : Z) : ascii := ascii_of_N (Z.to_N c).
Definition EOF : Z := -1.

(** A character constant of the source, ['x']. *)
Definition ch (a : ascii) : Z := code a.

(** The double quote, the line feed and the backslash, written by code. *)
Definition dquote : ascii := "034"%char.
Definition newline : ascii := "010"%char.
Definition backslash : ascii := "092"%char.

(** [isspace] in the "C" locale: space, and the controls 9 to 13. *)
Definition isspace (c : Z) : bool := (c =? 32) || ((9 <=? c) && (c <=? 13)).

(** ** Scene objects *)

(** [Object], lines 7-42.  The members of the anonymous union are laid out
    here side by side: every object of the program is only ever accessed
    through one of them ([cam] through [camera], [aSphere] through
    [sphere], [aPlane] through [plane]), so their sharing storage is never
    observed.  The members the reader never touches (the colours of the
    plane and sphere members, the whole [light] member) are left out. *)
Record Object : Set := mkObject {
  type : string;
  color : vec3;
  position : vec3;
  colorGiven : bool;
  positionGiven : bool;
  camera_width : float;
  camera_height : float;
  camera_widthGiven : bool;
  camera_heightGiven : bool;
  plane_normal : vec3;
  plane_normalGiven : bool;
  sphere_radius : float;
  sphere_radiusGiven : bool
}.

Definition set_type (x : string) (o : Object) : Object :=
  mkObject x (color o) (position o) (colorGiven o) (positionGiven o)
    (camera_width o) (camera_height o) (camera_widthGiven o) (camera_heightGiven o)
    (plane_normal o) (plane_normalGiven o) (sphere_radius o) (sphere_radiusGiven o).
Definition set_color (x : vec3) (o : Object) : Object :=
  mkObject (type o) x (position o) (colorGiven o) (positionGiven o)
    (camera_width o) (camera_height o) (camera_widthGiven o) (camera_heightGiven o)
    (plane_normal o) (plane_normalGiven o) (sphere_radius o) (sphere_radiusGiven o).
Definition set_position (x : vec3) (o : Object) : Object :=
  mkObject (type o) (color o) x (colorGiven o) (positionGiven o)
    (camera_width o) (camera_height o) (camera_widthGiven o) (camera_heightGiven o)
    (plane_normal o) (plane_normalGiven o) (sphere_radius o) (sphere_radiusGiven o).
Definition set_colorGiven (x : bool) (o : Object) : Object :=
  mkObject (type o) (color o) (position o) x (positionGiven o)
    (camera_width o) (camera_height o) (camera_widthGiven o) (camera_heightGiven o)
    (plane_normal o) (plane_normalGiven o) (sphere_radius o) (sphere_radiusGiven o).
Definition set_positionGiven (x : bool) (o : Object) : Object :=
  mkObject (type o) (color o) (position o) (colorGiven o) x
    (camera_width o) (camera_height o) (camera_widthGiven o) (camera_heightGiven o)
    (plane_normal o) (plane_normalGiven o) (sphere_radius o) (sphere_radiusGiven o).
Definition set_camera_width (x : float) (o : Object) : Object :=
  mkObject (type o) (color o) (position o) (colorGiven o) (positionGiven o)
    x (camera_height o) (camera_widthGiven o) (camera_heightGiven o)
    (plane_normal o) (plane_normalGiven o) (sphere_radius o) (sphere_radiusGiven o).
Definition set_camera_height (x : float) (o : Object) : Object :=
  mkObject (type o) (color o) (position o) (colorGiven o) (positionGiven o)
    (camera_width o) x (camera_widthGiven o) (camera_heightGiven o)
    (plane_normal o) (plane_normalGiven o) (sphere_radius o) (sphere_radiusGiven o).
Definition set_camera_widthGiven (x : bool) (o : Object) : Object :=
  mkObject (type o) (color o) (position o) (colorGiven o) (positionGiven o)
    (camera_width o) (camera_height o) x (camera_heightGiven o)
    (plane_normal o) (plane_normalGiven o) (sphere_radius o) (sphere_radiusGiven o).
Definition set_camera_heightGiven (x : bool) (o : Object) : Object :=
  mkObject (type o) (color o) (position o) (colorGiven o) (positionGiven o)
    (camera_width o) (camera_height o) (camera_widthGiven o) x
    (plane_normal o) (plane_normalGiven o) (sphere_radius o) (sphere_radiusGiven o).
Definition set_plane_normal (x : vec3) (o : Object) : Object :=
  mkObject (type o) (color o) (position o) (colorGiven o) (positionGiven o)
    (camera_width o) (camera_height o) (camera_widthGiven o) (camera_heightGiven o)
    x (plane_normalGiven o) (sphere_radius o) (sphere_radiusGiven o).
Definition set_plane_normalGiven (x : bool) (o : Object) : Object :=
  mkObject (type o) (color o) (position o) (colorGiven o) (positionGiven o)
    (camera_width o) (camera_height o) (camera_widthGiven o) (camera_heightGiven o)
    (plane_normal o) x (sphere_radius o) (sphere_radiusGiven o).
Definition set_sphere_radius (x : float) (o : Object) : Object :=
  mkObject (type o) (color o) (position o) (colorGiven o) (positionGiven o)
    (camera_width o) (camera_height o) (camera_widthGiven o) (camera_heightGiven o)
    (plane_normal o) (plane_normalGiven o) x (sphere_radiusGiven o).
Definition set_sphere_radiusGiven (x : bool) (o : Object) : Object :=
  mkObject (type o) (color o) (position o) (colorGiven o) (positionGiven o)
    (camera_width o) (camera_height o) (camera_widthGiven o) (camera_heightGiven o)
    (plane_normal o) (plane_normalGiven o) (sphere_radius o) x.

(** ** What the program writes to [stderr]

    One constructor per format string of the source, with the values the
    format prints.  The light branch reuses the plane's texts, so it reuses
    their constructors. *)
Inductive message : Set :=
| UnexpectedEndOfFileOnLine (l : Z)            (* line 60 *)
| ExpectedCharOnLine (d : Z) (l : Z)           (* line 77 *)
| ExpectedStringOnLine (l : Z)                 (* line 103 *)
| StringsLongerThan128                         (* line 112 *)
| StringsWithEscapeCodes                       (* line 116 *)
| StringsOnlyAscii                             (* line 120 *)
| UnexpectedEndOfFile                          (* line 139 *)
| ErrorReadingFile                             (* line 143 *)
| CouldNotOpenFile (filename : string)         (* line 191 *)
| WorstSceneFileEver                           (* line 205 *)
| ExpectedTypeKeyOnLine (l : Z)                (* line 232 *)
| CameraWidthAlreadySet                        (* line 263 *)
| CameraWidthInvalid (v : float)               (* line 269 *)
| CameraHeightAlreadySet                       (* line 280 *)
| CameraHeightInvalid (v : float)              (* line 287 *)
| UnknownProperty (key : string) (l : Z)       (* lines 296, 392, 476, 564 *)
| CameraHeightOrWidthNotGiven                  (* line 306 *)
| SphereColorAlreadySet                        (* line 342 *)
| SphereColorInvalid                           (* line 350 *)
| SphereRadiusAlreadySet                       (* line 365 *)
| RadiusInvalid (v : float)                    (* line 370 *)
| SpherePositionAlreadySet                     (* line 380 *)
| PositionColorRadiusMustBeGiven (p c r : bool) (* line 400 *)
| PlaneColorAlreadySet                         (* lines 432, 516 *)
| LightColorInvalid                            (* line 440 *)
| PlaneRadiusAlreadySet                        (* lines 449, 537 *)
| PlanePositionAlreadySet                      (* lines 464, 552 *)
| PositionColorNormalMustBeGiven               (* line 484 *)
| PlaneColorInvalid                            (* line 524 *)
| UnknownTypeOnLine (value : string) (l : Z).  (* line 573 *)

(** ** The stream and the rest of the process state *)

(** A [FILE] opened for reading: the characters not yet read (a pushed
    back character first), the end-of-file and error indicators, and
    whether [fclose] was called on it. *)
Record FILE : Set := mkFILE {
  unread : list ascii;
  eof_ind : bool;
  err_ind : bool;
  closed : bool
}.

(** The state of the process:
    - [json], the stream [read_scene] opens;
    - [line], the global of line 44;
    - [stderr], the messages written so far, oldest first;
    - [objectArray], the block of line 214 as the stores made into it,
      oldest first (a slot never stored to holds no object);
    - what uninitialised automatic storage holds: the k-th declaration
      without initialiser of an [Object] finds [stack_Object k], that of a
      [double] finds [stack_double k]; [decls] counts them. *)
Record world : Type := mkWorld {
  json : FILE;
  line : Z;
  stderr : list message;
  objectArray : list (Z * Object);
  stack_Object : nat -> Object;
  stack_double : nat -> float;
  decls : nat
}.

Definition set_json (f : FILE) (w : world) : world :=
  mkWorld f (line w) (stderr w) (objectArray w) (stack_Object w) (stack_double w) (decls w).
Definition set_line (l : Z) (w : world) : world :=
  mkWorld (json w) l (stderr w) (objectArray w) (stack_Object w) (stack_double w) (decls w).
Definition set_stderr (e : list message) (w : world) : world :=
  mkWorld (json w) (line w) e (objectArray w) (stack_Object w) (stack_double w) (decls w).
Definition set_objectArray (a : list (Z * Object)) (w : world) : world :=
  mkWorld (json w) (line w) (stderr w) a (stack_Object w) (stack_double w) (decls w).
Definition set_decls (n : nat) (w : world) : world :=
  mkWorld (json w) (line w) (stderr w) (objectArray w) (stack_Object w) (stack_double w) n.

(** ** Computations

    A piece of the program started in a state either runs to its end with
    a value ([Done]), ends the process with [exit] ([Exit]), makes a store
    outside the object array, after which nothing is defined
    ([Undefined]), or is still running when the iteration budget given to
    its loops is used up ([OutOfFuel]). *)
Inductive outcome (A : Type) : Type :=
| Done (a : A) (w : world)
| Exit (status : Z) (w : world)
| Undefined (w : world)
| OutOfFuel.

Arguments Done {A} a w.
Arguments Exit {A} status w.
Arguments Undefined {A} w.
Arguments OutOfFuel {A}.

Definition M (A : Type) : Type := world -> outcome A.

Definition ret {A : Type} (a : A) : M A := fun w => Done a w.

Definition bind {A B : Type} (m : M A) (k : A -> M B) : M B :=
  fun w =>
    match m w with
    | Done a w' => k a w'
    | Exit s w' => Exit s w'
    | Undefined w' => Undefined w'
    | OutOfFuel => OutOfFuel
    end.

Declare Scope prog_scope.
Delimit Scope prog_scope with prog.
Notation "x <- m ;; k" := (bind m (fun x => k))
  (at level 61, m at next level, right associativity) : prog_scope.
Notation "m ;; k" := (bind m (fun _ => k))
  (at level 61, right associativity) : prog_scope.
Local Open Scope prog_scope.

(** [exit(status)]. *)
Definition exit {A : Type} (status : Z) : M A := fun w => Exit status w.

(** [fprintf(stderr, ...)]. *)
Definition fprintf (m : message) : M unit :=
  fun w => Done tt (set_stderr (stderr w ++ [m]) w).

Definition out_of_fuel {A : Type} : M A := fun _ => OutOfFuel.

Definition get_line : M Z := fun w => Done (line w) w.

(** A declaration [Object x;] and a declaration [double x;]. *)
Definition declare_Object : M Object :=
  fun w => Done (stack_Object w (decls w)) (set_decls (S (decls w)) w).
Definition declare_double : M float :=
  fun w => Done (stack_double w (decls w)) (set_decls (S (decls w)) w).

(** [objectArray[i] = o], the array having 1000 slots (line 214). *)
Definition store (i : Z) (o : Object) : M unit :=
  fun w =>
    if (0 <=? i) && (i <? 1000)
    then Done tt (set_objectArray (objectArray w ++ [(i, o)]) w)
    else Undefined w.

(** ** The stream operations of the C library that the program calls *)

Definition fgetc : M Z :=
  fun w =>
    let f := json w in
    match unread f with
    | [] => Done EOF (set_json (mkFILE [] true (err_ind f) (closed f)) w)
    | a :: rest => Done (code a) (set_json (mkFILE rest (eof_ind f) (err_ind f) (closed f)) w)
    end.

(** [ungetc] puts the character back in front and clears the end-of-file
    indicator; pushing [EOF] back does nothing. *)
Definition ungetc (c : Z) : M unit :=
  fun w =>
    let f := json w in
    if c =? EOF then Done tt w
    else Done tt (set_json (mkFILE (ascii_of_code c :: unread f) false (err_ind f) (closed f)) w).

Definition feof : M bool := fun w => Done (eof_ind (json w)) w.
Definition ferror : M bool := fun w => Done (err_ind (json w)) w.

Definition fclose : M unit :=
  fun w =>
    let f := json w in
    Done tt (set_json (mkFILE (unread f) (eof_ind f) (err_ind f) true) w).

(* ================================================================== *)
(** * Part III: the character level helpers                             *)
(* ================================================================== *)

(** [next_c], lines 49-64. *)
Definition next_c : M Z :=
  c <- fgetc ;;
  (if c =? ch newline then fun w => Done tt (set_line (wrap_int (line w + 1)) w) else ret tt) ;;
  if c =? EOF
  then l <- get_line ;; fprintf (UnexpectedEndOfFileOnLine l) ;; exit 1
  else ret c.

(** [expect_c], lines 70-79. *)
Definition expect_c (d : Z) : M unit :=
  c <- next_c ;;
  if c =? d then ret tt
  else l <- get_line ;; fprintf (ExpectedCharOnLine d l) ;; exit 1.

(** [skip_ws], lines 83-91.  [skip_ws_while] is the [while] of line 86,
    entered with the character read last; every turn reads a character,
    so as many turns as there are unread characters are budget enough. *)
Fixpoint skip_ws_while (fuel : nat) (c : Z) : M unit :=
  if isspace c
  then match fuel with
       | O => out_of_fuel
       | S fuel' => c' <- next_c ;; skip_ws_while fuel' c'
       end
  else ungetc c.

Definition skip_ws : M unit :=
  fun w => (c <- next_c ;; skip_ws_while (List.length (unread (json w))) c) w.

(** [next_string], lines 97-130.  [next_string_while] is the [while] of
    line 110 with [buffer[0..i-1]] held as a list: the characters stored
    so far, the last one first. *)
Fixpoint next_string_while (fuel : nat) (buffer : list ascii) (i : Z) (c : Z)
  : M string :=
  if negb (c =? ch dquote)
  then
    if 128 <=? i then fprintf StringsLongerThan128 ;; exit 1
    else if c =? ch backslash then fprintf StringsWithEscapeCodes ;; exit 1
    else if (c <? 32) || (126 <? c) then fprintf StringsOnlyAscii ;; exit 1
    else
      match fuel with
      | O => out_of_fuel
      | S fuel' =>
          c' <- next_c ;;
          next_string_while fuel' (ascii_of_code c :: buffer) (i + 1) c'
      end
  else ret (string_of_list_ascii (rev buffer)).

Definition next_string : M string :=
  fun w =>
    (c <- next_c ;;
     if negb (c =? ch dquote)
     then l <- get_line ;; fprintf (ExpectedStringOnLine l) ;; exit 1
     else
       c <- next_c ;;
       next_string_while (List.length (unread (json w))) [] 0 c) w.

(** ** [fscanf(json, "%lf", &value)]

    The one directive [%lf] of the C library's [fscanf], as ISO C words
    it (7.21.6.2 with the subject sequences of [strtod], 7.22.1.3): white
    space is skipped, then the longest run of characters that is a
    floating constant, or the beginning of one, is taken off the stream,
    and if it is a whole constant it is converted, a decimal one to the
    nearest [double] (ties to even).  The constants are the decimal ones,
    the hexadecimal ones, and the words [inf], [infinity] and [nan], the
    last with an optional sequence in parentheses, in either case of the
    letters.  Running into the end of the stream sets the end-of-file
    indicator. *)
Module Scanf.

Definition is_digit (a : ascii) : bool := (48 <=? code a) && (code a <=? 57).
Definition digit_value (a : ascii) : Z := code a - 48.
Definition is_sign (a : ascii) : bool := (code a =? 43) || (code a =? 45).
Definition is_point (a : ascii) : bool := code a =? 46.

(** A letter in lower case, any other character as it is. *)
Definition lower (a : ascii) : Z :=
  if (65 <=? code a) && (code a <=? 90) then code a + 32 else code a.
Definition is_letter (a : ascii) (l : ascii) : bool := lower a =? code l.
Definition is_exp_mark (a : ascii) : bool := is_letter a "e".
Definition is_hex_mark (a : ascii) : bool := is_letter a "x".
Definition is_bin_exp_mark (a : ascii) : bool := is_letter a "p".
Definition is_hex_digit (a : ascii) : bool :=
  is_digit a || ((97 <=? lower a) && (lower a <=? 102)).
Definition hex_digit_value (a : ascii) : Z :=
  if is_digit a then digit_value a else lower a - 87.
(** What may stand between the parentheses after [nan]. *)
Definition is_n_char (a : ascii) : bool :=
  is_digit a || ((97 <=? lower a) && (lower a <=? 122)) || (code a =? 95).

(** Where the scanner stands inside a constant. *)
Inductive phase : Set :=
| AtStart          (* nothing read *)
| AfterSign        (* a sign *)
| AfterZero        (* the one digit 0 *)
| InInteger        (* digits *)
| AfterPoint       (* a point with no digit before it *)
| InFraction       (* digits, a point, digits *)
| AfterExpMark     (* an e *)
| AfterExpSign     (* an e and a sign *)
| InExponent       (* an e and digits *)
| AfterHexMark     (* 0x *)
| InHexInteger     (* 0x and hexadecimal digits *)
| AfterHexPoint    (* 0x and a point *)
| InHexFraction    (* 0x, digits, a point, digits *)
| AfterBinExpMark  (* a p *)
| AfterBinExpSign  (* a p and a sign *)
| InBinExponent    (* a p and digits *)
| InWord (word : list ascii) (whole : bool)
                   (* part of inf, infinity or nan: the letters still to
                      come, and whether what was read is a whole word *)
| InNanChars       (* nan and an opening parenthesis *)
| AfterNanChars.   (* nan( ... ) *)

(** What was read so far is a whole constant. *)
Definition complete (p : phase) : bool :=
  match p with
  | AfterZero | InInteger | InFraction | InExponent
  | InHexInteger | InHexFraction | InBinExponent
  | AfterNanChars => true
  | InWord _ whole => whole
  | _ => false
  end.

Inductive notation : Set := Decimal | Hexadecimal | Infinite | NotANumber.

(** The constant read so far: its notation, the sign, the digits as one
    integer, how many of them stand behind the point, and the exponent. *)
Record literal : Set := mkLiteral {
  written_as : notation;
  negative : bool;
  digits : Z;
  behind_point : Z;
  exp_negative : bool;
  exponent : Z
}.

Definition empty_literal : literal := mkLiteral Decimal false 0 0 false 0.

Definition with_notation (n : notation) (l : literal) : literal :=
  mkLiteral n (negative l) (digits l) (behind_point l) (exp_negative l) (exponent l).
Definition with_digit (base d : Z) (l : literal) : literal :=
  mkLiteral (written_as l) (negative l) (base * digits l + d) (behind_point l)
            (exp_negative l) (exponent l).
Definition with_fraction_digit (base d : Z) (l : literal) : literal :=
  mkLiteral (written_as l) (negative l) (base * digits l + d) (behind_point l + 1)
            (exp_negative l) (exponent l).
Definition with_exp_sign (s : bool) (l : literal) : literal :=
  mkLiteral (written_as l) (negative l) (digits l) (behind_point l) s (exponent l).
Definition with_exp_digit (d : Z) (l : literal) : literal :=
  mkLiteral (written_as l) (negative l) (digits l) (behind_point l)
            (exp_negative l) (10 * exponent l + d).

(** The letters after the first of [inf] and [infinity], and of [nan]. *)
Definition nf_inity : list ascii := ["n"; "f"; "i"; "n"; "i"; "t"; "y"]%char.
Definition an : list ascii := ["a"; "n"]%char.

(** After the sign, if any. *)
Definition first_step (l : literal) (a : ascii) : option (phase * literal) :=
  if is_digit a then
    Some (if digit_value a =? 0 then AfterZero else InInteger,
          with_digit 10 (digit_value a) l)
  else if is_point a then Some (AfterPoint, l)
  else if is_letter a "i" then Some (InWord nf_inity false, with_notation Infinite l)
  else if is_letter a "n" then Some (InWord an false, with_notation NotANumber l)
  else None.

Definition step (p : phase) (l : literal) (a : ascii) : option (phase * literal) :=
  match p with
  | AtStart =>
      if is_sign a
      then Some (AfterSign, mkLiteral Decimal (code a =? 45) 0 0 false 0)
      else first_step l a
  | AfterSign => first_step l a
  | AfterZero =>
      if is_digit a then Some (InInteger, with_digit 10 (digit_value a) l)
      else if is_point a then Some (InFraction, l)
      else if is_exp_mark a then Some (AfterExpMark, l)
      else if is_hex_mark a then Some (AfterHexMark, with_notation Hexadecimal l)
      else None
  | InInteger =>
      if is_digit a then Some (InInteger, with_digit 10 (digit_value a) l)
      else if is_point a then Some (InFraction, l)
      else if is_exp_mark a then Some (AfterExpMark, l)
      else None
  | AfterPoint =>
      if is_digit a then Some (InFraction, with_fraction_digit 10 (digit_value a) l)
      else None
  | InFraction =>
      if is_digit a then Some (InFraction, with_fraction_digit 10 (digit_value a) l)
      else if is_exp_mark a then Some (AfterExpMark, l)
      else None
  | AfterExpMark =>
      if is_sign a then Some (AfterExpSign, with_exp_sign (code a =? 45) l)
      else if is_digit a then Some (InExponent, with_exp_digit (digit_value a) l)
      else None
  | AfterExpSign =>
      if is_digit a then Some (InExponent, with_exp_digit (digit_value a) l) else None
  | InExponent =>
      if is_digit a then Some (InExponent, with_exp_digit (digit_value a) l) else None
  | AfterHexMark =>
      if is_hex_digit a then Some (InHexInteger, with_digit 16 (hex_digit_value a) l)
      else if is_point a then Some (AfterHexPoint, l)
      else None
  | InHexInteger =>
      if is_hex_digit a then Some (InHexInteger, with_digit 16 (hex_digit_value a) l)
      else if is_point a then Some (InHexFraction, l)
      else if is_bin_exp_mark a then Some (AfterBinExpMark, l)
      else None
  | AfterHexPoint =>
      if is_hex_digit a
      then Some (InHexFraction, with_fraction_digit 16 (hex_digit_value a) l)
      else None
  | InHexFraction =>
      if is_hex_digit a
      then Some (InHexFraction, with_fraction_digit 16 (hex_digit_value a) l)
      else if is_bin_exp_mark a then Some (AfterBinExpMark, l)
      else None
  | AfterBinExpMark =>
      if is_sign a then Some (AfterBinExpSign, with_exp_sign (code a =? 45) l)
      else if is_digit a then Some (InBinExponent, with_exp_digit (digit_value a) l)
      else None
  | AfterBinExpSign =>
      if is_digit a then Some (InBinExponent, with_exp_digit (digit_value a) l) else None
  | InBinExponent =>
      if is_digit a then Some (InBinExponent, with_exp_digit (digit_value a) l) else None
  | InWord (next :: more) _ =>
      if is_letter a next then
        Some (InWord more
                (match written_as l, List.length more with
                 | Infinite, 5%nat | Infinite, 0%nat | NotANumber, 0%nat => true
                 | _, _ => false
                 end), l)
      else None
  | InWord [] _ =>
      match written_as l with
      | NotANumber => if code a =? 40 then Some (InNanChars, l) else None
      | _ => None
      end
  | InNanChars =>
      if is_n_char a then Some (InNanChars, l)
      else if code a =? 41 then Some (AfterNanChars, l)
      else None
  | AfterNanChars => None
  end.

(** Takes the longest run off the front of the unread characters; the
    boolean tells whether the end of the stream was run into. *)
Fixpoint take_item (p : phase) (l : literal) (s : list ascii)
  : phase * literal * list ascii * bool :=
  match s with
  | [] => (p, l, [], true)
  | a :: rest =>
      match step p l a with
      | Some (p', l') => take_item p' l' rest
      | None => (p, l, s, false)
      end
  end.

(** The white space before the item. *)
Fixpoint drop_space (s : list ascii) : list ascii :=
  match s with
  | a :: rest => if isspace (code a) then drop_space rest else s
  | [] => []
  end.

(** The [double] nearest to [m * 10 ^ e] for [m > 0].  Beyond the guards
    the value is over the largest double by more than a half step, or
    under half the smallest one, whatever the digits. *)
Definition nearest_double (m e : Z) : spec_float :=
  if 0 <=? e then
    if 400 <? e then S754_infinity false
    else binary_normalize prec emax (m * 10 ^ e) 0 false
  else if Z.log2 m + 1 + 3 * e <? - 1080 then S754_zero false
  else
    let d := 10 ^ (- e) in
    let s := Z.max 0 (Z.log2 d + 60 - Z.log2 m) in
    let n := m * 2 ^ s in
    let sticky := if n mod d =? 0 then 0 else 1 in
    binary_normalize prec emax (2 * (n / d) + sticky) (- (s + 1)) false.

(** The [double] nearest to [m * 2 ^ e] for [m > 0], with guards of the
    same kind. *)
Definition nearest_double_binary (m e : Z) : spec_float :=
  if 1100 <? e then S754_infinity false
  else if Z.log2 m + 1 + e <? - 1080 then S754_zero false
  else binary_normalize prec emax m e false.

Definition value_of (l : literal) : float :=
  let e := if exp_negative l then - exponent l else exponent l in
  let x :=
    match written_as l with
    | Decimal =>
        if digits l =? 0 then PrimFloat.zero
        else SF2Prim (nearest_double (digits l) (e - behind_point l))
    | Hexadecimal =>
        if digits l =? 0 then PrimFloat.zero
        else SF2Prim (nearest_double_binary (digits l) (e - 4 * behind_point l))
    | Infinite => PrimFloat.infinity
    | NotANumber => PrimFloat.nan
    end in
  if negative l then (- x)%float else x.

(** What the call leaves in [value]: [Some] when the conversion was made,
    [None] when it was not and [value] is as it was. *)
Definition fscanf_lf : M (option float) :=
  fun w =>
    let f := json w in
    match drop_space (unread f) with
    | [] => Done None (set_json (mkFILE [] true (err_ind f) (closed f)) w)
    | s =>
        let '(p, l, rest, hit_end) := take_item AtStart empty_literal s in
        Done (if complete p then Some (value_of l) else None)
             (set_json (mkFILE rest (eof_ind f || hit_end) (err_ind f) (closed f)) w)
    end.

End Scanf.

(** [next_number], lines 132-148. *)
Definition next_number : M float :=
  value <- declare_double ;;
  scanned <- Scanf.fscanf_lf ;;
  let value := match scanned with Some x => x | None => value end in
  at_end <- feof ;;
  if at_end then fprintf UnexpectedEndOfFile ;; exit 1
  else
    failed <- ferror ;;
    if failed then fprintf ErrorReadingFile ;; exit 1
    else ret value.

(** [next_vector], lines 150-170. *)
Definition next_vector : M vec3 :=
  expect_c (ch "[") ;;
  skip_ws ;;
  x <- next_number ;;
  skip_ws ;;
  expect_c (ch ",") ;;
  skip_ws ;;
  y <- next_number ;;
  skip_ws ;;
  expect_c (ch ",") ;;
  skip_ws ;;
  z <- next_number ;;
  skip_ws ;;
  expect_c (ch "]") ;;
  ret (mkVec x y z).

(* ================================================================== *)
(** * Part IV: [read_scene]                                             *)
(* ================================================================== *)

Local Open Scope string_scope.
Local Open Scope Z_scope.

(** [strcmp(a, b) == 0]. *)
Definition same_string (a b : string) : bool := String.eqb a b.

(** The test every colour branch makes on the three channels (lines
    348-349, 438-439, 522-523). *)
Definition color_out_of_range (keyValue : vec3) : bool :=
  ((v0 keyValue <? 0) || (255 <? v0 keyValue)
   || (v1 keyValue <? 0) || (255 <? v1 keyValue)
   || (v2 keyValue <? 0) || (255 <? v2 keyValue))%float.

(** What lines 255-259 (and 333-337, 424-428, 508-512) read after a comma:
    the key and the colon, with the white space around them. *)
Definition read_key : M string :=
  skip_ws ;;
  key <- next_string ;;
  skip_ws ;;
  expect_c (ch ":") ;;
  skip_ws ;;
  ret key.

(** *** The camera branch, lines 243-310 *)

(** Lines 261-293: the chain on the key just read.  It has no final
    [else]: a key that is neither [width] nor [height] does nothing. *)
Definition camera_field (key : string) (cam : Object) : M Object :=
  if same_string key "width" then
    if camera_widthGiven cam then fprintf CameraWidthAlreadySet ;; exit 1
    else
      keyValue <- next_number ;;
      if (keyValue <? 1)%float then fprintf (CameraWidthInvalid keyValue) ;; exit 1
      else ret (set_camera_width keyValue (set_camera_widthGiven true cam))
  else if same_string key "height" then
    if camera_heightGiven cam then fprintf CameraHeightAlreadySet ;; exit 1
    else
      keyValue <- next_number ;;
      if (keyValue <? 1)%float then fprintf (CameraHeightInvalid keyValue) ;; exit 1
      else ret (set_camera_height keyValue (set_camera_heightGiven true cam))
  else ret cam.

(** The [while (1)] of line 247.  [key] is the variable of line 229: the
    [else] of line 295 belongs to the chain on [c], where the [key] of
    line 256 is out of scope. *)
Fixpoint camera_while (fuel : nat) (key : string) (cam : Object) : M Object :=
  match fuel with
  | O => out_of_fuel
  | S fuel' =>
      c <- next_c ;;
      if c =? ch "}" then ret cam
      else if c =? ch "," then
        key' <- read_key ;;
        cam' <- camera_field key' cam ;;
        skip_ws ;;
        camera_while fuel' key cam'
      else
        l <- get_line ;; fprintf (UnknownProperty key l) ;; exit 1
  end.

(** *** The sphere branch, lines 314-404 *)

(** Lines 339-395: the chain on the key, whose final [else] writes the
    message and goes on. *)
Definition sphere_field (key : string) (aSphere : Object) : M Object :=
  if same_string key "color" then
    if colorGiven aSphere then fprintf SphereColorAlreadySet ;; exit 1
    else
      keyValue <- next_vector ;;
      if color_out_of_range keyValue then fprintf SphereColorInvalid ;; exit 1
      else ret (set_color keyValue (set_colorGiven true aSphere))
  else if same_string key "radius" then
    if sphere_radiusGiven aSphere then fprintf SphereRadiusAlreadySet ;; exit 1
    else
      keyValue <- next_number ;;
      if (keyValue <? 1)%float then fprintf (RadiusInvalid keyValue) ;; exit 1
      else ret (set_sphere_radius keyValue (set_sphere_radiusGiven true aSphere))
  else if same_string key "position" then
    if positionGiven aSphere then fprintf SpherePositionAlreadySet ;; exit 1
    else
      keyValue <- next_vector ;;
      ret (set_position keyValue (set_positionGiven true aSphere))
  else
    l <- get_line ;; fprintf (UnknownProperty key l) ;; ret aSphere.

(** The [while (1)] of line 322.  The chain on [c] has no final [else]: a
    character that is neither a closing brace nor a comma is passed
    over. *)
Fixpoint sphere_while (fuel : nat) (aSphere : Object) : M Object :=
  match fuel with
  | O => out_of_fuel
  | S fuel' =>
      c <- next_c ;;
      if c =? ch "}" then ret aSphere
      else if c =? ch "," then
        key <- read_key ;;
        aSphere' <- sphere_field key aSphere ;;
        skip_ws ;;
        sphere_while fuel' aSphere'
      else sphere_while fuel' aSphere
  end.

(** *** The plane branch, lines 406-488 *)

(** Lines 430-479.  The colour branch checks the vector and stores
    nothing; the branch that stores the normal is the one for the empty
    key. *)
Definition plane_field (key : string) (aPlane : Object) : M Object :=
  if same_string key "color" then
    if colorGiven aPlane then fprintf PlaneColorAlreadySet ;; exit 1
    else
      keyValue <- next_vector ;;
      if color_out_of_range keyValue then fprintf LightColorInvalid ;; exit 1
      else ret aPlane
  else if same_string key EmptyString then
    if plane_normalGiven aPlane then fprintf PlaneRadiusAlreadySet ;; exit 1
    else
      keyValue <- next_vector ;;
      ret (set_plane_normal keyValue (set_plane_normalGiven true aPlane))
  else if same_string key "position" then
    if positionGiven aPlane then fprintf PlanePositionAlreadySet ;; exit 1
    else
      keyValue <- next_vector ;;
      ret (set_position keyValue (set_positionGiven true aPlane))
  else
    l <- get_line ;; fprintf (UnknownProperty key l) ;; ret aPlane.

(** The [while (1)] of line 413. *)
Fixpoint plane_while (fuel : nat) (aPlane : Object) : M Object :=
  match fuel with
  | O => out_of_fuel
  | S fuel' =>
      c <- next_c ;;
      if c =? ch "}" then ret aPlane
      else if c =? ch "," then
        key <- read_key ;;
        aPlane' <- plane_field key aPlane ;;
        skip_ws ;;
        plane_while fuel' aPlane'
      else plane_while fuel' aPlane
  end.

(** *** The light branch, lines 490-571 *)

(** Lines 514-567. *)
Definition light_field (key : string) (aPlane : Object) : M Object :=
  if same_string key "color" then
    if colorGiven aPlane then fprintf PlaneColorAlreadySet ;; exit 1
    else
      keyValue <- next_vector ;;
      if color_out_of_range keyValue then fprintf PlaneColorInvalid ;; exit 1
      else ret (set_color keyValue (set_colorGiven true aPlane))
  else if same_string key "normal" then
    if plane_normalGiven aPlane then fprintf PlaneRadiusAlreadySet ;; exit 1
    else
      keyValue <- next_vector ;;
      ret (set_plane_normal keyValue (set_plane_normalGiven true aPlane))
  else if same_string key "position" then
    if positionGiven aPlane then fprintf PlanePositionAlreadySet ;; exit 1
    else
      keyValue <- next_vector ;;
      ret (set_position keyValue (set_positionGiven true aPlane))
  else
    l <- get_line ;; fprintf (UnknownProperty key l) ;; ret aPlane.

(** The [while (1)] of line 497. *)
Fixpoint light_while (fuel : nat) (aPlane : Object) : M Object :=
  match fuel with
  | O => out_of_fuel
  | S fuel' =>
      c <- next_c ;;
      if c =? ch "}" then ret aPlane
      else if c =? ch "," then
        key <- read_key ;;
        aPlane' <- light_field key aPlane ;;
        skip_ws ;;
        light_while fuel' aPlane'
      else light_while fuel' aPlane
  end.

(** *** The four branches on the object's type

    [camera_branch] is lines 244-309 and hands back [cam], the one
    variable of the outer block a branch changes; [sphere_branch] is lines
    316-403, [plane_branch] lines 408-487 and [light_branch] lines 492-570.
    The loops get the budget of the outer loop. *)
Definition camera_branch (fuel : nat) (key : string) (cam : Object) (i : Z)
  : M Object :=
  cam <- camera_while fuel key
           (set_camera_widthGiven false (set_camera_heightGiven false cam)) ;;
  if negb (camera_heightGiven cam) || negb (camera_widthGiven cam)
  then fprintf CameraHeightOrWidthNotGiven ;; exit 1
  else store i cam ;; ret cam.

Definition sphere_branch (fuel : nat) (value : string) (i : Z) : M unit :=
  aSphere <- declare_Object ;;
  aSphere <- sphere_while fuel
               (set_sphere_radiusGiven false
                  (set_positionGiven false
                     (set_colorGiven false (set_type value aSphere)))) ;;
  if negb (positionGiven aSphere) || negb (colorGiven aSphere)
     || negb (sphere_radiusGiven aSphere)
  then
    fprintf (PositionColorRadiusMustBeGiven (positionGiven aSphere)
               (colorGiven aSphere) (sphere_radiusGiven aSphere)) ;;
    exit 1
  else store i aSphere.

Definition plane_branch (fuel : nat) (value : string) (i : Z) : M unit :=
  aPlane <- declare_Object ;;
  aPlane <- plane_while fuel
              (set_positionGiven false
                 (set_colorGiven false (set_type value aPlane))) ;;
  if negb (positionGiven aPlane) || negb (colorGiven aPlane)
     || negb (plane_normalGiven aPlane)
  then fprintf PositionColorNormalMustBeGiven ;; exit 1
  else store i aPlane.

Definition light_branch (fuel : nat) (value : string) : M unit :=
  aPlane <- declare_Object ;;
  light_while fuel
    (set_positionGiven false (set_colorGiven false (set_type value aPlane))) ;;
  ret tt.

(** *** One object, lines 227-579

    Entered after the opening brace was read. *)
Definition read_object (fuel : nat) (cam : Object) (i : Z) : M Object :=
  skip_ws ;;
  key <- next_string ;;
  if negb (same_string key "type")
  then l <- get_line ;; fprintf (ExpectedTypeKeyOnLine l) ;; exit 1
  else
    skip_ws ;;
    expect_c (ch ":") ;;
    skip_ws ;;
    value <- next_string ;;
    cam' <-
      (if same_string value "camera" then camera_branch fuel key cam i
       else if same_string value "sphere" then sphere_branch fuel value i ;; ret cam
       else if same_string value "plane" then plane_branch fuel value i ;; ret cam
       else if same_string value "light" then light_branch fuel value ;; ret cam
       else l <- get_line ;; fprintf (UnknownTypeOnLine value l) ;; exit 1) ;;
    skip_ws ;;
    ret cam'.

(** The array of objects the function is declared to return. *)
Definition Scene : Type := list (Z * Object).

(** The [while (1)] of line 218.  Nothing in it leaves the loop: it ends
    in [exit] or not at all. *)
Fixpoint scene_while (fuel : nat) (cam : Object) (i : Z) : M Scene :=
  match fuel with
  | O => out_of_fuel
  | S fuel' =>
      c <- fgetc ;;
      if c =? ch "]" then fclose ;; exit 0
      else
        cam' <- (if c =? ch "{" then read_object fuel' cam i else ret cam) ;;
        scene_while fuel' cam' (wrap_int (i + 1))
  end.

(** [fopen(filename, "r")] over the files that exist: the stream, or
    nothing when the file cannot be opened. *)
Definition fopen (files : string -> option (list ascii)) (filename : string)
  : M bool :=
  fun w =>
    match files filename with
    | Some text => Done true (set_json (mkFILE text false false false) w)
    | None => Done false w
    end.

(** [read_scene], lines 185-583.  [fuel] bounds the turns of the loop of
    line 218. *)
Definition read_scene (fuel : nat) (files : string -> option (list ascii))
  (filename : string) : M Scene :=
  opened <- fopen files filename ;;
  if negb opened then fprintf (CouldNotOpenFile filename) ;; exit 1
  else
    skip_ws ;;
    expect_c (ch "[") ;;
    skip_ws ;;
    c <- fgetc ;;
    if c =? ch "]" then fprintf WorstSceneFileEver ;; fclose ;; exit 1
    else
      cam <- declare_Object ;;
      let cam := set_camera_width (-1)%float (set_camera_height (-1)%float cam) in
      scene_while fuel cam 0.

(* ================================================================== *)
(** * Part V: running the reader                                        *)
(* ================================================================== *)

(** A scene text written with apostrophes where the file has double
    quotes. *)
Definition scene_text (s : string) : list ascii :=
  map (fun a => if Ascii.eqb a "'" then dquote else a) (list_ascii_of_string s).

(** The state [read_scene] is called in: [line] is 1, nothing was
    written, no stream is open yet. *)
Definition initial_world (uninit_Object : nat -> Object) (uninit_double : nat -> float)
  : world :=
  mkWorld (mkFILE [] false false true) 1 [] [] uninit_Object uninit_double 0.

(** [read_scene] on a file with the given text. *)
Definition run (fuel : nat) (text : list ascii)
  (uninit_Object : nat -> Object) (uninit_double : nat -> float) : outcome Scene :=
  read_scene fuel (fun _ => Some text) "scene.json"
    (initial_world uninit_Object uninit_double).

(** What can be seen of a run from outside. *)
Definition exit_status {A : Type} (o : outcome A) : option Z :=
  match o with
  | Exit s _ => Some s
  | _ => None
  end.

Definition returned {A : Type} (o : outcome A) : option A :=
  match o with
  | Done a _ => Some a
  | _ => None
  end.

Definition final_world {A : Type} (o : outcome A) : option world :=
  match o with
  | Done _ w | Exit _ w | Undefined w => Some w
  | OutOfFuel => None
  end.

Definition written {A : Type} (o : outcome A) : list message :=
  match final_world o with
  | Some w => stderr w
  | None => []
  end.

Definition stored {A : Type} (o : outcome A) : list (Z * Object) :=
  match final_world o with
  | Some w => objectArray w
  | None => []
  end.

(** ** The specification's names for the failures

    The specification (its section 7) sorts the failures of the reader
    into kinds.  [classify] gives each message of the source the kind of
    what it reports; the failure of a run is the kind of the last message
    written before the process ended with a status other than 0. *)
Module Spec.
Inductive ErrorKind : Set :=
| UnexpectedEndOfInput
| StreamReadError
| MalformedSyntax
| UnsupportedEscape
| StringTooLong
| UnknownType
| UnknownProperty
| DuplicateField
| MissingRequiredField
| ValueOutOfRange
| EmptySceneRejected
| SceneCapacityExceeded.
End Spec.

Definition classify (m : message) : Spec.ErrorKind :=
  match m with
  | UnexpectedEndOfFileOnLine _ | UnexpectedEndOfFile => Spec.UnexpectedEndOfInput
  | ErrorReadingFile | CouldNotOpenFile _ => Spec.StreamReadError
  | ExpectedCharOnLine _ _ | ExpectedStringOnLine _ | ExpectedTypeKeyOnLine _
  | StringsOnlyAscii => Spec.MalformedSyntax
  | StringsLongerThan128 => Spec.StringTooLong
  | StringsWithEscapeCodes => Spec.UnsupportedEscape
  | WorstSceneFileEver => Spec.EmptySceneRejected
  | CameraWidthAlreadySet | CameraHeightAlreadySet | SphereColorAlreadySet
  | SphereRadiusAlreadySet | SpherePositionAlreadySet | PlaneColorAlreadySet
  | PlaneRadiusAlreadySet | PlanePositionAlreadySet => Spec.DuplicateField
  | CameraWidthInvalid _ | CameraHeightInvalid _ | SphereColorInvalid
  | RadiusInvalid _ | LightColorInvalid | PlaneColorInvalid => Spec.ValueOutOfRange
  | UnknownProperty _ _ => Spec.UnknownProperty
  | CameraHeightOrWidthNotGiven | PositionColorRadiusMustBeGiven _ _ _
  | PositionColorNormalMustBeGiven => Spec.MissingRequiredField
  | UnknownTypeOnLine _ _ => Spec.UnknownType
  end.

Definition failure {A : Type} (o : outcome A) : option Spec.ErrorKind :=
  match o with
  | Exit status w =>
      if status =? 0 then None
      else match rev (stderr w) with
           | m :: _ => Some (classify m)
           | [] => None
           end
  | _ => None
  end.

(** A colour channel outside the interval from 0 to 255, and one inside
    it, the bounds included. *)
Definition channel_outside (c : float) : bool := ((c <? 0) || (255 <? c))%float.
Definition channel_inside (c : float) : bool := ((0 <=? c) && (c <=? 255))%float.

(** ** The scene texts the theorems run the reader on *)

(** One camera. *)
Definition one_camera_text : list ascii :=
  scene_text "[{'type':'camera','width':1,'height':1}]".

(** A camera and a sphere. *)
Definition camera_and_sphere_text : list ascii :=
  scene_text
    "[{'type':'camera','width':1,'height':1},{'type':'sphere','color':[1,2,3],'position':[0,0,-5],'radius':2}]".

(** A camera and a plane with two [color] fields. *)
Definition plane_color_twice_text : list ascii :=
  scene_text
    "[{'type':'camera','width':1,'height':1},{'type':'plane','position':[0,0,0],'color':[1,2,3],'color':[4,5,6]}]".

(** A camera and a sphere with two [color] fields. *)
Definition sphere_color_twice_text : list ascii :=
  scene_text
    "[{'type':'camera','width':1,'height':1},{'type':'sphere','position':[0,0,0],'color':[1,2,3],'color':[4,5,6]}]".

(** A camera and a plane with [position], [color] and [normal], each
    once. *)
Definition complete_plane_text : list ascii :=
  scene_text
    "[{'type':'camera','width':1,'height':1},{'type':'plane','position':[0,0,-10],'color':[1,2,3],'normal':[0,0,1]}]".

(** The same plane with the normal under the empty key. *)
Definition empty_key_plane_text : list ascii :=
  scene_text
    "[{'type':'camera','width':1,'height':1},{'type':'plane','position':[0,0,-10],'color':[1,2,3],'':[0,0,1]}]".

(** A camera and a light with [position], [color] and [normal]. *)
Definition complete_light_text : list ascii :=
  scene_text
    "[{'type':'camera','width':1,'height':1},{'type':'light','position':[0,0,-10],'color':[1,2,3],'normal':[0,0,1]}]".

(** A sphere, a plane and a camera with the key [shine], which no type
    knows. *)
Definition sphere_unknown_key_text : list ascii :=
  scene_text
    "[{'type':'camera','width':1,'height':1},{'type':'sphere','shine':1,'color':[1,2,3],'position':[0,0,-5],'radius':2}]".
Definition plane_unknown_key_text : list ascii :=
  scene_text
    "[{'type':'camera','width':1,'height':1},{'type':'plane','shine':1,'color':[1,2,3],'position':[0,0,-5]}]".
Definition camera_unknown_key_text : list ascii :=
  scene_text
    "[{'type':'camera','width':1,'height':1},{'type':'camera','shine':1,'width':2,'height':3}]".

(** An object with nothing in it, for the storage a run starts with. *)
Definition blank_Object : Object :=
  mkObject EmptyString (mkVec 0 0 0) (mkVec 0 0 0) false false
    0 0 false false (mkVec 0 0 0) false 0 false.

(** A camera and a sphere whose [radius] is the letter [x]. *)
Definition letter_radius_text : list ascii :=
  scene_text
    "[{'type':'camera','width':1,'height':1},{'type':'sphere','color':[1,2,3],'position':[0,0,-5],'radius':x}]".

(** A state with the given characters unread on a healthy stream, line 1,
    nothing written or stored. *)
Definition reading (text : list ascii)
  (uninit_Object : nat -> Object) (uninit_double : nat -> float) : world :=
  mkWorld (mkFILE text false false false) 1 [] [] uninit_Object uninit_double 0.

(** Scenes with a colour channel of 256 or -1, and one with the channels
    0, 255 and 0. *)
Definition sphere_channel_256_text : list ascii :=
  scene_text
    "[{'type':'camera','width':1,'height':1},{'type':'sphere','color':[1,256,3],'position':[0,0,-5],'radius':2}]".
Definition plane_channel_minus_1_text : list ascii :=
  scene_text
    "[{'type':'camera','width':1,'height':1},{'type':'plane','color':[-1,2,3],'position':[0,0,-5]}]".
Definition light_channel_256_text : list ascii :=
  scene_text
    "[{'type':'camera','width':1,'height':1},{'type':'light','color':[1,2,256],'position':[0,0,-5]}]".
Definition sphere_channels_0_255_text : list ascii :=
  scene_text
    "[{'type':'camera','width':1,'height':1},{'type':'sphere','color':[0,255,0],'position':[0,0,-5],'radius':2}]".

(** A text that breaks off inside its first object. *)
Definition broken_off_text : list ascii := scene_text "[{'type':'camera'".

(** How much of the text is unread, and computations that leave no more
    of it unread than they found ([shrinks_at]) or less ([advances_at]),
    without running out of budget. *)
Definition remaining (w : world) : nat := List.length (unread (json w)).

Definition shrinks_at {A : Type} (m : M A) (w : world) : Prop :=
  m w <> OutOfFuel
  /\ forall (a : A) (w' : world), m w = Done a w' -> (remaining w' <= remaining w)%nat.

Definition advances_at {A : Type} (m : M A) (w : world) : Prop :=
  m w <> OutOfFuel
  /\ forall (a : A) (w' : world), m w = Done a w' -> (remaining w' < remaining w)%nat.

(** A loop run on a larger budget ends as it does on a smaller one that
    was enough. *)
Definition fuel_monotone {X Y : Type} (loop : nat -> X -> M Y) : Prop :=
  forall (n m : nat) (x : X) (w : world),
    (n <= m)%nat -> loop n x w <> OutOfFuel -> loop m x w = loop n x w.

(* ================================================================== *)
(** * Part V, continued: the rest of the program                        *)
(* ================================================================== *)

(** [normalize], lines 176-181.  The function overwrites [v] in place;
    here it hands the new contents back.  [len] is computed once, before
    the three divisions. *)
Definition normalize (v : vec3) : vec3 :=
  let len := sqrt (Intersection.sqr (v0 v) + Intersection.sqr (v1 v)
                   + Intersection.sqr (v2 v))%float in
  mkVec (v0 v / len)%float (v1 v / len)%float (v2 v / len)%float.

(** The length [normalize] divides by. *)
Definition normalize_len (v : vec3) : float :=
  sqrt (Intersection.sqr (v0 v) + Intersection.sqr (v1 v)
        + Intersection.sqr (v2 v))%float.

(** A double that is a zero or NaN, read off its specification. *)
Definition zero_or_nan (x : float) : Prop :=
  match Prim2SF x with
  | S754_zero _ | S754_nan => True
  | _ => False
  end.

(** ** [main], lines 635-665

    The messages of [main], which it writes once and then returns.
    [main] ends with a [return], having written what [said] lists, or
    inside [read_scene], as [read_scene] ends.  [argv] is the argument
    vector from [argv[0]] on, so [argc] is its length; [argv_char] is
    [argv[n][0]] as an [int], which for an empty argument is the
    terminating null character, and for a byte over 127 depends on
    whether [char] is signed. *)
Inductive main_message : Set :=
| NotEnoughArguments
| TooManyArguments
| InvalidWidth (width : Z)
| InvalidHeight (height : Z)
| UnableToOpenInputFile.

Inductive main_outcome : Type :=
| Return (status : Z) (said : list main_message)
| Within (o : outcome Scene).

Definition argv_char (char_is_signed : bool) (argv : list string) (n : nat) : Z :=
  match nth n argv EmptyString with
  | EmptyString => 0
  | String a _ => if char_is_signed && (127 <? code a) then code a - 256 else code a
  end.

Definition main (char_is_signed : bool) (fuel : nat)
  (files : string -> option (list ascii)) (argv : list string)
  (uninit_Object : nat -> Object) (uninit_double : nat -> float) : main_outcome :=
  let argc := Z.of_nat (List.length argv) in
  if argc <? 5 then Return (-1) [NotEnoughArguments]
  else if 5 <? argc then Return (-1) [TooManyArguments]
  else
    let width := argv_char char_is_signed argv 1 - ch "0" in
    let height := argv_char char_is_signed argv 2 - ch "0" in
    if width <? 1 then Return (-1) [InvalidWidth width]
    else if height <? 1 then Return (-1) [InvalidHeight height]
    else
      match files (nth 3 argv EmptyString) with
      | None => Return (-1) [UnableToOpenInputFile]
      | Some _ =>
          match read_scene fuel files (nth 3 argv EmptyString)
                  (initial_world uninit_Object uninit_double) with
          | Done _ _ => Return 0 []
          | o => Within o
          end
      end.

(** ** Characters and lines *)

(** A character [next_string] takes into a string: printable, and
    neither the double quote nor the backslash. *)
Definition string_character (a : ascii) : bool :=
  (32 <=? code a) && (code a <=? 126)
  && negb (code a =? ch dquote) && negb (code a =? ch backslash).

(** How many line feeds a run of characters holds. *)
Fixpoint line_feeds (s : list ascii) : Z :=
  match s with
  | [] => 0
  | a :: rest => (if code a =? ch newline then 1 else 0) + line_feeds rest
  end.

(** ** What the reader puts into the array

    A sphere as line 403 stores it and a camera as line 309 does: the
    fields the branch asks for were read, and what was read passed the
    checks.  [keeps_array] and [adds_to_array] say of a computation,
    however it ends, that the array is as it was, or is longer by stores
    of the given kind. *)
Definition sphere_is_complete (o : Object) : bool :=
  positionGiven o && colorGiven o && sphere_radiusGiven o
  && negb (color_out_of_range (color o)) && negb (sphere_radius o <? 1)%float.

Definition camera_is_complete (o : Object) : bool :=
  camera_widthGiven o && camera_heightGiven o
  && negb (camera_width o <? 1)%float && negb (camera_height o <? 1)%float.

Definition well_stored (p : Z * Object) : Prop :=
  0 <= fst p < 1000
  /\ (sphere_is_complete (snd p) = true \/ camera_is_complete (snd p) = true).

(** While an object is being read: what has been read into it so far
    passed its check. *)
Definition sphere_checked (o : Object) : Prop :=
  (colorGiven o = true -> color_out_of_range (color o) = false)
  /\ (sphere_radiusGiven o = true -> (sphere_radius o <? 1)%float = false).

Definition camera_checked (o : Object) : Prop :=
  (camera_widthGiven o = true -> (camera_width o <? 1)%float = false)
  /\ (camera_heightGiven o = true -> (camera_height o <? 1)%float = false).

Definition keeps_array {A : Type} (m : M A) : Prop :=
  forall w w' : world, final_world (m w) = Some w' -> objectArray w' = objectArray w.

Definition adds_to_array {A : Type} (P : Z * Object -> Prop) (m : M A) : Prop :=
  forall w w' : world,
    final_world (m w) = Some w' ->
    exists more, objectArray w' = (objectArray w ++ more)%list /\ Forall P more.

(** ** Fields given twice

    A run that ends as the reader ends on a repeated field, and a chain
    of fields that reads none of the given keys twice: once a key was
    read, reading it again ends the run so, at once or after another
    field was read. *)
Definition refuses_repetition {A : Type} (o : outcome A) : Prop :=
  exit_status o = Some 1 /\ failure o = Some Spec.DuplicateField.

Definition read_once (field : string -> Object -> M Object) (keys : list string)
  : Prop :=
  forall (key : string) (o o1 : Object) (w w1 : world),
    In key keys ->
    field key o w = Done o1 w1 ->
    (forall w2, refuses_repetition (field key o1 w2))
    /\ (forall (other : string) (o2 : Object) (w2 w3 : world),
          field other o1 w2 = Done o2 w3 ->
          forall w4, refuses_repetition (field key o2 w4)).

(** ** The loop of line 218 between the objects

    A character the loop passes over, reading nothing for it, and the
    counter [i] after a number of turns. *)
Definition passed_over (a : ascii) : bool :=
  negb (code a =? ch "]") && negb (code a =? ch "{").

Definition turns (n : nat) (i : Z) : Z := Nat.iter n (fun i => wrap_int (i + 1)) i.

(** ** An object behind the first

    The text of a sphere behind its opening brace, what reading it puts
    into an object that held [blank], and the runs that made a store
    outside the array. *)
Definition sphere_object_text : list ascii :=
  scene_text "'type':'sphere','color':[1,2,3],'position':[0,0,-5],'radius':2}".

Definition sphere_read (blank : Object) : Object :=
  mkObject "sphere" (mkVec 1 2 3) (mkVec 0 0 (-5)) true true
    (camera_width blank) (camera_height blank)
    (camera_widthGiven blank) (camera_heightGiven blank)
    (plane_normal blank) (plane_normalGiven blank) 2 true.

Definition undefined {A : Type} (o : outcome A) : bool :=
  match o with
  | Undefined _ => true
  | _ => false
  end.

(** ** What is written before the process ends

    The message of lines 392, 476 and 564, after which the sphere, plane
    and light branches go on; and how a computation started with [err]
    on [stderr] may end: having added such notices only, or, with status
    1, such notices and one last message. *)
Definition is_notice (m : message) : bool :=
  match m with
  | UnknownProperty _ _ => true
  | _ => false
  end.

Definition announced {A : Type} (err : list message) (o : outcome A) : Prop :=
  match o with
  | Done _ w | Undefined w =>
      exists more, stderr w = (err ++ more)%list /\ Forall (fun m => is_notice m = true) more
  | Exit status w =>
      (status = 0
       /\ exists more,
            stderr w = (err ++ more)%list /\ Forall (fun m => is_notice m = true) more)
      \/ (status = 1
          /\ exists more m,
               stderr w = (err ++ more ++ [m])%list
               /\ Forall (fun m => is_notice m = true) more)
  | OutOfFuel => True
  end.

Definition announces {A : Type} (m : M A) : Prop :=
  forall w : world, announced (stderr w) (m w).

(* ================================================================== *)
(** * Part VI: the order of the doubles                                 *)
(* ================================================================== *)

Section FloatOrder.

(** Swapping the arguments of the comparison of two doubles mirrors its
    result. *)
Lemma SFcompare_swap (x y : spec_float) :
  SFcompare y x = option_map CompOpp (SFcompare x y).
Proof.
  destruct x as [sx | sx | | sx mx ex], y as [sy | sy | | sy my ey];
    try destruct sx; try destruct sy; simpl; try reflexivity.
  - rewrite (Z.compare_antisym ey ex).
    destruct (ey ?= ex)%Z; simpl; try reflexivity.
    rewrite (Pos.compare_cont_antisym mx my Eq). reflexivity.
  - rewrite (Z.compare_antisym ey ex).
    destruct (ey ?= ex)%Z; simpl; try reflexivity.
    rewrite (Pos.compare_cont_antisym mx my Eq). simpl.
    destruct (Pos.compare_cont Eq mx my); reflexivity.
Qed.

(** [x <= y] excludes [y < x]. *)
Lemma leb_not_ltb (x y : float) :
  (x <=? y)%float = true -> (y <? x)%float = false.
Proof.
  rewrite leb_spec, ltb_spec. unfold SFleb, SFltb.
  rewrite (SFcompare_swap (Prim2SF x) (Prim2SF y)).
  destruct (SFcompare (Prim2SF x) (Prim2SF y)) as [[ | | ] | ]; simpl;
    intro H; try reflexivity; discriminate H.
Qed.

(** A double above zero is not the "no intersection" value. *)
Lemma positive_is_not_sentinel (t : float) :
  (0 <? t)%float = true -> Leibniz.eqb t Intersection.no_intersection = false.
Proof.
  intro H. destruct (Leibniz.eqb t Intersection.no_intersection) eqn:E; [ | reflexivity].
  apply Leibniz.eqb_spec in E. subst t. vm_compute in H. discriminate H.
Qed.

(** Nor is a double that is at least zero. *)
Lemma nonnegative_is_not_sentinel (t : float) :
  (0 <=? t)%float = true -> Leibniz.eqb t Intersection.no_intersection = false.
Proof.
  intro H. destruct (Leibniz.eqb t Intersection.no_intersection) eqn:E; [ | reflexivity].
  apply Leibniz.eqb_spec in E. subst t. vm_compute in H. discriminate H.
Qed.

End FloatOrder.

(* ================================================================== *)
(** * Part VII: the intersection routines                               *)
(* ================================================================== *)

Section IntersectionFacts.
Import Intersection.
Local Open Scope float_scope.

(** C1.  For every ray and sphere, [sphere_intersection] works on
    [a = dot(direction, direction)], [b = 2 * dot(direction, origin - center)],
    [c = dot(origin - center, origin - center) - radius^2] and
    [disc = b^2 - 4ac]: it answers "no intersection" when [disc < 0];
    otherwise [t0 = (-b - sqrt disc) / 2a] when [t0 > 0], else
    [t1 = (-b + sqrt disc) / 2a] when [t1 > 0], else "no intersection";
    a distance it answers is above zero, so the value standing for "no
    intersection" is never mistaken for one.  For origin (0,0,0),
    direction (0,0,-1), center (0,0,-5) and radius 1 the answer is 4, and
    for direction (0,0,1) it is "no intersection". *)
Theorem sphere_intersection_roots (origin direction center : vec3) (radius : float) :
  let disc := sphere_disc origin direction center radius in
  let t0 := sphere_t0 origin direction center radius in
  let t1 := sphere_t1 origin direction center radius in
  sphere_intersection origin direction center radius
  = (if disc <? 0 then no_intersection
     else if 0 <? t0 then t0
     else if 0 <? t1 then t1
     else no_intersection)
  /\ distance_of (sphere_intersection origin direction center radius)
     = (if disc <? 0 then None
        else if 0 <? t0 then Some t0
        else if 0 <? t1 then Some t1
        else None)
  /\ match distance_of (sphere_intersection origin direction center radius) with
     | Some t => (0 <? t) = true
     | None => True
     end
  /\ sphere_intersection (mkVec 0 0 0) (mkVec 0 0 (-1)) (mkVec 0 0 (-5)) 1 = 4
  /\ distance_of (sphere_intersection (mkVec 0 0 0) (mkVec 0 0 1) (mkVec 0 0 (-5)) 1)
     = None.
Proof.
  intros disc t0 t1.
  assert (E : sphere_intersection origin direction center radius
              = (if disc <? 0 then no_intersection
                 else if 0 <? t0 then t0
                 else if 0 <? t1 then t1
                 else no_intersection)) by reflexivity.
  assert (D : distance_of (sphere_intersection origin direction center radius)
              = (if disc <? 0 then None
                 else if 0 <? t0 then Some t0
                 else if 0 <? t1 then Some t1
                 else None)).
  { rewrite E. unfold distance_of.
    destruct (disc <? 0); [reflexivity | ].
    destruct (0 <? t0) eqn:H0; [rewrite (positive_is_not_sentinel _ H0); reflexivity | ].
    destruct (0 <? t1) eqn:H1; [rewrite (positive_is_not_sentinel _ H1); reflexivity | ].
    reflexivity. }
  split; [exact E | ]. split; [exact D | ]. split; [ | split; reflexivity].
  rewrite D.
  destruct (disc <? 0); [exact I | ].
  destruct (0 <? t0) eqn:H0; [exact H0 | ].
  destruct (0 <? t1) eqn:H1; [exact H1 | exact I].
Qed.

(** C2.  For every ray and plane with [dot(normal, direction)] not zero,
    [plane_intersection] works on [a = dot(normal, direction)],
    [d = dot(position - origin, normal)] and [t = d / a]: it answers [t]
    when [t >= 0] and "no intersection" when [t < 0]. *)
Theorem plane_intersection_quotient (origin direction position normal : vec3) :
  (plane_a direction normal =? 0) = false ->
  let t := plane_t origin direction position normal in
  ((0 <=? t) = true ->
     plane_intersection origin direction position normal = t
     /\ distance_of (plane_intersection origin direction position normal) = Some t)
  /\ ((t <? 0) = true ->
        distance_of (plane_intersection origin direction position normal) = None).
Proof.
  intros _ t.
  assert (E : plane_intersection origin direction position normal
              = if t <? 0 then no_intersection else t) by reflexivity.
  split; intro H; rewrite E.
  - rewrite (leb_not_ltb _ _ H). split; [reflexivity | ].
    unfold distance_of. rewrite (nonnegative_is_not_sentinel _ H). reflexivity.
  - rewrite H. reflexivity.
Qed.

(** The ray of the specification's example: from (0,0,0) towards
    (0,0,-1), onto the plane through (0,0,-10) with normal (0,0,1). *)
Lemma plane_intersection_quotient_witness :
  (plane_a (mkVec 0 0 (-1)) (mkVec 0 0 1) =? 0) = false
  /\ (0 <=? plane_t (mkVec 0 0 0) (mkVec 0 0 (-1)) (mkVec 0 0 (-10)) (mkVec 0 0 1)) = true
  /\ plane_intersection (mkVec 0 0 0) (mkVec 0 0 (-1)) (mkVec 0 0 (-10)) (mkVec 0 0 1) = 10
  /\ distance_of
       (plane_intersection (mkVec 0 0 0) (mkVec 0 0 (-1)) (mkVec 0 0 (-10)) (mkVec 0 0 1))
     = Some 10
  /\ (plane_t (mkVec 0 0 0) (mkVec 0 0 (-1)) (mkVec 0 0 10) (mkVec 0 0 1) <? 0) = true
  /\ distance_of
       (plane_intersection (mkVec 0 0 0) (mkVec 0 0 (-1)) (mkVec 0 0 10) (mkVec 0 0 1))
     = None.
Proof.
  assert (A : (plane_a (mkVec 0 0 (-1)) (mkVec 0 0 1) =? 0) = false) by reflexivity.
  assert (T : (0 <=? plane_t (mkVec 0 0 0) (mkVec 0 0 (-1)) (mkVec 0 0 (-10)) (mkVec 0 0 1))
              = true) by reflexivity.
  assert (U : (plane_t (mkVec 0 0 0) (mkVec 0 0 (-1)) (mkVec 0 0 10) (mkVec 0 0 1) <? 0)
              = true) by reflexivity.
  split; [exact A | ]. split; [exact T | ].
  split; [ | split; [ | split; [exact U | ]]].
  - exact (proj1 (proj1 (plane_intersection_quotient
                           (mkVec 0 0 0) (mkVec 0 0 (-1)) (mkVec 0 0 (-10)) (mkVec 0 0 1) A) T)).
  - exact (proj2 (proj1 (plane_intersection_quotient
                           (mkVec 0 0 0) (mkVec 0 0 (-1)) (mkVec 0 0 (-10)) (mkVec 0 0 1) A) T)).
  - exact (proj2 (plane_intersection_quotient
                    (mkVec 0 0 0) (mkVec 0 0 (-1)) (mkVec 0 0 10) (mkVec 0 0 1) A) U).
Defined.

(** C3.  A ray that runs parallel to the plane.  From (0,0,0) towards
    (1,0,0), [dot(normal, direction)] is zero for the normal (0,0,1).
    With the plane through (0,0,10) the routine divides 10 by zero and
    answers infinity; with the plane through the origin it divides zero by
    zero and answers NaN.  Neither is "no intersection" and neither is a
    distance. *)
Theorem plane_intersection_parallel_ray :
  (plane_a (mkVec 1 0 0) (mkVec 0 0 1) =? 0) = true
  /\ plane_intersection (mkVec 0 0 0) (mkVec 1 0 0) (mkVec 0 0 10) (mkVec 0 0 1) = infinity
  /\ distance_of
       (plane_intersection (mkVec 0 0 0) (mkVec 1 0 0) (mkVec 0 0 10) (mkVec 0 0 1))
     = Some infinity
  /\ plane_intersection (mkVec 0 0 0) (mkVec 1 0 0) (mkVec 0 0 0) (mkVec 0 0 1) = nan
  /\ distance_of
       (plane_intersection (mkVec 0 0 0) (mkVec 1 0 0) (mkVec 0 0 0) (mkVec 0 0 1))
     = Some nan
  /\ is_distance infinity = false
  /\ is_distance nan = false.
Proof.
  repeat split; reflexivity.
Qed.

End IntersectionFacts.

(* ================================================================== *)
(** * Part VIII: budgets and the ways [read_scene] ends                 *)
(* ================================================================== *)

Section Fuel.
Local Open Scope prog_scope.

Lemma camera_while_fuel (key : string) :
  fuel_monotone (fun n => camera_while n key).
Proof.
  intros n. induction n as [ | n IH]; intros m cam w Hle Hne.
  - exfalso. apply Hne. reflexivity.
  - destruct m as [ | m]; [lia | ].
    assert (Hle' : (n <= m)%nat) by lia.
    simpl in *. unfold bind in *.
    destruct (next_c w) as [c w1 | | | ]; try reflexivity.
    destruct (c =? ch "}"); [reflexivity | ].
    destruct (c =? ch ","); [ | reflexivity].
    destruct (read_key w1) as [key' w2 | | | ]; try reflexivity.
    destruct (camera_field key' cam w2) as [o w3 | | | ]; try reflexivity.
    destruct (skip_ws w3) as [[] w4 | | | ]; try reflexivity.
    apply IH; assumption.
Qed.

Lemma sphere_while_fuel : fuel_monotone sphere_while.
Proof.
  intros n. induction n as [ | n IH]; intros m aSphere w Hle Hne.
  - exfalso. apply Hne. reflexivity.
  - destruct m as [ | m]; [lia | ].
    assert (Hle' : (n <= m)%nat) by lia.
    simpl in *. unfold bind in *.
    destruct (next_c w) as [c w1 | | | ]; try reflexivity.
    destruct (c =? ch "}"); [reflexivity | ].
    destruct (c =? ch ",").
    + destruct (read_key w1) as [key w2 | | | ]; try reflexivity.
      destruct (sphere_field key aSphere w2) as [o w3 | | | ]; try reflexivity.
      destruct (skip_ws w3) as [[] w4 | | | ]; try reflexivity.
      apply IH; assumption.
    + apply IH; assumption.
Qed.

Lemma plane_while_fuel : fuel_monotone plane_while.
Proof.
  intros n. induction n as [ | n IH]; intros m aPlane w Hle Hne.
  - exfalso. apply Hne. reflexivity.
  - destruct m as [ | m]; [lia | ].
    assert (Hle' : (n <= m)%nat) by lia.
    simpl in *. unfold bind in *.
    destruct (next_c w) as [c w1 | | | ]; try reflexivity.
    destruct (c =? ch "}"); [reflexivity | ].
    destruct (c =? ch ",").
    + destruct (read_key w1) as [key w2 | | | ]; try reflexivity.
      destruct (plane_field key aPlane w2) as [o w3 | | | ]; try reflexivity.
      destruct (skip_ws w3) as [[] w4 | | | ]; try reflexivity.
      apply IH; assumption.
    + apply IH; assumption.
Qed.

Lemma light_while_fuel : fuel_monotone light_while.
Proof.
  intros n. induction n as [ | n IH]; intros m aPlane w Hle Hne.
  - exfalso. apply Hne. reflexivity.
  - destruct m as [ | m]; [lia | ].
    assert (Hle' : (n <= m)%nat) by lia.
    simpl in *. unfold bind in *.
    destruct (next_c w) as [c w1 | | | ]; try reflexivity.
    destruct (c =? ch "}"); [reflexivity | ].
    destruct (c =? ch ",").
    + destruct (read_key w1) as [key w2 | | | ]; try reflexivity.
      destruct (light_field key aPlane w2) as [o w3 | | | ]; try reflexivity.
      destruct (skip_ws w3) as [[] w4 | | | ]; try reflexivity.
      apply IH; assumption.
    + apply IH; assumption.
Qed.

Lemma read_object_fuel (i : Z) :
  fuel_monotone (fun n cam => read_object n cam i).
Proof.
  intros n m cam w Hle Hne. cbv beta in *.
  unfold read_object, camera_branch, sphere_branch, plane_branch, light_branch,
    bind in *.
  destruct (skip_ws w) as [[] w1 | | | ]; try reflexivity.
  destruct (next_string w1) as [key w2 | | | ]; try reflexivity.
  destruct (negb (same_string key "type")); [reflexivity | ].
  destruct (skip_ws w2) as [[] w3 | | | ]; try reflexivity.
  destruct (expect_c (ch ":") w3) as [[] w4 | | | ]; try reflexivity.
  destruct (skip_ws w4) as [[] w5 | | | ]; try reflexivity.
  destruct (next_string w5) as [value w6 | | | ]; try reflexivity.
  destruct (same_string value "camera").
  { rewrite (camera_while_fuel key n m _ w6 Hle); [reflexivity | ].
    intro E. rewrite E in Hne. apply Hne. reflexivity. }
  destruct (same_string value "sphere").
  { destruct (declare_Object w6) as [o w7 | | | ]; try reflexivity.
    rewrite (sphere_while_fuel n m _ w7 Hle); [reflexivity | ].
    intro E. rewrite E in Hne. apply Hne. reflexivity. }
  destruct (same_string value "plane").
  { destruct (declare_Object w6) as [o w7 | | | ]; try reflexivity.
    rewrite (plane_while_fuel n m _ w7 Hle); [reflexivity | ].
    intro E. rewrite E in Hne. apply Hne. reflexivity. }
  destruct (same_string value "light").
  { destruct (declare_Object w6) as [o w7 | | | ]; try reflexivity.
    rewrite (light_while_fuel n m _ w7 Hle); [reflexivity | ].
    intro E. rewrite E in Hne. apply Hne. reflexivity. }
  reflexivity.
Qed.

Lemma scene_while_fuel (n m : nat) (cam : Object) (i : Z) (w : world) :
  (n <= m)%nat -> scene_while n cam i w <> OutOfFuel ->
  scene_while m cam i w = scene_while n cam i w.
Proof.
  revert m cam i w. induction n as [ | n IH]; intros m cam i w Hle Hne.
  - exfalso. apply Hne. reflexivity.
  - destruct m as [ | m]; [lia | ].
    assert (Hle' : (n <= m)%nat) by lia.
    simpl in *. unfold bind in *.
    destruct (fgetc w) as [c w1 | | | ]; try reflexivity.
    destruct (c =? ch "]"); [reflexivity | ].
    destruct (c =? ch "{").
    + rewrite (read_object_fuel i n m cam w1 Hle').
      * destruct (read_object n cam i w1) as [cam' w2 | | | ]; try reflexivity.
        apply IH; assumption.
      * intro E. rewrite E in Hne. apply Hne. reflexivity.
    + unfold ret in *. apply IH; assumption.
Qed.

(** The whole reader: a budget that was enough for a text is enough when
    raised. *)
Lemma run_fuel (n m : nat) (text : list ascii)
  (uninit_Object : nat -> Object) (uninit_double : nat -> float) :
  (n <= m)%nat -> run n text uninit_Object uninit_double <> OutOfFuel ->
  run m text uninit_Object uninit_double = run n text uninit_Object uninit_double.
Proof.
  unfold run, read_scene. intros Hle Hne.
  unfold bind in *.
  destruct (fopen (fun _ => Some text) "scene.json"
              (initial_world uninit_Object uninit_double)) as [opened w0 | | | ];
    try reflexivity.
  destruct (negb opened); [reflexivity | ].
  destruct (skip_ws w0) as [[] w1 | | | ]; try reflexivity.
  destruct (expect_c (ch "[") w1) as [[] w2 | | | ]; try reflexivity.
  destruct (skip_ws w2) as [[] w3 | | | ]; try reflexivity.
  destruct (fgetc w3) as [c w4 | | | ]; try reflexivity.
  destruct (c =? ch "]"); [reflexivity | ].
  destruct (declare_Object w4) as [cam w5 | | | ]; try reflexivity.
  apply scene_while_fuel; assumption.
Qed.

(** The loop of line 218 has no way out but [exit]: whatever the text and
    the budget, [read_scene] never gets to hand an array back. *)
Lemma scene_while_never_returns (fuel : nat) (cam : Object) (i : Z) (w : world) :
  returned (scene_while fuel cam i w) = None.
Proof.
  revert cam i w. induction fuel as [ | fuel IH]; intros cam i w; [reflexivity | ].
  simpl. unfold bind.
  destruct (fgetc w) as [c w1 | | | ]; try reflexivity.
  destruct (c =? ch "]"); [reflexivity | ].
  destruct ((if c =? ch "{" then read_object fuel cam i else ret cam) w1)
    as [cam' w2 | | | ]; try reflexivity.
  apply IH.
Qed.

Lemma read_scene_never_returns (fuel : nat)
  (files : string -> option (list ascii)) (filename : string) (w : world) :
  returned (read_scene fuel files filename w) = None.
Proof.
  unfold read_scene, bind.
  destruct (fopen files filename w) as [opened w0 | | | ]; try reflexivity.
  destruct (negb opened); [reflexivity | ].
  destruct (skip_ws w0) as [[] w1 | | | ]; try reflexivity.
  destruct (expect_c (ch "[") w1) as [[] w2 | | | ]; try reflexivity.
  destruct (skip_ws w2) as [[] w3 | | | ]; try reflexivity.
  destruct (fgetc w3) as [c w4 | | | ]; try reflexivity.
  destruct (c =? ch "]"); [reflexivity | ].
  destruct (declare_Object w4) as [cam w5 | | | ]; try reflexivity.
  apply scene_while_never_returns.
Qed.

End Fuel.

(* ================================================================== *)
(** * Part IX: what [read_scene] does with whole scene texts            *)
(* ================================================================== *)

Section Scenes.

Ltac evaluate_run budget :=
  rewrite (run_fuel budget) by (first [lia | vm_compute; discriminate]);
  vm_compute; repeat split; reflexivity.

(** C4.  Two well-formed scene texts.  The first holds one object; the
    reader ends the process with [exit(0)] on the closing bracket, hands
    no array back and has stored no object (line 203 reads the opening
    brace of the first object away, and the loop of line 218 then passes
    over the object character by character).  The second holds two
    objects; the reader again ends the process, having stored one object,
    the sphere, in slot 38 of the array.  With that, no text at all makes
    [read_scene] return: the loop of line 218 is only ever left through
    [exit]. *)
Theorem read_scene_exits_instead_of_returning :
  (forall (extra : nat) (uninit_Object : nat -> Object) (uninit_double : nat -> float),
     let o := run (60 + extra) one_camera_text uninit_Object uninit_double in
     exit_status o = Some 0 /\ returned o = None /\ stored o = [] /\ written o = [])
  /\ (forall (extra : nat) (uninit_Object : nat -> Object) (uninit_double : nat -> float),
        let o := run (130 + extra) camera_and_sphere_text uninit_Object uninit_double in
        exit_status o = Some 0 /\ returned o = None
        /\ map fst (stored o) = [38]
        /\ map (fun p => type (snd p)) (stored o) = ["sphere"]
        /\ written o = [])
  /\ (forall (fuel : nat) (files : string -> option (list ascii)) (filename : string)
             (w : world),
        returned (read_scene fuel files filename w) = None).
Proof.
  split; [ | split].
  - intros extra so sd o. subst o. evaluate_run 60%nat.
  - intros extra so sd o. subst o. evaluate_run 130%nat.
  - exact read_scene_never_returns.
Qed.

(** C5.  A plane whose text holds the key [color] twice.  The second
    [color] is read like the first, line 431 finding [colorGiven] still
    false; the run fails at the closing brace instead, with the message of
    line 484, which reports missing fields and not a repeated one.  The
    same repetition in a sphere is reported by line 342. *)
Theorem plane_color_twice_is_not_reported :
  (forall (extra : nat) (uninit_Object : nat -> Object) (uninit_double : nat -> float),
     let o := run (130 + extra) plane_color_twice_text uninit_Object uninit_double in
     exit_status o = Some 1
     /\ written o = [PositionColorNormalMustBeGiven]
     /\ failure o = Some Spec.MissingRequiredField)
  /\ (forall (extra : nat) (uninit_Object : nat -> Object) (uninit_double : nat -> float),
        let o := run (130 + extra) sphere_color_twice_text uninit_Object uninit_double in
        exit_status o = Some 1
        /\ written o = [SphereColorAlreadySet]
        /\ failure o = Some Spec.DuplicateField).
Proof.
  split.
  - intros extra so sd o. subst o. evaluate_run 130%nat.
  - intros extra so sd o. subst o. evaluate_run 130%nat.
Qed.

(** No field of a plane changes [colorGiven]: the colour branch of lines
    430-444 lacks the assignment the sphere's has on line 353. *)
Lemma plane_field_keeps_colorGiven (key : string) (aPlane aPlane' : Object)
  (w w' : world) :
  plane_field key aPlane w = Done aPlane' w' ->
  colorGiven aPlane' = colorGiven aPlane.
Proof.
  unfold plane_field, bind.
  destruct (same_string key "color").
  { destruct (colorGiven aPlane) eqn:C.
    - destruct (fprintf PlaneColorAlreadySet w); discriminate.
    - destruct (next_vector w) as [v w1 | | | ]; try discriminate.
      destruct (color_out_of_range v).
      + destruct (fprintf LightColorInvalid w1); discriminate.
      + unfold ret. intro H. injection H as <- _. exact C. }
  destruct (same_string key EmptyString).
  { destruct (plane_normalGiven aPlane).
    - destruct (fprintf PlaneRadiusAlreadySet w); discriminate.
    - destruct (next_vector w) as [v w1 | | | ]; try discriminate.
      unfold ret. intro H. injection H as <- _. reflexivity. }
  destruct (same_string key "position").
  { destruct (positionGiven aPlane).
    - destruct (fprintf PlanePositionAlreadySet w); discriminate.
    - destruct (next_vector w) as [v w1 | | | ]; try discriminate.
      unfold ret. intro H. injection H as <- _. reflexivity. }
  destruct (get_line w) as [l w1 | | | ]; try discriminate.
  destruct (fprintf (UnknownProperty key l) w1) as [[] w2 | | | ]; try discriminate.
  unfold ret. intro H. injection H as <- _. reflexivity.
Qed.

Lemma plane_while_keeps_colorGiven (fuel : nat) (aPlane aPlane' : Object)
  (w w' : world) :
  plane_while fuel aPlane w = Done aPlane' w' ->
  colorGiven aPlane' = colorGiven aPlane.
Proof.
  revert aPlane w. induction fuel as [ | fuel IH]; intros aPlane w; [discriminate | ].
  simpl. unfold bind.
  destruct (next_c w) as [c w1 | | | ]; try discriminate.
  destruct (c =? ch "}").
  { unfold ret. intro H. injection H as <- _. reflexivity. }
  destruct (c =? ch ","); [ | apply IH].
  destruct (read_key w1) as [key w2 | | | ]; try discriminate.
  destruct (plane_field key aPlane w2) as [o w3 | | | ] eqn:F; try discriminate.
  destruct (skip_ws w3) as [[] w4 | | | ]; try discriminate.
  intro H. rewrite (IH _ _ H). exact (plane_field_keeps_colorGiven _ _ _ _ _ F).
Qed.

(** So the test of line 483 fails for every plane, and none reaches the
    store of line 487. *)
Lemma plane_branch_never_stores (fuel : nat) (value : string) (i : Z) (w : world) :
  returned (plane_branch fuel value i w) = None.
Proof.
  unfold plane_branch, bind.
  destruct (declare_Object w) as [o w1 | | | ]; try reflexivity.
  destruct (plane_while fuel _ w1) as [aPlane w2 | | | ] eqn:L; try reflexivity.
  rewrite (plane_while_keeps_colorGiven _ _ _ _ _ L). simpl.
  rewrite orb_true_r. simpl.
  destruct (fprintf PositionColorNormalMustBeGiven w2); reflexivity.
Qed.

(** C6.  A plane whose text gives [position], [color] and [normal] once
    each, with values in range.  The reader does not take it: the key
    [normal] is not one the plane branch knows (line 446 compares with the
    empty string), the message of line 476 is written, and the vector
    that follows is read as if it were further fields, which ends the
    process on line 104.  With the normal under the empty key the plane
    is still not taken: line 483 finds [colorGiven] false, as it does for
    every plane.  The light branch, whose code is the same but for these
    two places, reads the same three fields without complaint. *)
Theorem complete_plane_is_rejected :
  (forall (extra : nat) (uninit_Object : nat -> Object) (uninit_double : nat -> float),
     let o := run (130 + extra) complete_plane_text uninit_Object uninit_double in
     exit_status o = Some 1
     /\ written o = [UnknownProperty "normal" 1; ExpectedStringOnLine 1]
     /\ failure o = Some Spec.MalformedSyntax
     /\ stored o = [])
  /\ (forall (extra : nat) (uninit_Object : nat -> Object) (uninit_double : nat -> float),
        let o := run (130 + extra) empty_key_plane_text
                   (fun k => set_plane_normalGiven false (uninit_Object k)) uninit_double in
        exit_status o = Some 1
        /\ written o = [PositionColorNormalMustBeGiven]
        /\ failure o = Some Spec.MissingRequiredField
        /\ stored o = [])
  /\ (forall (fuel : nat) (value : string) (i : Z) (w : world),
        returned (plane_branch fuel value i w) = None)
  /\ (forall (extra : nat) (uninit_Object : nat -> Object) (uninit_double : nat -> float),
        let o := run (130 + extra) complete_light_text
                   (fun k => set_plane_normalGiven false (uninit_Object k)) uninit_double in
        exit_status o = Some 0 /\ written o = []).
Proof.
  split; [ | split; [ | split]].
  - intros extra so sd o. subst o. evaluate_run 130%nat.
  - intros extra so sd o. subst o. evaluate_run 130%nat.
  - exact plane_branch_never_stores.
  - intros extra so sd o. subst o. evaluate_run 130%nat.
Qed.

(** C7.  The key [shine], which no type knows.  In a sphere the message of
    line 392 is written and reading goes on: the process ends with
    [exit(0)] and the sphere is stored.  In a plane the message of line
    476 is written and reading goes on to the closing brace, where line
    484 reports something else.  Only in a camera does the process end
    there, on line 298.  The chains of lines 391 and 475 hand the object
    back after the message, whatever the state. *)
Theorem unknown_key_is_passed_over :
  (forall (extra : nat) (uninit_Object : nat -> Object) (uninit_double : nat -> float),
     let o := run (130 + extra) sphere_unknown_key_text uninit_Object uninit_double in
     exit_status o = Some 0
     /\ written o = [UnknownProperty "shine" 1]
     /\ failure o = None
     /\ map fst (stored o) = [38]
     /\ map (fun p => type (snd p)) (stored o) = ["sphere"])
  /\ (forall (extra : nat) (uninit_Object : nat -> Object) (uninit_double : nat -> float),
        let o := run (130 + extra) plane_unknown_key_text uninit_Object uninit_double in
        exit_status o = Some 1
        /\ written o = [UnknownProperty "shine" 1; PositionColorNormalMustBeGiven]
        /\ failure o = Some Spec.MissingRequiredField)
  /\ (forall (extra : nat) (uninit_Object : nat -> Object) (uninit_double : nat -> float),
        let o := run (130 + extra) camera_unknown_key_text uninit_Object uninit_double in
        exit_status o = Some 1
        /\ written o = [UnknownProperty "type" 1]
        /\ failure o = Some Spec.UnknownProperty)
  /\ (forall (aSphere : Object) (w : world),
        sphere_field "shine" aSphere w
        = Done aSphere (set_stderr (stderr w ++ [UnknownProperty "shine" (line w)]) w))
  /\ (forall (aPlane : Object) (w : world),
        plane_field "shine" aPlane w
        = Done aPlane (set_stderr (stderr w ++ [UnknownProperty "shine" (line w)]) w)).
Proof.
  split; [ | split; [ | split; [ | split]]].
  - intros extra so sd o. subst o. evaluate_run 130%nat.
  - intros extra so sd o. subst o. evaluate_run 130%nat.
  - intros extra so sd o. subst o. evaluate_run 130%nat.
  - intros aSphere w. reflexivity.
  - intros aPlane w. reflexivity.
Qed.

End Scenes.

(* ================================================================== *)
(** * Part X: the helpers on a stream of known shape                    *)
(* ================================================================== *)

Section Helpers.

Lemma code_range (a : ascii) : 0 <= code a < 256.
Proof.
  unfold code. pose proof (N_ascii_bounded a) as B. lia.
Qed.

Lemma code_is_not_EOF (a : ascii) : (code a =? EOF) = false.
Proof.
  apply Z.eqb_neq. pose proof (code_range a). unfold EOF. lia.
Qed.

Lemma ascii_of_code_code (a : ascii) : ascii_of_code (code a) = a.
Proof.
  unfold ascii_of_code, code. rewrite N2Z.id. apply ascii_N_embedding.
Qed.

(** [next_c] with a character to read. *)
Lemma next_c_reads (a : ascii) (rest : list ascii) (e r cl : bool) (l : Z)
  (err : list message) (arr : list (Z * Object))
  (so : nat -> Object) (sd : nat -> float) (d : nat) :
  next_c (mkWorld (mkFILE (a :: rest) e r cl) l err arr so sd d)
  = Done (code a)
      (mkWorld (mkFILE rest e r cl)
         (if code a =? ch newline then wrap_int (l + 1) else l) err arr so sd d).
Proof.
  unfold next_c, bind, fgetc. simpl.
  destruct (code a =? ch newline); simpl; rewrite (code_is_not_EOF a); reflexivity.
Qed.

(** The loop of [skip_ws] in front of white space [ws] and a character
    [a] that is none: it stops with [a] unread. *)
Lemma skip_ws_while_stops (ws : list ascii) :
  forall (fuel : nat) (c : Z) (a : ascii) (rest : list ascii) (e r cl : bool) (l : Z)
         (err : list message) (arr : list (Z * Object))
         (so : nat -> Object) (sd : nat -> float) (d : nat),
    Forall (fun x => isspace (code x) = true) ws ->
    isspace (code a) = false ->
    isspace c = true ->
    (List.length ws < fuel)%nat ->
    exists l',
      skip_ws_while fuel c (mkWorld (mkFILE (ws ++ a :: rest) e r cl) l err arr so sd d)
      = Done tt (mkWorld (mkFILE (a :: rest) false r cl) l' err arr so sd d).
Proof.
  induction ws as [ | x ws IH]; intros fuel c a rest e r cl l err arr so sd d Hws Ha Hc Hfuel.
  - destruct fuel as [ | fuel]; [simpl in Hfuel; lia | ].
    simpl. rewrite Hc. unfold bind. rewrite next_c_reads.
    eexists. destruct fuel; simpl; rewrite Ha; unfold ungetc; simpl;
      rewrite (code_is_not_EOF a), (ascii_of_code_code a); reflexivity.
  - destruct fuel as [ | fuel]; [simpl in Hfuel; lia | ].
    inversion Hws as [ | ? ? Hx Hws']; subst.
    simpl. rewrite Hc. unfold bind. rewrite next_c_reads.
    apply IH; [assumption | assumption | assumption | simpl in Hfuel; lia].
Qed.

(** [skip_ws] in front of white space and a character that is none. *)
Lemma skip_ws_stops (ws : list ascii) (a : ascii) (rest : list ascii) (e r cl : bool)
  (l : Z) (err : list message) (arr : list (Z * Object))
  (so : nat -> Object) (sd : nat -> float) (d : nat) :
  Forall (fun x => isspace (code x) = true) ws ->
  isspace (code a) = false ->
  exists l',
    skip_ws (mkWorld (mkFILE (ws ++ a :: rest) e r cl) l err arr so sd d)
    = Done tt (mkWorld (mkFILE (a :: rest) false r cl) l' err arr so sd d).
Proof.
  intros Hws Ha. unfold skip_ws. cbv beta. cbn [json unread]. unfold bind.
  destruct ws as [ | x ws].
  - cbn [app]. rewrite next_c_reads.
    eexists. destruct (List.length (a :: rest)); simpl; rewrite Ha; unfold ungetc; simpl;
      rewrite (code_is_not_EOF a), (ascii_of_code_code a); reflexivity.
  - inversion Hws as [ | ? ? Hx Hws']; subst.
    rewrite <- app_comm_cons. rewrite next_c_reads.
    apply skip_ws_while_stops; [assumption | assumption | assumption | ].
    cbn [List.length]. rewrite length_app. lia.
Qed.

(** [expect_c] with the expected character to read. *)
Lemma expect_c_reads (a : ascii) (rest : list ascii) (e r cl : bool) (l : Z)
  (err : list message) (arr : list (Z * Object))
  (so : nat -> Object) (sd : nat -> float) (d : nat) :
  isspace (code a) = false ->
  expect_c (ch a) (mkWorld (mkFILE (a :: rest) e r cl) l err arr so sd d)
  = Done tt (mkWorld (mkFILE rest e r cl) l err arr so sd d).
Proof.
  intro Ha. unfold expect_c, bind. rewrite next_c_reads.
  unfold ch. rewrite Z.eqb_refl.
  destruct (code a =? code newline) eqn:N; [ | reflexivity].
  apply Z.eqb_eq in N. rewrite N in Ha. discriminate Ha.
Qed.

End Helpers.

Section EmptyArray.

(** The run on a text that opens the array and closes it at once, as a
    whole: the stream is closed with what follows the bracket unread. *)
Lemma run_on_empty_array
  (before inside after : list ascii) (fuel : nat)
  (uninit_Object : nat -> Object) (uninit_double : nat -> float) :
  Forall (fun x => isspace (code x) = true) before ->
  Forall (fun x => isspace (code x) = true) inside ->
  exists l : Z,
    run fuel (before ++ "["%char :: inside ++ "]"%char :: after)
      uninit_Object uninit_double
    = Exit 1 (mkWorld (mkFILE after false false true) l [WorstSceneFileEver] []
                uninit_Object uninit_double 0).
Proof.
  intros Hbefore Hinside.
  unfold run, read_scene, initial_world, fopen. unfold bind at 1.
  cbv beta iota. unfold set_json.
  cbn [negb json line stderr objectArray stack_Object stack_double decls].
  destruct (skip_ws_stops before "["%char (inside ++ "]"%char :: after)
              false false false 1 [] [] uninit_Object uninit_double 0 Hbefore eq_refl)
    as [l1 E1].
  unfold bind at 1. rewrite E1.
  unfold bind at 1. rewrite (expect_c_reads "["%char _ _ _ _ _ _ _ _ _ _ eq_refl).
  destruct (skip_ws_stops inside "]"%char after
              false false false l1 [] [] uninit_Object uninit_double 0 Hinside eq_refl)
    as [l2 E2].
  unfold bind at 1. rewrite E2.
  unfold bind at 1. unfold fgetc at 1. cbn [json unread eof_ind err_ind closed].
  exists l2. reflexivity.
Qed.

(** C9.  A text whose first character that is not white space is an
    opening bracket, and whose next one after it is the closing bracket:
    the empty array, with any white space around and inside and whatever
    follows.  [read_scene] writes the message of line 205 and ends the
    process with status 1; it hands no array back and has stored no
    object.  The specification calls this failure EmptySceneRejected. *)
Theorem empty_array_is_rejected
  (before inside after : list ascii) (fuel : nat)
  (uninit_Object : nat -> Object) (uninit_double : nat -> float) :
  Forall (fun x => isspace (code x) = true) before ->
  Forall (fun x => isspace (code x) = true) inside ->
  let o := run fuel (before ++ "["%char :: inside ++ "]"%char :: after)
             uninit_Object uninit_double in
  exit_status o = Some 1
  /\ written o = [WorstSceneFileEver]
  /\ failure o = Some Spec.EmptySceneRejected
  /\ returned o = None
  /\ stored o = [].
Proof.
  intros Hbefore Hinside o. subst o.
  destruct (run_on_empty_array before inside after fuel uninit_Object uninit_double
              Hbefore Hinside) as [l E].
  rewrite E. repeat split; reflexivity.
Qed.

(** The text of two characters, and one with blanks and line ends. *)
Lemma empty_array_is_rejected_witness :
  (let o := run 0 (scene_text "[]") (fun _ => blank_Object) (fun _ => 0%float) in
   exit_status o = Some 1
   /\ written o = [WorstSceneFileEver]
   /\ failure o = Some Spec.EmptySceneRejected
   /\ returned o = None
   /\ stored o = [])
  /\ (let o := run 7 (" "%char :: newline :: scene_text "[  ]" ++ [newline])
                 (fun _ => blank_Object) (fun _ => 0%float) in
      exit_status o = Some 1
      /\ written o = [WorstSceneFileEver]
      /\ failure o = Some Spec.EmptySceneRejected
      /\ returned o = None
      /\ stored o = []).
Proof.
  split.
  - apply (empty_array_is_rejected [] [] [] 0 (fun _ => blank_Object) (fun _ => 0%float));
      constructor.
  - apply (empty_array_is_rejected [" "%char; newline] [" "%char; " "%char] [newline] 7
             (fun _ => blank_Object) (fun _ => 0%float));
      repeat constructor.
Defined.

End EmptyArray.


Section NextNumber.

(** What [next_number] does after the call of [fscanf], lines 138-147. *)
Lemma next_number_after_scan (w : world) :
  exists (scanned : option float) (w2 : world),
    Scanf.fscanf_lf (set_decls (S (decls w)) w) = Done scanned w2
    /\ next_number w
       = if eof_ind (json w2)
         then Exit 1 (set_stderr (stderr w2 ++ [UnexpectedEndOfFile]) w2)
         else if err_ind (json w2)
              then Exit 1 (set_stderr (stderr w2 ++ [ErrorReadingFile]) w2)
              else Done (match scanned with
                         | Some x => x
                         | None => stack_double w (decls w)
                         end) w2.
Proof.
  unfold next_number, bind, declare_double.
  destruct (Scanf.fscanf_lf (set_decls (S (decls w)) w)) as [scanned w2 | | | ] eqn:E.
  - exists scanned, w2. split; [reflexivity | ].
    unfold feof, ferror.
    destruct (eof_ind (json w2)); [reflexivity | ].
    destruct (err_ind (json w2)); reflexivity.
  - exfalso. unfold Scanf.fscanf_lf in E.
    destruct (Scanf.drop_space _); [discriminate | ].
    destruct (Scanf.take_item _ _ _) as [[[? ?] ?] ?]. discriminate.
  - exfalso. unfold Scanf.fscanf_lf in E.
    destruct (Scanf.drop_space _); [discriminate | ].
    destruct (Scanf.take_item _ _ _) as [[[? ?] ?] ?]. discriminate.
  - exfalso. unfold Scanf.fscanf_lf in E.
    destruct (Scanf.drop_space _); [discriminate | ].
    destruct (Scanf.take_item _ _ _) as [[[? ?] ?] ?]. discriminate.
Qed.



End NextNumber.

Section ColorRange.

Lemma channel_inside_not_outside (c : float) :
  channel_inside c = true -> channel_outside c = false.
Proof.
  unfold channel_inside, channel_outside. intro H.
  apply andb_true_iff in H. destruct H as [Low High].
  rewrite (leb_not_ltb _ _ Low), (leb_not_ltb _ _ High). reflexivity.
Qed.

(** The test of the colour branches, channel by channel. *)
Lemma color_out_of_range_channels (keyValue : vec3) :
  color_out_of_range keyValue
  = channel_outside (v0 keyValue) || channel_outside (v1 keyValue)
    || channel_outside (v2 keyValue).
Proof.
  unfold color_out_of_range, channel_outside.
  destruct (v0 keyValue <? 0)%float, (255 <? v0 keyValue)%float,
    (v1 keyValue <? 0)%float, (255 <? v1 keyValue)%float,
    (v2 keyValue <? 0)%float, (255 <? v2 keyValue)%float; reflexivity.
Qed.

Lemma failure_after_message (A : Type) (m : message) (w : world) :
  failure (@Exit A 1 (set_stderr (stderr w ++ [m]) w)) = Some (classify m).
Proof.
  unfold failure, set_stderr. cbn [stderr]. rewrite rev_unit. reflexivity.
Qed.



(** Whole scene texts: a sphere, a plane and a light with a channel of 256
    or -1 end the process with the colour reported invalid; a sphere with
    the channels 0, 255, 0 is stored with them. *)
Lemma color_channels_in_scenes :
  (forall (extra : nat) (uninit_Object : nat -> Object) (uninit_double : nat -> float),
     let o := run (130 + extra) sphere_channel_256_text uninit_Object uninit_double in
     exit_status o = Some 1 /\ written o = [SphereColorInvalid]
     /\ failure o = Some Spec.ValueOutOfRange)
  /\ (forall (extra : nat) (uninit_Object : nat -> Object) (uninit_double : nat -> float),
        let o := run (130 + extra) plane_channel_minus_1_text uninit_Object uninit_double in
        exit_status o = Some 1 /\ written o = [LightColorInvalid]
        /\ failure o = Some Spec.ValueOutOfRange)
  /\ (forall (extra : nat) (uninit_Object : nat -> Object) (uninit_double : nat -> float),
        let o := run (130 + extra) light_channel_256_text uninit_Object uninit_double in
        exit_status o = Some 1 /\ written o = [PlaneColorInvalid]
        /\ failure o = Some Spec.ValueOutOfRange)
  /\ (forall (extra : nat) (uninit_Object : nat -> Object) (uninit_double : nat -> float),
        let o := run (130 + extra) sphere_channels_0_255_text uninit_Object uninit_double in
        exit_status o = Some 0 /\ written o = []
        /\ map (fun s => color (snd s)) (stored o) = [mkVec 0 255 0]).
Proof.
  split; [ | split; [ | split]]; intros extra uninit_Object uninit_double o; subst o;
    (rewrite (run_fuel 130) by (first [lia | vm_compute; discriminate]));
    vm_compute; repeat split; reflexivity.
Qed.

End ColorRange.

(* ================================================================== *)
(** * Part XI: the budgets are enough                                   *)
(* ================================================================== *)

Section Budgets.
Local Open Scope prog_scope.

(** Bookkeeping on computations that do not lengthen the unread text. *)
Lemma shrinks_ret {A : Type} (a : A) (w : world) : shrinks_at (ret a) w.
Proof.
  split; [discriminate | ]. intros a' w' H. injection H as _ <-. apply Nat.le_refl.
Qed.

Lemma shrinks_exit {A : Type} (status : Z) (w : world) : shrinks_at (@exit A status) w.
Proof. split; discriminate. Qed.

Lemma advances_shrinks {A : Type} (m : M A) (w : world) :
  advances_at m w -> shrinks_at m w.
Proof.
  intros [Hne Hd]. split; [exact Hne | ]. intros a w' H. apply Nat.lt_le_incl. eauto.
Qed.

Lemma shrinks_bind {A B : Type} (m : M A) (k : A -> M B) (w : world) :
  shrinks_at m w ->
  (forall a w1, m w = Done a w1 -> shrinks_at (k a) w1) ->
  shrinks_at (bind m k) w.
Proof.
  intros [Hne Hd] Hk. unfold shrinks_at, bind.
  destruct (m w) as [a w1 | s w1 | w1 | ] eqn:E.
  - destruct (Hk a w1 eq_refl) as [Hne' Hd']. split; [exact Hne' | ].
    intros b w' H. specialize (Hd a w1 eq_refl). specialize (Hd' b w' H). lia.
  - split; discriminate.
  - split; discriminate.
  - exfalso. apply Hne. reflexivity.
Qed.

Lemma advances_bind_first {A B : Type} (m : M A) (k : A -> M B) (w : world) :
  advances_at m w ->
  (forall a w1, m w = Done a w1 -> shrinks_at (k a) w1) ->
  advances_at (bind m k) w.
Proof.
  intros [Hne Hd] Hk. unfold advances_at, bind.
  destruct (m w) as [a w1 | s w1 | w1 | ] eqn:E.
  - destruct (Hk a w1 eq_refl) as [Hne' Hd']. split; [exact Hne' | ].
    intros b w' H. specialize (Hd a w1 eq_refl). specialize (Hd' b w' H). lia.
  - split; discriminate.
  - split; discriminate.
  - exfalso. apply Hne. reflexivity.
Qed.

(** The operations that leave the stream alone. *)
Lemma shrinks_fprintf (m : message) (w : world) : shrinks_at (fprintf m) w.
Proof.
  split; [discriminate | ]. intros a w' H. injection H as _ <-. apply Nat.le_refl.
Qed.

Lemma shrinks_get_line (w : world) : shrinks_at get_line w.
Proof.
  split; [discriminate | ]. intros a w' H. injection H as _ <-. apply Nat.le_refl.
Qed.

Lemma shrinks_declare_Object (w : world) : shrinks_at declare_Object w.
Proof.
  split; [discriminate | ]. intros a w' H. injection H as _ <-. apply Nat.le_refl.
Qed.

Lemma shrinks_declare_double (w : world) : shrinks_at declare_double w.
Proof.
  split; [discriminate | ]. intros a w' H. injection H as _ <-. apply Nat.le_refl.
Qed.

Lemma shrinks_feof (w : world) : shrinks_at feof w.
Proof.
  split; [discriminate | ]. intros a w' H. injection H as _ <-. apply Nat.le_refl.
Qed.

Lemma shrinks_ferror (w : world) : shrinks_at ferror w.
Proof.
  split; [discriminate | ]. intros a w' H. injection H as _ <-. apply Nat.le_refl.
Qed.

Lemma shrinks_store (i : Z) (o : Object) (w : world) : shrinks_at (store i o) w.
Proof.
  unfold shrinks_at, store. destruct ((0 <=? i) && (i <? 1000)).
  - split; [discriminate | ]. intros a w' H. injection H as _ <-. apply Nat.le_refl.
  - split; discriminate.
Qed.

(** An error report followed by [exit]. *)
Lemma shrinks_report {A : Type} (m : message) (w : world) :
  shrinks_at (fprintf m ;; @exit A 1) w.
Proof.
  apply shrinks_bind; [apply shrinks_fprintf | ]. intros. apply shrinks_exit.
Qed.

Lemma shrinks_report_line {A : Type} (m : Z -> message) (w : world) :
  shrinks_at (l <- get_line ;; fprintf (m l) ;; @exit A 1) w.
Proof.
  apply shrinks_bind; [apply shrinks_get_line | ]. intros. apply shrinks_report.
Qed.

(** The character level helpers. *)
Lemma advances_next_c (w : world) : advances_at next_c w.
Proof.
  unfold advances_at, next_c, bind, fgetc, remaining.
  destruct (unread (json w)) as [ | a rest] eqn:U; cbn [EOF].
  - change (-1 =? ch newline) with false. cbn [ret]. change (-1 =? -1) with true.
    unfold get_line, fprintf, exit. split; discriminate.
  - destruct (code a =? ch newline); cbn [ret]; rewrite (code_is_not_EOF a);
      (split; [discriminate | ]); intros c w' H; injection H as _ <-;
      unfold set_line, set_json; cbn [json unread List.length]; lia.
Qed.

Lemma advances_expect_c (d : Z) (w : world) : advances_at (expect_c d) w.
Proof.
  unfold expect_c. apply advances_bind_first; [apply advances_next_c | ].
  intros c w1 _. destruct (c =? d); [apply shrinks_ret | apply shrinks_report_line].
Qed.

Lemma skip_ws_while_bound (fuel : nat) :
  forall (c : Z) (w : world),
    (remaining w < fuel)%nat ->
    skip_ws_while fuel c w <> OutOfFuel
    /\ (forall a w', skip_ws_while fuel c w = Done a w' ->
          (remaining w' <= remaining w + 1)%nat).
Proof.
  induction fuel as [ | fuel IH]; intros c w Hfuel; [lia | ].
  cbn [skip_ws_while]. destruct (isspace c).
  - destruct (advances_next_c w) as [Hne Hd]. unfold bind.
    destruct (next_c w) as [c' w1 | s w1 | w1 | ] eqn:E.
    + specialize (Hd c' w1 eq_refl).
      destruct (IH c' w1 ltac:(lia)) as [Hne' Hd']. split; [exact Hne' | ].
      intros a w' H. specialize (Hd' a w' H). lia.
    + split; discriminate.
    + split; discriminate.
    + exfalso. apply Hne. reflexivity.
  - unfold ungetc. destruct (c =? EOF).
    + split; [discriminate | ]. intros a w' H. injection H as _ <-. lia.
    + split; [discriminate | ]. intros a w' H. injection H as _ <-.
      unfold remaining, set_json. cbn [json unread List.length]. lia.
Qed.

Lemma shrinks_skip_ws (w : world) : shrinks_at skip_ws w.
Proof.
  unfold shrinks_at, skip_ws, bind.
  destruct (advances_next_c w) as [Hne Hd].
  destruct (next_c w) as [c w1 | s w1 | w1 | ] eqn:E.
  - specialize (Hd c w1 eq_refl).
    destruct (skip_ws_while_bound (List.length (unread (json w))) c w1 Hd) as [Hne' Hd'].
    split; [exact Hne' | ]. intros a w' H. specialize (Hd' a w' H).
    unfold remaining in *. lia.
  - split; discriminate.
  - split; discriminate.
  - exfalso. apply Hne. reflexivity.
Qed.

Lemma next_string_while_bound (fuel : nat) :
  forall (buffer : list ascii) (i c : Z) (w : world),
    (remaining w < fuel)%nat ->
    shrinks_at (next_string_while fuel buffer i c) w.
Proof.
  induction fuel as [ | fuel IH]; intros buffer i c w Hfuel; [lia | ].
  cbn [next_string_while]. destruct (negb (c =? ch dquote)); [ | apply shrinks_ret].
  destruct (128 <=? i); [apply shrinks_report | ].
  destruct (c =? ch backslash); [apply shrinks_report | ].
  destruct ((c <? 32) || (126 <? c)); [apply shrinks_report | ].
  apply advances_shrinks. apply advances_bind_first; [apply advances_next_c | ].
  intros c' w1 E. apply IH.
  destruct (advances_next_c w) as [_ Hd]. specialize (Hd c' w1 E). lia.
Qed.

Lemma advances_next_string (w : world) : advances_at next_string w.
Proof.
  unfold next_string. cbv beta.
  apply advances_bind_first; [apply advances_next_c | ].
  intros c w1 E1. destruct (negb (c =? ch dquote)); [apply shrinks_report_line | ].
  apply advances_shrinks. apply advances_bind_first; [apply advances_next_c | ].
  intros c' w2 E2. apply next_string_while_bound.
  destruct (advances_next_c w) as [_ Hd1]. specialize (Hd1 c w1 E1).
  destruct (advances_next_c w1) as [_ Hd2]. specialize (Hd2 c' w2 E2).
  unfold remaining in *. lia.
Qed.

Lemma drop_space_length (s : list ascii) :
  (List.length (Scanf.drop_space s) <= List.length s)%nat.
Proof.
  induction s as [ | a s IH]; cbn [Scanf.drop_space List.length]; [lia | ].
  destruct (isspace (code a)); cbn [List.length]; lia.
Qed.

Lemma take_item_length (s : list ascii) :
  forall (p p' : Scanf.phase) (l l' : Scanf.literal) (rest : list ascii) (h : bool),
    Scanf.take_item p l s = (p', l', rest, h) ->
    (List.length rest <= List.length s)%nat.
Proof.
  induction s as [ | a s IH]; intros p p' l l' rest h; cbn [Scanf.take_item].
  - intro H. injection H as _ _ <- _. apply Nat.le_refl.
  - destruct (Scanf.step p l a) as [[p1 l1] | ].
    + intro H. specialize (IH _ _ _ _ _ _ H). cbn [List.length]. lia.
    + intro H. injection H as _ _ <- _. apply Nat.le_refl.
Qed.

Lemma shrinks_fscanf_lf (w : world) : shrinks_at Scanf.fscanf_lf w.
Proof.
  unfold shrinks_at, Scanf.fscanf_lf, remaining.
  pose proof (drop_space_length (unread (json w))) as D.
  destruct (Scanf.drop_space (unread (json w))) as [ | a s] eqn:E.
  - split; [discriminate | ]. intros x w' H. injection H as _ <-.
    unfold set_json. cbn [json unread List.length]. lia.
  - destruct (Scanf.take_item Scanf.AtStart Scanf.empty_literal (a :: s))
      as [[[p l] rest] h] eqn:T.
    pose proof (take_item_length _ _ _ _ _ _ _ T) as L.
    split; [discriminate | ]. intros x w' H. injection H as _ <-.
    unfold set_json. cbn [json unread]. lia.
Qed.

Lemma shrinks_next_number (w : world) : shrinks_at next_number w.
Proof.
  unfold next_number.
  apply shrinks_bind; [apply shrinks_declare_double | ]. intros value w1 _.
  apply shrinks_bind; [apply shrinks_fscanf_lf | ]. intros scanned w2 _.
  apply shrinks_bind; [apply shrinks_feof | ]. intros at_end w3 _.
  destruct at_end; [apply shrinks_report | ].
  apply shrinks_bind; [apply shrinks_ferror | ]. intros failed w4 _.
  destruct failed; [apply shrinks_report | apply shrinks_ret].
Qed.

Lemma advances_next_vector (w : world) : advances_at next_vector w.
Proof.
  unfold next_vector.
  apply advances_bind_first; [apply advances_expect_c | ]. intros.
  apply shrinks_bind; [apply shrinks_skip_ws | ]. intros.
  apply shrinks_bind; [apply shrinks_next_number | ]. intros.
  apply shrinks_bind; [apply shrinks_skip_ws | ]. intros.
  apply shrinks_bind; [apply advances_shrinks, advances_expect_c | ]. intros.
  apply shrinks_bind; [apply shrinks_skip_ws | ]. intros.
  apply shrinks_bind; [apply shrinks_next_number | ]. intros.
  apply shrinks_bind; [apply shrinks_skip_ws | ]. intros.
  apply shrinks_bind; [apply advances_shrinks, advances_expect_c | ]. intros.
  apply shrinks_bind; [apply shrinks_skip_ws | ]. intros.
  apply shrinks_bind; [apply shrinks_next_number | ]. intros.
  apply shrinks_bind; [apply shrinks_skip_ws | ]. intros.
  apply shrinks_bind; [apply advances_shrinks, advances_expect_c | ]. intros.
  apply shrinks_ret.
Qed.

Lemma shrinks_read_key (w : world) : shrinks_at read_key w.
Proof.
  unfold read_key.
  apply shrinks_bind; [apply shrinks_skip_ws | ]. intros.
  apply shrinks_bind; [apply advances_shrinks, advances_next_string | ]. intros.
  apply shrinks_bind; [apply shrinks_skip_ws | ]. intros.
  apply shrinks_bind; [apply advances_shrinks, advances_expect_c | ]. intros.
  apply shrinks_bind; [apply shrinks_skip_ws | ]. intros.
  apply shrinks_ret.
Qed.

(** The chains on the key. *)
Ltac field_shrinks :=
  repeat first
    [ apply shrinks_ret
    | apply shrinks_report
    | apply shrinks_report_line
    | apply shrinks_bind;
        [ first [ apply shrinks_next_number
                | apply advances_shrinks, advances_next_vector
                | apply shrinks_get_line
                | apply shrinks_fprintf ]
        | intros ]
    | match goal with
      | |- shrinks_at (if ?b then _ else _) _ => destruct b
      end ].

Lemma shrinks_camera_field (key : string) (cam : Object) (w : world) :
  shrinks_at (camera_field key cam) w.
Proof. unfold camera_field. field_shrinks. Qed.

Lemma shrinks_sphere_field (key : string) (o : Object) (w : world) :
  shrinks_at (sphere_field key o) w.
Proof. unfold sphere_field. field_shrinks. Qed.

Lemma shrinks_plane_field (key : string) (o : Object) (w : world) :
  shrinks_at (plane_field key o) w.
Proof. unfold plane_field. field_shrinks. Qed.

Lemma shrinks_light_field (key : string) (o : Object) (w : world) :
  shrinks_at (light_field key o) w.
Proof. unfold light_field. field_shrinks. Qed.

(** The loops of the four branches: a budget above the number of unread
    characters is enough, and a loop that ends has read something. *)
Lemma camera_while_enough (fuel : nat) :
  forall (key : string) (cam : Object) (w : world),
    (remaining w < fuel)%nat -> advances_at (camera_while fuel key cam) w.
Proof.
  induction fuel as [ | fuel IH]; intros key cam w Hfuel; [lia | ].
  cbn [camera_while].
  apply advances_bind_first; [apply advances_next_c | ]. intros c w1 E1.
  destruct (advances_next_c w) as [_ Hd]. specialize (Hd c w1 E1).
  destruct (c =? ch "}"); [apply shrinks_ret | ].
  destruct (c =? ch ","); [ | apply shrinks_report_line].
  apply shrinks_bind; [apply shrinks_read_key | ]. intros key' w2 E2.
  destruct (shrinks_read_key w1) as [_ Hd2]. specialize (Hd2 key' w2 E2).
  apply shrinks_bind; [apply shrinks_camera_field | ]. intros cam' w3 E3.
  destruct (shrinks_camera_field key' cam w2) as [_ Hd3]. specialize (Hd3 cam' w3 E3).
  apply shrinks_bind; [apply shrinks_skip_ws | ]. intros [] w4 E4.
  destruct (shrinks_skip_ws w3) as [_ Hd4]. specialize (Hd4 tt w4 E4).
  apply advances_shrinks. apply IH. lia.
Qed.

Lemma sphere_while_enough (fuel : nat) :
  forall (aSphere : Object) (w : world),
    (remaining w < fuel)%nat -> advances_at (sphere_while fuel aSphere) w.
Proof.
  induction fuel as [ | fuel IH]; intros aSphere w Hfuel; [lia | ].
  cbn [sphere_while].
  apply advances_bind_first; [apply advances_next_c | ]. intros c w1 E1.
  destruct (advances_next_c w) as [_ Hd]. specialize (Hd c w1 E1).
  destruct (c =? ch "}"); [apply shrinks_ret | ].
  destruct (c =? ch ","); [ | apply advances_shrinks; apply IH; lia].
  apply shrinks_bind; [apply shrinks_read_key | ]. intros key w2 E2.
  destruct (shrinks_read_key w1) as [_ Hd2]. specialize (Hd2 key w2 E2).
  apply shrinks_bind; [apply shrinks_sphere_field | ]. intros o w3 E3.
  destruct (shrinks_sphere_field key aSphere w2) as [_ Hd3]. specialize (Hd3 o w3 E3).
  apply shrinks_bind; [apply shrinks_skip_ws | ]. intros [] w4 E4.
  destruct (shrinks_skip_ws w3) as [_ Hd4]. specialize (Hd4 tt w4 E4).
  apply advances_shrinks. apply IH. lia.
Qed.

Lemma plane_while_enough (fuel : nat) :
  forall (aPlane : Object) (w : world),
    (remaining w < fuel)%nat -> advances_at (plane_while fuel aPlane) w.
Proof.
  induction fuel as [ | fuel IH]; intros aPlane w Hfuel; [lia | ].
  cbn [plane_while].
  apply advances_bind_first; [apply advances_next_c | ]. intros c w1 E1.
  destruct (advances_next_c w) as [_ Hd]. specialize (Hd c w1 E1).
  destruct (c =? ch "}"); [apply shrinks_ret | ].
  destruct (c =? ch ","); [ | apply advances_shrinks; apply IH; lia].
  apply shrinks_bind; [apply shrinks_read_key | ]. intros key w2 E2.
  destruct (shrinks_read_key w1) as [_ Hd2]. specialize (Hd2 key w2 E2).
  apply shrinks_bind; [apply shrinks_plane_field | ]. intros o w3 E3.
  destruct (shrinks_plane_field key aPlane w2) as [_ Hd3]. specialize (Hd3 o w3 E3).
  apply shrinks_bind; [apply shrinks_skip_ws | ]. intros [] w4 E4.
  destruct (shrinks_skip_ws w3) as [_ Hd4]. specialize (Hd4 tt w4 E4).
  apply advances_shrinks. apply IH. lia.
Qed.

Lemma light_while_enough (fuel : nat) :
  forall (aPlane : Object) (w : world),
    (remaining w < fuel)%nat -> advances_at (light_while fuel aPlane) w.
Proof.
  induction fuel as [ | fuel IH]; intros aPlane w Hfuel; [lia | ].
  cbn [light_while].
  apply advances_bind_first; [apply advances_next_c | ]. intros c w1 E1.
  destruct (advances_next_c w) as [_ Hd]. specialize (Hd c w1 E1).
  destruct (c =? ch "}"); [apply shrinks_ret | ].
  destruct (c =? ch ","); [ | apply advances_shrinks; apply IH; lia].
  apply shrinks_bind; [apply shrinks_read_key | ]. intros key w2 E2.
  destruct (shrinks_read_key w1) as [_ Hd2]. specialize (Hd2 key w2 E2).
  apply shrinks_bind; [apply shrinks_light_field | ]. intros o w3 E3.
  destruct (shrinks_light_field key aPlane w2) as [_ Hd3]. specialize (Hd3 o w3 E3).
  apply shrinks_bind; [apply shrinks_skip_ws | ]. intros [] w4 E4.
  destruct (shrinks_skip_ws w3) as [_ Hd4]. specialize (Hd4 tt w4 E4).
  apply advances_shrinks. apply IH. lia.
Qed.

(** One object. *)
Lemma read_object_enough (fuel : nat) (cam : Object) (i : Z) (w : world) :
  (remaining w < fuel)%nat -> shrinks_at (read_object fuel cam i) w.
Proof.
  intro Hfuel. unfold read_object.
  apply shrinks_bind; [apply shrinks_skip_ws | ]. intros [] w1 E1.
  destruct (shrinks_skip_ws w) as [_ Hd1]. specialize (Hd1 tt w1 E1).
  apply shrinks_bind; [apply advances_shrinks, advances_next_string | ]. intros key w2 E2.
  destruct (advances_next_string w1) as [_ Hd2]. specialize (Hd2 key w2 E2).
  destruct (negb (same_string key "type")); [apply shrinks_report_line | ].
  apply shrinks_bind; [apply shrinks_skip_ws | ]. intros [] w3 E3.
  destruct (shrinks_skip_ws w2) as [_ Hd3]. specialize (Hd3 tt w3 E3).
  apply shrinks_bind; [apply advances_shrinks, advances_expect_c | ]. intros [] w4 E4.
  destruct (advances_expect_c (ch ":") w3) as [_ Hd4]. specialize (Hd4 tt w4 E4).
  apply shrinks_bind; [apply shrinks_skip_ws | ]. intros [] w5 E5.
  destruct (shrinks_skip_ws w4) as [_ Hd5]. specialize (Hd5 tt w5 E5).
  apply shrinks_bind; [apply advances_shrinks, advances_next_string | ]. intros value w6 E6.
  destruct (advances_next_string w5) as [_ Hd6]. specialize (Hd6 value w6 E6).
  assert (Hfuel6 : (remaining w6 < fuel)%nat) by lia.
  apply shrinks_bind.
  - destruct (same_string value "camera").
    { unfold camera_branch.
      apply shrinks_bind; [apply advances_shrinks, camera_while_enough; exact Hfuel6 | ].
      intros cam' w7 _.
      destruct (negb (camera_heightGiven cam') || negb (camera_widthGiven cam'));
        [apply shrinks_report | ].
      apply shrinks_bind; [apply shrinks_store | ]. intros. apply shrinks_ret. }
    destruct (same_string value "sphere").
    { apply shrinks_bind; [ | intros; apply shrinks_ret]. unfold sphere_branch.
      apply shrinks_bind; [apply shrinks_declare_Object | ]. intros o w7 E7.
      destruct (shrinks_declare_Object w6) as [_ Hd7]. specialize (Hd7 o w7 E7).
      apply shrinks_bind;
        [apply advances_shrinks, sphere_while_enough; lia | ].
      intros aSphere w8 _.
      destruct (negb (positionGiven aSphere) || negb (colorGiven aSphere)
                || negb (sphere_radiusGiven aSphere));
        [apply shrinks_report | apply shrinks_store]. }
    destruct (same_string value "plane").
    { apply shrinks_bind; [ | intros; apply shrinks_ret]. unfold plane_branch.
      apply shrinks_bind; [apply shrinks_declare_Object | ]. intros o w7 E7.
      destruct (shrinks_declare_Object w6) as [_ Hd7]. specialize (Hd7 o w7 E7).
      apply shrinks_bind;
        [apply advances_shrinks, plane_while_enough; lia | ].
      intros aPlane w8 _.
      destruct (negb (positionGiven aPlane) || negb (colorGiven aPlane)
                || negb (plane_normalGiven aPlane));
        [apply shrinks_report | apply shrinks_store]. }
    destruct (same_string value "light").
    { apply shrinks_bind; [ | intros; apply shrinks_ret]. unfold light_branch.
      apply shrinks_bind; [apply shrinks_declare_Object | ]. intros o w7 E7.
      destruct (shrinks_declare_Object w6) as [_ Hd7]. specialize (Hd7 o w7 E7).
      apply shrinks_bind;
        [apply advances_shrinks, light_while_enough; lia | ].
      intros. apply shrinks_ret. }
    apply shrinks_report_line.
  - intros cam' w7 _.
    apply shrinks_bind; [apply shrinks_skip_ws | ]. intros. apply shrinks_ret.
Qed.

(** At the end of the text the loop of line 218 turns for ever: [fgetc]
    answers [EOF], which is neither bracket nor brace. *)
Lemma scene_while_turns_at_end (fuel : nat) :
  forall (cam : Object) (i : Z) (w : world),
    unread (json w) = [] -> scene_while fuel cam i w = OutOfFuel.
Proof.
  induction fuel as [ | fuel IH]; intros cam i w Hend; [reflexivity | ].
  cbn [scene_while]. unfold bind, fgetc. rewrite Hend.
  change (EOF =? ch "]") with false. change (EOF =? ch "{") with false.
  cbn [ret]. apply IH. reflexivity.
Qed.

(** A budget above the number of unread characters is enough for the
    loop of line 218 whenever any budget is: if it runs out, the loop
    does not end on any budget. *)
Lemma scene_while_enough (fuel : nat) :
  forall (cam : Object) (i : Z) (w : world),
    (remaining w < fuel)%nat ->
    scene_while fuel cam i w = OutOfFuel ->
    forall fuel', scene_while fuel' cam i w = OutOfFuel.
Proof.
  induction fuel as [ | fuel IH]; intros cam i w Hfuel Hout fuel'; [lia | ].
  destruct (unread (json w)) as [ | a rest] eqn:U.
  { apply scene_while_turns_at_end. exact U. }
  destruct fuel' as [ | fuel']; [reflexivity | ].
  cbn [scene_while] in *. unfold bind in *. unfold fgetc in *. rewrite U in *.
  set (w1 := set_json (mkFILE rest (eof_ind (json w)) (err_ind (json w))
                         (closed (json w))) w) in *.
  assert (R1 : (remaining w1 < fuel)%nat).
  { unfold remaining in *. rewrite U in Hfuel. subst w1. unfold set_json.
    cbn [json unread List.length] in *. lia. }
  destruct (code a =? ch "]"); [discriminate Hout | ].
  destruct (code a =? ch "{").
  - destruct (read_object_enough fuel cam i w1 R1) as [Hne Hd].
    destruct (read_object fuel cam i w1) as [cam' w2 | s w2 | w2 | ] eqn:E;
      try discriminate Hout.
    + specialize (Hd cam' w2 eq_refl).
      assert (Later : forall n, scene_while n cam' (wrap_int (i + 1)) w2 = OutOfFuel).
      { apply IH; [lia | exact Hout]. }
      destruct (read_object fuel' cam i w1) as [cam'' w2' | s w2' | w2' | ] eqn:E';
        try reflexivity.
      * destruct (Nat.le_ge_cases fuel fuel') as [Hle | Hge].
        -- rewrite (read_object_fuel i fuel fuel' cam w1 Hle) in E';
             [ | rewrite E; discriminate].
           rewrite E in E'. injection E' as <- <-. apply Later.
        -- rewrite <- (read_object_fuel i fuel' fuel cam w1 Hge) in E';
             [ | rewrite E'; discriminate].
           rewrite E in E'. injection E' as <- <-. apply Later.
      * exfalso.
        destruct (Nat.le_ge_cases fuel fuel') as [Hle | Hge].
        -- rewrite (read_object_fuel i fuel fuel' cam w1 Hle) in E';
             [ | rewrite E; discriminate].
           rewrite E in E'. discriminate E'.
        -- rewrite <- (read_object_fuel i fuel' fuel cam w1 Hge) in E';
             [ | rewrite E'; discriminate].
           rewrite E in E'. discriminate E'.
      * exfalso.
        destruct (Nat.le_ge_cases fuel fuel') as [Hle | Hge].
        -- rewrite (read_object_fuel i fuel fuel' cam w1 Hle) in E';
             [ | rewrite E; discriminate].
           rewrite E in E'. discriminate E'.
        -- rewrite <- (read_object_fuel i fuel' fuel cam w1 Hge) in E';
             [ | rewrite E'; discriminate].
           rewrite E in E'. discriminate E'.
    + exfalso. apply Hne. reflexivity.
  - cbn [ret] in *. apply IH; [exact R1 | exact Hout].
Qed.

(** The whole reader: with a budget above the length of the text,
    [read_scene] either ends, or goes on for ever whatever the budget. *)
Theorem run_ends_or_goes_on (text : list ascii) (fuel : nat)
  (uninit_Object : nat -> Object) (uninit_double : nat -> float) :
  (List.length text < fuel)%nat ->
  run fuel text uninit_Object uninit_double = OutOfFuel ->
  forall fuel', run fuel' text uninit_Object uninit_double = OutOfFuel.
Proof.
  intros Hfuel Hout fuel'. unfold run, read_scene in *.
  unfold bind at 1 in Hout. unfold bind at 1.
  unfold fopen in *. cbv beta iota in *. cbn [negb] in *.
  set (w0 := set_json (mkFILE text false false false)
               (initial_world uninit_Object uninit_double)) in *.
  assert (R0 : remaining w0 = List.length text) by reflexivity.
  unfold bind in *.
  destruct (shrinks_skip_ws w0) as [Hne1 Hd1].
  destruct (skip_ws w0) as [[] w1 | s w1 | w1 | ] eqn:E1; try discriminate Hout;
    [ | exfalso; apply Hne1; reflexivity].
  specialize (Hd1 tt w1 eq_refl).
  destruct (advances_expect_c (ch "[") w1) as [Hne2 Hd2].
  destruct (expect_c (ch "[") w1) as [[] w2 | s w2 | w2 | ] eqn:E2; try discriminate Hout;
    [ | exfalso; apply Hne2; reflexivity].
  specialize (Hd2 tt w2 eq_refl).
  destruct (shrinks_skip_ws w2) as [Hne3 Hd3].
  destruct (skip_ws w2) as [[] w3 | s w3 | w3 | ] eqn:E3; try discriminate Hout;
    [ | exfalso; apply Hne3; reflexivity].
  specialize (Hd3 tt w3 eq_refl).
  unfold fgetc in *.
  destruct (unread (json w3)) as [ | a rest] eqn:U.
  - change (EOF =? ch "]") with false in *. unfold declare_Object in *.
    apply scene_while_turns_at_end. reflexivity.
  - destruct (code a =? ch "]"); [discriminate Hout | ].
    unfold declare_Object in *.
    refine (scene_while_enough fuel _ _ _ _ Hout fuel').
    unfold remaining in *. unfold set_decls, set_json. cbn [json unread].
    rewrite U in Hd3. cbn [List.length] in Hd3. lia.
Qed.

(** A text that breaks off: the loop of line 218 passes over what there
    is of the first object and then turns at the end of the stream, on
    any budget. *)
Example broken_off_text_never_ends
  (fuel : nat) (uninit_Object : nat -> Object) (uninit_double : nat -> float) :
  run fuel broken_off_text uninit_Object uninit_double = OutOfFuel.
Proof.
  apply (run_ends_or_goes_on broken_off_text 20); [vm_compute; lia | ].
  vm_compute. reflexivity.
Qed.

End Budgets.

(* ================================================================== *)
(** * Part XII: divisions by zero in the vector routines               *)
(* ================================================================== *)

Section Degenerate.
Import Intersection.
Local Open Scope float_scope.

Lemma zero_double_spec (x : float) :
  is_zero x = true -> exists s, Prim2SF x = S754_zero s.
Proof.
  unfold is_zero. rewrite eqb_spec. change (Prim2SF zero) with (S754_zero false).
  destruct (Prim2SF x) as [s | s | | s m e]; try destruct s; try discriminate;
    intros _; eexists; reflexivity.
Qed.

Lemma zero_is_zero_or_nan (x : float) : is_zero x = true -> zero_or_nan x.
Proof.
  intro H. destruct (zero_double_spec x H) as [s E]. unfold zero_or_nan.
  rewrite E. exact I.
Qed.

Lemma zero_or_nan_mul_l (x y : float) : zero_or_nan x -> zero_or_nan (x * y).
Proof.
  unfold zero_or_nan. rewrite mul_spec. unfold SF64mul.
  destruct (Prim2SF x) as [sx | sx | | sx mx ex]; try contradiction; intros _;
    destruct (Prim2SF y) as [sy | sy | | sy my ey]; exact I.
Qed.

Lemma zero_or_nan_mul_r (x y : float) : zero_or_nan y -> zero_or_nan (x * y).
Proof.
  unfold zero_or_nan. rewrite mul_spec. unfold SF64mul.
  destruct (Prim2SF y) as [sy | sy | | sy my ey]; try contradiction; intros _;
    destruct (Prim2SF x) as [sx | sx | | sx mx ex]; exact I.
Qed.

Lemma zero_or_nan_add (x y : float) :
  zero_or_nan x -> zero_or_nan y -> zero_or_nan (x + y).
Proof.
  unfold zero_or_nan. rewrite add_spec. unfold SF64add.
  destruct (Prim2SF x) as [sx | sx | | sx mx ex]; try contradiction; intros _;
    destruct (Prim2SF y) as [sy | sy | | sy my ey]; try contradiction; intros _;
    try destruct sx; try destruct sy; exact I.
Qed.

Lemma zero_or_nan_sub (x y : float) :
  zero_or_nan x -> zero_or_nan y -> zero_or_nan (x - y).
Proof.
  unfold zero_or_nan. rewrite sub_spec. unfold SF64sub.
  destruct (Prim2SF x) as [sx | sx | | sx mx ex]; try contradiction; intros _;
    destruct (Prim2SF y) as [sy | sy | | sy my ey]; try contradiction; intros _;
    try destruct sx; try destruct sy; exact I.
Qed.

Lemma zero_or_nan_opp (x : float) : zero_or_nan x -> zero_or_nan (- x).
Proof.
  unfold zero_or_nan. rewrite opp_spec.
  destruct (Prim2SF x) as [sx | sx | | sx mx ex]; try contradiction; intros _; exact I.
Qed.

Lemma zero_or_nan_sqrt (x : float) : zero_or_nan x -> zero_or_nan (sqrt x).
Proof.
  unfold zero_or_nan. rewrite sqrt_spec. unfold SF64sqrt.
  destruct (Prim2SF x) as [sx | sx | | sx mx ex]; try contradiction; intros _; exact I.
Qed.

(** Zero or NaN over zero or NaN is NaN. *)
Lemma zero_or_nan_div (x y : float) :
  zero_or_nan x -> zero_or_nan y -> Prim2SF (x / y) = S754_nan.
Proof.
  unfold zero_or_nan. rewrite div_spec. unfold SF64div.
  destruct (Prim2SF x) as [sx | sx | | sx mx ex]; try contradiction; intros _;
    destruct (Prim2SF y) as [sy | sy | | sy my ey]; try contradiction; intros _;
    reflexivity.
Qed.

Lemma nan_is_not_above (x y : float) : Prim2SF y = S754_nan -> (x <? y) = false.
Proof.
  intro H. rewrite ltb_spec, H. unfold SFltb.
  destruct (Prim2SF x) as [sx | sx | | sx mx ex]; reflexivity.
Qed.

(** Anything over a zero is NaN or an infinity. *)
Lemma division_by_zero (x y : float) :
  is_zero y = true ->
  Prim2SF (x / y) = S754_nan \/ exists s, Prim2SF (x / y) = S754_infinity s.
Proof.
  intro H. destruct (zero_double_spec y H) as [sy E].
  rewrite div_spec, E. unfold SF64div.
  destruct (Prim2SF x) as [sx | sx | | sx mx ex].
  - left. reflexivity.
  - right. eexists. reflexivity.
  - left. reflexivity.
  - right. eexists. reflexivity.
Qed.

Lemma nan_or_infinity_is_not_finite (x : float) :
  Prim2SF x = S754_nan \/ (exists s, Prim2SF x = S754_infinity s) ->
  is_finite x = false.
Proof.
  unfold is_finite, is_nan, is_infinity. rewrite !eqb_spec, abs_spec.
  change (Prim2SF infinity) with (S754_infinity false).
  intros [E | [s E]]; rewrite E; [reflexivity | ].
  destruct s; reflexivity.
Qed.

(** X1.  A ray that runs parallel to the plane: [dot(normal, direction)]
    computes to zero.  [plane_intersection] then divides by zero; what it
    hands back is the "no intersection" value, an infinity or NaN, never
    a finite distance. *)
Theorem plane_intersection_parallel_never_finite
  (origin direction position normal : vec3) :
  is_zero (plane_a direction normal) = true ->
  plane_intersection origin direction position normal = no_intersection
  \/ is_distance (plane_intersection origin direction position normal) = false.
Proof.
  intro Parallel.
  assert (E : plane_intersection origin direction position normal
              = if plane_t origin direction position normal <? 0
                then no_intersection
                else plane_t origin direction position normal) by reflexivity.
  rewrite E.
  destruct (plane_t origin direction position normal <? 0); [left; reflexivity | ].
  right. apply nan_or_infinity_is_not_finite.
  apply division_by_zero. exact Parallel.
Qed.

(** Towards (1,0,0) along a plane with normal (0,0,1): through (0,0,10)
    and through the origin the answer is not finite, through (0,0,-10) it
    is "no intersection". *)
Lemma plane_intersection_parallel_never_finite_witness :
  is_zero (plane_a (mkVec 1 0 0) (mkVec 0 0 1)) = true
  /\ (plane_intersection (mkVec 0 0 0) (mkVec 1 0 0) (mkVec 0 0 10) (mkVec 0 0 1)
       = no_intersection
      \/ is_distance
           (plane_intersection (mkVec 0 0 0) (mkVec 1 0 0) (mkVec 0 0 10) (mkVec 0 0 1))
         = false)
  /\ (plane_intersection (mkVec 0 0 0) (mkVec 1 0 0) (mkVec 0 0 (-10)) (mkVec 0 0 1)
       = no_intersection
      \/ is_distance
           (plane_intersection (mkVec 0 0 0) (mkVec 1 0 0) (mkVec 0 0 (-10)) (mkVec 0 0 1))
         = false).
Proof.
  split; [reflexivity | split].
  - exact (plane_intersection_parallel_never_finite
             (mkVec 0 0 0) (mkVec 1 0 0) (mkVec 0 0 10) (mkVec 0 0 1) eq_refl).
  - exact (plane_intersection_parallel_never_finite
             (mkVec 0 0 0) (mkVec 1 0 0) (mkVec 0 0 (-10)) (mkVec 0 0 1) eq_refl).
Defined.

(** X2.  A direction whose three components are zero.  Whatever the
    origin, the center and the radius, NaN and the infinities included,
    [sphere_intersection] answers "no intersection": both roots come out
    as NaN, which is not above zero. *)
Theorem sphere_intersection_zero_direction
  (origin direction center : vec3) (radius : float) :
  is_zero (v0 direction) = true ->
  is_zero (v1 direction) = true ->
  is_zero (v2 direction) = true ->
  sphere_intersection origin direction center radius = no_intersection.
Proof.
  intros Z0 Z1 Z2.
  apply zero_is_zero_or_nan in Z0, Z1, Z2.
  unfold sphere_intersection, sqr.
  set (a := v0 direction * v0 direction + v1 direction * v1 direction
            + v2 direction * v2 direction).
  set (b := 2 * (v0 direction * (v0 origin - v0 center)
                 + v1 direction * (v1 origin - v1 center)
                 + v2 direction * (v2 origin - v2 center))).
  set (c := (v0 origin - v0 center) * (v0 origin - v0 center)
            + (v1 origin - v1 center) * (v1 origin - v1 center)
            + (v2 origin - v2 center) * (v2 origin - v2 center) - radius * radius).
  assert (A : zero_or_nan a).
  { subst a. repeat apply zero_or_nan_add; apply zero_or_nan_mul_l; assumption. }
  assert (B : zero_or_nan b).
  { subst b. apply zero_or_nan_mul_r.
    repeat apply zero_or_nan_add; apply zero_or_nan_mul_l; assumption. }
  assert (D : zero_or_nan (b * b - 4 * a * c)).
  { apply zero_or_nan_sub; [apply zero_or_nan_mul_l; exact B | ].
    apply zero_or_nan_mul_l. apply zero_or_nan_mul_r. exact A. }
  cbv zeta.
  destruct (b * b - 4 * a * c <? 0); [reflexivity | ].
  assert (S : zero_or_nan (sqrt (b * b - 4 * a * c))) by (apply zero_or_nan_sqrt; exact D).
  assert (A2 : zero_or_nan (2 * a)) by (apply zero_or_nan_mul_r; exact A).
  rewrite (nan_is_not_above 0 ((- b - sqrt (b * b - 4 * a * c)) / (2 * a))).
  - rewrite (nan_is_not_above 0 ((- b + sqrt (b * b - 4 * a * c)) / (2 * a)));
      [reflexivity | ].
    apply zero_or_nan_div; [ | exact A2].
    apply zero_or_nan_add; [apply zero_or_nan_opp; exact B | exact S].
  - apply zero_or_nan_div; [ | exact A2].
    apply zero_or_nan_sub; [apply zero_or_nan_opp; exact B | exact S].
Qed.

(** A ray that goes nowhere from inside the unit sphere, and one with a
    negative zero among its components and an infinite radius. *)
Lemma sphere_intersection_zero_direction_witness :
  sphere_intersection (mkVec 0 0 0) (mkVec 0 0 0) (mkVec 0 0 0) 1 = no_intersection
  /\ sphere_intersection (mkVec 1 2 3) (mkVec 0 (-0) 0) (mkVec 0 0 (-5)) infinity
     = no_intersection.
Proof.
  split.
  - exact (sphere_intersection_zero_direction
             (mkVec 0 0 0) (mkVec 0 0 0) (mkVec 0 0 0) 1 eq_refl eq_refl eq_refl).
  - exact (sphere_intersection_zero_direction
             (mkVec 1 2 3) (mkVec 0 (-0) 0) (mkVec 0 0 (-5)) infinity
             eq_refl eq_refl eq_refl).
Defined.

(** X3.  [normalize] divides by the length without looking at it.  When
    the length computes to zero (the zero vector, or components so small
    that their squares vanish), no component of the result is a finite
    number: each is NaN or an infinity. *)
Theorem normalize_zero_length (v : vec3) :
  is_zero (normalize_len v) = true ->
  is_finite (v0 (normalize v)) = false
  /\ is_finite (v1 (normalize v)) = false
  /\ is_finite (v2 (normalize v)) = false.
Proof.
  intro Zero. unfold normalize. cbn [v0 v1 v2].
  repeat split; apply nan_or_infinity_is_not_finite; apply division_by_zero; exact Zero.
Qed.

(** The zero vector, and a vector whose one component is 2^-600. *)
Lemma normalize_zero_length_witness :
  (is_finite (v0 (normalize (mkVec 0 0 0))) = false
   /\ is_finite (v1 (normalize (mkVec 0 0 0))) = false
   /\ is_finite (v2 (normalize (mkVec 0 0 0))) = false)
  /\ (is_finite (v0 (normalize (mkVec 0x1p-600 0 0))) = false
      /\ is_finite (v1 (normalize (mkVec 0x1p-600 0 0))) = false
      /\ is_finite (v2 (normalize (mkVec 0x1p-600 0 0))) = false).
Proof.
  split.
  - exact (normalize_zero_length (mkVec 0 0 0) eq_refl).
  - exact (normalize_zero_length (mkVec 0x1p-600 0 0) eq_refl).
Defined.

End Degenerate.

(* ================================================================== *)
(** * Part XIII: the character level helpers, on any text              *)
(* ================================================================== *)

Section Strings.

Lemma string_character_facts (a : ascii) :
  string_character a = true ->
  (code a =? ch dquote) = false /\ (code a =? ch backslash) = false
  /\ ((code a <? 32) || (126 <? code a)) = false
  /\ (code a =? ch newline) = false.
Proof.
  unfold string_character. intro H.
  apply andb_true_iff in H. destruct H as [H Hb].
  apply andb_true_iff in H. destruct H as [H Hq].
  apply andb_true_iff in H. destruct H as [Hlow Hhigh].
  apply negb_true_iff in Hb, Hq. apply Z.leb_le in Hlow, Hhigh.
  repeat split; try assumption.
  - apply orb_false_iff. split; [apply Z.ltb_ge | apply Z.ltb_ge]; lia.
  - apply Z.eqb_neq. change (ch newline) with 10. lia.
Qed.

(** One turn of the loop of [next_string] on a character it takes. *)
Lemma next_string_while_turn (fuel : nat) (buffer : list ascii) (i : Z) (a0 : ascii) :
  string_character a0 = true ->
  i < 128 ->
  next_string_while (S fuel) buffer i (code a0)
  = bind next_c (fun c' => next_string_while fuel (a0 :: buffer) (i + 1) c').
Proof.
  intros H0 Hi. destruct (string_character_facts a0 H0) as (Q & B & P & _).
  cbn [next_string_while]. rewrite Q, B, P. cbn [negb].
  replace (128 <=? i) with false by (symmetry; apply Z.leb_gt; lia).
  rewrite ascii_of_code_code. reflexivity.
Qed.

(** The loop of [next_string] over characters it takes: it stores them
    and comes to the character behind them. *)
Lemma next_string_while_takes (s : list ascii) :
  forall (fuel : nat) (buffer : list ascii) (i : Z) (a0 a : ascii) (rest : list ascii)
         (e r cl : bool) (l : Z) (err : list message) (arr : list (Z * Object))
         (so : nat -> Object) (sd : nat -> float) (d : nat),
    string_character a0 = true ->
    Forall (fun x => string_character x = true) s ->
    i + Z.of_nat (List.length s) < 128 ->
    next_string_while (S (List.length s) + fuel) buffer i (code a0)
      (mkWorld (mkFILE (s ++ a :: rest) e r cl) l err arr so sd d)
    = next_string_while fuel (rev s ++ a0 :: buffer) (i + 1 + Z.of_nat (List.length s))
        (code a)
        (mkWorld (mkFILE rest e r cl)
           (if code a =? ch newline then wrap_int (l + 1) else l) err arr so sd d).
Proof.
  induction s as [ | x s IH];
    intros fuel buffer i a0 a rest e r cl l err arr so sd d H0 Hs Hi.
  - cbn [List.length Z.of_nat] in Hi.
    change (S (List.length (@nil ascii)) + fuel)%nat with (S fuel).
    rewrite (next_string_while_turn fuel buffer i a0 H0) by lia.
    unfold bind. cbn [app]. rewrite next_c_reads.
    cbn [rev app List.length Z.of_nat]. rewrite Z.add_0_r. reflexivity.
  - inversion Hs as [ | ? ? Hx Hs']; subst.
    destruct (string_character_facts x Hx) as (_ & _ & _ & N).
    cbn [List.length] in Hi. rewrite Nat2Z.inj_succ in Hi.
    change (S (List.length (x :: s)) + fuel)%nat with (S (S (List.length s) + fuel)).
    rewrite (next_string_while_turn _ buffer i a0 H0) by lia.
    unfold bind. rewrite <- app_comm_cons. rewrite next_c_reads, N.
    rewrite (IH fuel (a0 :: buffer) (i + 1) x a rest e r cl l err arr so sd d Hx Hs')
      by lia.
    cbn [rev List.length]. rewrite <- app_assoc. cbn [app].
    rewrite Nat2Z.inj_succ.
    replace (i + 1 + 1 + Z.of_nat (List.length s))
      with (i + 1 + Z.succ (Z.of_nat (List.length s))) by lia.
    reflexivity.
Qed.

(** [next_string] up to the character behind the characters it takes. *)
Lemma next_string_takes (s : list ascii) (a : ascii) (rest : list ascii)
  (e r cl : bool) (l : Z) (err : list message) (arr : list (Z * Object))
  (so : nat -> Object) (sd : nat -> float) (d : nat) :
  Forall (fun x => string_character x = true) s ->
  (List.length s <= 128)%nat ->
  exists fuel : nat,
    next_string (mkWorld (mkFILE (dquote :: s ++ a :: rest) e r cl) l err arr so sd d)
    = next_string_while (S fuel) (rev s) (Z.of_nat (List.length s)) (code a)
        (mkWorld (mkFILE rest e r cl)
           (if code a =? ch newline then wrap_int (l + 1) else l) err arr so sd d).
Proof.
  intros Hs Hlen. unfold next_string. cbv beta. cbn [json unread].
  unfold bind at 1. rewrite next_c_reads.
  change (code dquote =? ch newline) with false. cbv iota.
  change (negb (code dquote =? ch dquote)) with false. cbv iota.
  destruct s as [ | a0 s].
  - cbn [app]. unfold bind. rewrite next_c_reads.
    exists (S (List.length rest)). reflexivity.
  - inversion Hs as [ | ? ? H0 Hs']; subst.
    destruct (string_character_facts a0 H0) as (_ & _ & _ & N).
    rewrite <- app_comm_cons. unfold bind. rewrite next_c_reads, N.
    exists (S (List.length rest)).
    replace (List.length (dquote :: a0 :: s ++ a :: rest))
      with (S (List.length s) + S (S (List.length rest)))%nat
      by (cbn [List.length]; rewrite length_app; cbn [List.length]; lia).
    cbn [List.length] in Hlen.
    rewrite (next_string_while_takes s (S (S (List.length rest))) [] 0 a0 a rest
               e r cl l err arr so sd d H0 Hs') by lia.
    cbn [rev List.length]. rewrite Nat2Z.inj_succ.
    replace (0 + 1 + Z.of_nat (List.length s)) with (Z.succ (Z.of_nat (List.length s)))
      by lia.
    reflexivity.
Qed.

(** [next_string] on a quoted string it takes. *)
Lemma next_string_quoted (s rest : list ascii)
  (e r cl : bool) (l : Z) (err : list message) (arr : list (Z * Object))
  (so : nat -> Object) (sd : nat -> float) (d : nat) :
  Forall (fun x => string_character x = true) s ->
  (List.length s <= 128)%nat ->
  next_string (mkWorld (mkFILE (dquote :: s ++ dquote :: rest) e r cl) l err arr so sd d)
  = Done (string_of_list_ascii s) (mkWorld (mkFILE rest e r cl) l err arr so sd d).
Proof.
  intros Hs Hlen.
  destruct (next_string_takes s dquote rest e r cl l err arr so sd d Hs Hlen) as [fuel E].
  rewrite E. cbn [next_string_while].
  change (negb (code dquote =? ch dquote)) with false. cbv iota.
  change (code dquote =? ch newline) with false. cbv iota.
  unfold ret. rewrite rev_involutive. reflexivity.
Qed.

(** X4.  [next_string] on a double quote, characters it takes
    (printable, no double quote, no backslash), 128 of them at most, and
    a closing double quote: it hands back just these characters and
    leaves the stream behind the closing quote, with [line] and
    everything else as it was. *)
Theorem next_string_reads_what_was_quoted (s rest : list ascii)
  (e r cl : bool) (l : Z) (err : list message) (arr : list (Z * Object))
  (so : nat -> Object) (sd : nat -> float) (d : nat) :
  Forall (fun x => string_character x = true) s ->
  (List.length s <= 128)%nat ->
  next_string (mkWorld (mkFILE (dquote :: s ++ dquote :: rest) e r cl) l err arr so sd d)
  = Done (string_of_list_ascii s) (mkWorld (mkFILE rest e r cl) l err arr so sd d).
Proof.
  intros Hs Hlen.
  destruct (next_string_takes s dquote rest e r cl l err arr so sd d Hs Hlen) as [fuel E].
  rewrite E. cbn [next_string_while].
  change (negb (code dquote =? ch dquote)) with false. cbv iota.
  change (code dquote =? ch newline) with false. cbv iota.
  unfold ret. rewrite rev_involutive. reflexivity.
Qed.

(** The key [type], the empty string, and a string of 128 characters. *)
Lemma next_string_reads_what_was_quoted_witness :
  next_string (reading (scene_text "'type': 'sphere'") (fun _ => blank_Object)
                 (fun _ => 0%float))
  = Done "type" (reading (scene_text ": 'sphere'") (fun _ => blank_Object)
                   (fun _ => 0%float))
  /\ next_string (reading (scene_text "'',") (fun _ => blank_Object) (fun _ => 0%float))
     = Done EmptyString (reading (scene_text ",") (fun _ => blank_Object)
                           (fun _ => 0%float))
  /\ next_string (reading (dquote :: repeat "a"%char 128 ++ dquote :: [])
                    (fun _ => blank_Object) (fun _ => 0%float))
     = Done (string_of_list_ascii (repeat "a"%char 128))
         (reading [] (fun _ => blank_Object) (fun _ => 0%float)).
Proof.
  split; [ | split].
  - apply (next_string_reads_what_was_quoted (list_ascii_of_string "type")
             (scene_text ": 'sphere'")); [repeat constructor | vm_compute; lia].
  - apply (next_string_reads_what_was_quoted [] (scene_text ","));
      [constructor | vm_compute; lia].
  - apply (next_string_reads_what_was_quoted (repeat "a"%char 128) []);
      [apply Forall_forall; intros x Hx; apply repeat_spec in Hx; subst x; reflexivity
      | rewrite repeat_length; lia].
Defined.

(** X5.  The bound on the length of a string.  After the opening quote
    and 128 characters it takes, any character but the closing quote
    ends the process with status 1 and the message of line 112: a string
    of 128 characters is read, one of 129 is not. *)
Theorem next_string_length_bound (s : list ascii) (a : ascii) (rest : list ascii)
  (e r cl : bool) (l : Z) (err : list message) (arr : list (Z * Object))
  (so : nat -> Object) (sd : nat -> float) (d : nat) :
  Forall (fun x => string_character x = true) s ->
  List.length s = 128%nat ->
  (code a =? ch dquote) = false ->
  let o := next_string
             (mkWorld (mkFILE (dquote :: s ++ a :: rest) e r cl) l err arr so sd d) in
  exit_status o = Some 1
  /\ written o = (err ++ [StringsLongerThan128])%list
  /\ failure o = Some Spec.StringTooLong.
Proof.
  intros Hs Hlen Q o. subst o.
  destruct (next_string_takes s a rest e r cl l err arr so sd d Hs ltac:(lia)) as [fuel E].
  rewrite E. cbn [next_string_while]. rewrite Q, Hlen. cbn [negb].
  change (128 <=? Z.of_nat 128) with true. cbv iota.
  unfold bind, fprintf, exit, set_stderr. cbn [stderr].
  split; [reflexivity | split; [reflexivity | ]].
  unfold failure. cbn [stderr]. rewrite rev_unit. reflexivity.
Qed.

(** 129 letters between the quotes. *)
Lemma next_string_length_bound_witness :
  let o := next_string (reading (dquote :: repeat "a"%char 128 ++ "a"%char :: [dquote])
                          (fun _ => blank_Object) (fun _ => 0%float)) in
  exit_status o = Some 1
  /\ written o = [StringsLongerThan128]
  /\ failure o = Some Spec.StringTooLong.
Proof.
  apply (next_string_length_bound (repeat "a"%char 128) "a"%char [dquote]);
    [apply Forall_forall; intros x Hx; apply repeat_spec in Hx; subst x; reflexivity
    | apply repeat_length
    | reflexivity].
Defined.

(** X6.  What [next_string] refuses inside a string, within the first
    128 characters: a backslash ends the process with the message of
    line 116, and a character that is not printable (a line feed, a tab,
    a byte over 126) with the message of line 120. *)
Theorem next_string_refuses (s : list ascii) (a : ascii) (rest : list ascii)
  (e r cl : bool) (l : Z) (err : list message) (arr : list (Z * Object))
  (so : nat -> Object) (sd : nat -> float) (d : nat) :
  Forall (fun x => string_character x = true) s ->
  (List.length s < 128)%nat ->
  ((code a <? 32) || (126 <? code a)) || (code a =? ch backslash) = true ->
  let o := next_string
             (mkWorld (mkFILE (dquote :: s ++ a :: rest) e r cl) l err arr so sd d) in
  exit_status o = Some 1
  /\ written o
     = (err ++ [if code a =? ch backslash then StringsWithEscapeCodes
                else StringsOnlyAscii])%list.
Proof.
  intros Hs Hlen Bad o. subst o.
  destruct (next_string_takes s a rest e r cl l err arr so sd d Hs ltac:(lia)) as [fuel E].
  rewrite E. cbn [next_string_while].
  assert (Q : (code a =? ch dquote) = false).
  { apply Z.eqb_neq. intro Eq. rewrite Eq in Bad. discriminate Bad. }
  rewrite Q. cbn [negb].
  replace (128 <=? Z.of_nat (List.length s)) with false
    by (symmetry; apply Z.leb_gt; lia).
  destruct (code a =? ch backslash) eqn:B; [split; reflexivity | ].
  rewrite orb_false_r in Bad. rewrite Bad. split; reflexivity.
Qed.

(** A backslash after two letters, and a line feed after two letters. *)
Lemma next_string_refuses_witness :
  (let o := next_string (reading (dquote :: "a"%char :: "b"%char :: backslash
                                    :: "n"%char :: [dquote])
                           (fun _ => blank_Object) (fun _ => 0%float)) in
   exit_status o = Some 1 /\ written o = [StringsWithEscapeCodes])
  /\ (let o := next_string (reading (dquote :: "a"%char :: "b"%char :: newline
                                       :: "c"%char :: [dquote])
                              (fun _ => blank_Object) (fun _ => 0%float)) in
      exit_status o = Some 1 /\ written o = [StringsOnlyAscii]).
Proof.
  split.
  - apply (next_string_refuses ["a"%char; "b"%char] backslash ["n"%char; dquote]);
      [repeat constructor | cbn; lia | reflexivity].
  - apply (next_string_refuses ["a"%char; "b"%char] newline ["c"%char; dquote]);
      [repeat constructor | cbn; lia | reflexivity].
Defined.

End Strings.

Section WhiteSpace.

Lemma wrap_int_in_range (z : Z) : - 2 ^ 31 <= z < 2 ^ 31 -> wrap_int z = z.
Proof.
  intro H. unfold wrap_int.
  rewrite Z.mod_small by (change (2 ^ 32) with (2 ^ 31 + 2 ^ 31); lia). lia.
Qed.

Lemma line_feeds_nonneg (s : list ascii) : 0 <= line_feeds s.
Proof.
  induction s as [ | a s IH]; cbn [line_feeds]; [lia | ].
  destruct (code a =? ch newline); lia.
Qed.

(** [next_c] at the end of the stream. *)
Lemma next_c_at_end (e r cl : bool) (l : Z) (err : list message)
  (arr : list (Z * Object)) (so : nat -> Object) (sd : nat -> float) (d : nat) :
  next_c (mkWorld (mkFILE [] e r cl) l err arr so sd d)
  = Exit 1 (mkWorld (mkFILE [] true r cl) l
              (err ++ [UnexpectedEndOfFileOnLine l]) arr so sd d).
Proof. reflexivity. Qed.

(** The loop of [skip_ws] over white space: where it stops, and what
    [line] is then. *)
Lemma skip_ws_while_counts (ws : list ascii) :
  forall (fuel : nat) (c : Z) (tail : list ascii) (e r cl : bool) (l : Z)
         (err : list message) (arr : list (Z * Object))
         (so : nat -> Object) (sd : nat -> float) (d : nat),
    Forall (fun x => isspace (code x) = true) ws ->
    match tail with a :: _ => isspace (code a) = false | [] => True end ->
    isspace c = true ->
    (List.length ws < fuel)%nat ->
    - 2 ^ 31 <= l -> l + line_feeds ws < 2 ^ 31 ->
    skip_ws_while fuel c (mkWorld (mkFILE (ws ++ tail) e r cl) l err arr so sd d)
    = match tail with
      | a :: rest =>
          Done tt (mkWorld (mkFILE (a :: rest) false r cl) (l + line_feeds ws)
                     err arr so sd d)
      | [] => Exit 1 (mkWorld (mkFILE [] true r cl) (l + line_feeds ws)
                        (err ++ [UnexpectedEndOfFileOnLine (l + line_feeds ws)])
                        arr so sd d)
      end.
Proof.
  induction ws as [ | x ws IH];
    intros fuel c tail e r cl l err arr so sd d Hws Htail Hc Hfuel Hlow Hhigh.
  - destruct fuel as [ | fuel]; [cbn in Hfuel; lia | ].
    cbn [app line_feeds List.length]. rewrite Z.add_0_r.
    destruct tail as [ | a rest].
    + cbn [skip_ws_while]. rewrite Hc. unfold bind. rewrite next_c_at_end. reflexivity.
    + rename Htail into Ha.
      cbn [skip_ws_while]. rewrite Hc. unfold bind. rewrite next_c_reads.
      replace (code a =? ch newline) with false
        by (symmetry; apply Z.eqb_neq; intro Eq; rewrite Eq in Ha; discriminate Ha).
      destruct fuel; cbn [skip_ws_while]; rewrite Ha; unfold ungetc, set_json;
        cbn [json unread err_ind closed line stderr objectArray stack_Object
             stack_double decls];
        rewrite (code_is_not_EOF a), (ascii_of_code_code a); reflexivity.
  - destruct fuel as [ | fuel]; [cbn in Hfuel; lia | ].
    inversion Hws as [ | ? ? Hx Hws']; subst.
    cbn [List.length] in Hfuel. cbn [line_feeds] in Hhigh.
    pose proof (line_feeds_nonneg ws) as Hn.
    rewrite <- app_comm_cons. cbn [skip_ws_while]. rewrite Hc.
    unfold bind. rewrite next_c_reads.
    assert (Hl : (if code x =? ch newline then wrap_int (l + 1) else l)
                 = l + (if code x =? ch newline then 1 else 0)).
    { destruct (code x =? ch newline); [apply wrap_int_in_range | ]; lia. }
    rewrite Hl.
    rewrite (IH fuel (code x) tail e r cl _ err arr so sd d Hws' Htail Hx)
      by (try lia; destruct (code x =? ch newline); lia).
    cbn [line_feeds]. rewrite !Z.add_assoc. reflexivity.
Qed.

(** [skip_ws] over white space, up to a character that is none or to the
    end of the stream. *)
Lemma skip_ws_over (ws : list ascii) (tail : list ascii)
  (e r cl : bool) (l : Z) (err : list message) (arr : list (Z * Object))
  (so : nat -> Object) (sd : nat -> float) (d : nat) :
  Forall (fun x => isspace (code x) = true) ws ->
  match tail with a :: _ => isspace (code a) = false | [] => True end ->
  - 2 ^ 31 <= l -> l + line_feeds ws < 2 ^ 31 ->
  skip_ws (mkWorld (mkFILE (ws ++ tail) e r cl) l err arr so sd d)
  = match tail with
    | a :: rest =>
        Done tt (mkWorld (mkFILE (a :: rest) false r cl) (l + line_feeds ws)
                   err arr so sd d)
    | [] =>
        Exit 1 (mkWorld (mkFILE [] true r cl) (l + line_feeds ws)
                  (err ++ [UnexpectedEndOfFileOnLine (l + line_feeds ws)])%list
                  arr so sd d)
    end.
Proof.
  intros Hws Htail Hlow Hhigh. unfold skip_ws. cbv beta. cbn [json unread]. unfold bind.
  destruct ws as [ | x ws].
  - cbn [app line_feeds]. rewrite Z.add_0_r. destruct tail as [ | a rest].
    + rewrite next_c_at_end. reflexivity.
    + rewrite next_c_reads.
      replace (code a =? ch newline) with false
        by (symmetry; apply Z.eqb_neq; intro Eq; rewrite Eq in Htail; discriminate Htail).
      destruct (List.length (a :: rest)); cbn [skip_ws_while]; rewrite Htail;
        unfold ungetc, set_json;
        cbn [json unread err_ind closed line stderr objectArray stack_Object
             stack_double decls];
        rewrite (code_is_not_EOF a), (ascii_of_code_code a); reflexivity.
  - inversion Hws as [ | ? ? Hx Hws']; subst.
    cbn [line_feeds] in Hhigh. pose proof (line_feeds_nonneg ws) as Hn.
    rewrite <- app_comm_cons. rewrite next_c_reads.
    assert (Hl : (if code x =? ch newline then wrap_int (l + 1) else l)
                 = l + (if code x =? ch newline then 1 else 0)).
    { destruct (code x =? ch newline); [apply wrap_int_in_range | ]; lia. }
    rewrite Hl.
    rewrite (skip_ws_while_counts ws _ (code x) tail e r cl _ err arr so sd d
               Hws' Htail Hx)
      by (try lia; try (destruct (code x =? ch newline); lia);
          cbn [List.length]; rewrite length_app; lia).
    cbn [line_feeds]. rewrite !Z.add_assoc. reflexivity.
Qed.

(** X7.  [skip_ws] on white space followed by a character that is none:
    the white space is read away, the character is left unread with the
    end-of-file indicator clear, and [line] has gone up by the number of
    line feeds passed.  On white space up to the end of the stream, or on
    an empty stream, it ends the process instead, with status 1 and the
    message of line 60 naming the line reached, which the specification
    calls UnexpectedEndOfInput. *)
Theorem skip_ws_counts_lines (ws : list ascii) (tail : list ascii)
  (e r cl : bool) (l : Z) (err : list message) (arr : list (Z * Object))
  (so : nat -> Object) (sd : nat -> float) (d : nat) :
  Forall (fun x => isspace (code x) = true) ws ->
  match tail with a :: _ => isspace (code a) = false | [] => True end ->
  - 2 ^ 31 <= l -> l + line_feeds ws < 2 ^ 31 ->
  let o := skip_ws (mkWorld (mkFILE (ws ++ tail) e r cl) l err arr so sd d) in
  match tail with
  | a :: rest =>
      o = Done tt (mkWorld (mkFILE (a :: rest) false r cl) (l + line_feeds ws)
                     err arr so sd d)
  | [] =>
      exit_status o = Some 1
      /\ written o = (err ++ [UnexpectedEndOfFileOnLine (l + line_feeds ws)])%list
      /\ failure o = Some Spec.UnexpectedEndOfInput
      /\ option_map line (final_world o) = Some (l + line_feeds ws)
  end.
Proof.
  intros Hws Htail Hlow Hhigh o. subst o.
  rewrite skip_ws_over by assumption.
  destruct tail as [ | a rest]; [ | reflexivity].
  split; [reflexivity | split; [reflexivity | split; [ | reflexivity]]].
  unfold failure. cbn [stderr Z.eqb]. rewrite rev_unit. reflexivity.
Qed.

(** Two line feeds and blanks in front of a brace, and in front of the
    end of the stream. *)
Lemma skip_ws_counts_lines_witness :
  skip_ws (reading (newline :: " "%char :: newline :: " "%char :: scene_text "{'type'")
             (fun _ => blank_Object) (fun _ => 0%float))
  = Done tt (set_line 3 (reading (scene_text "{'type'") (fun _ => blank_Object)
                           (fun _ => 0%float)))
  /\ exit_status
       (skip_ws (reading (newline :: " "%char :: newline :: [" "%char])
                   (fun _ => blank_Object) (fun _ => 0%float)))
     = Some 1
  /\ written
       (skip_ws (reading (newline :: " "%char :: newline :: [" "%char])
                   (fun _ => blank_Object) (fun _ => 0%float)))
     = [UnexpectedEndOfFileOnLine 3].
Proof.
  pose proof (skip_ws_counts_lines [newline; " "%char; newline; " "%char]
                (scene_text "{'type'") false false false 1 [] []
                (fun _ => blank_Object) (fun _ => 0%float) 0
                ltac:(repeat constructor) eq_refl ltac:(lia) ltac:(cbn; lia)) as A.
  pose proof (skip_ws_counts_lines [newline; " "%char; newline; " "%char]
                [] false false false 1 [] []
                (fun _ => blank_Object) (fun _ => 0%float) 0
                ltac:(repeat constructor) I ltac:(lia) ltac:(cbn; lia)) as B.
  split; [exact A | ].
  destruct B as (Status & Written & _).
  split; [exact Status | exact Written].
Defined.

End WhiteSpace.

Section NumberAtEnd.

Lemma drop_space_skips (ws tail : list ascii) :
  Forall (fun x => isspace (code x) = true) ws ->
  match tail with a :: _ => isspace (code a) = false | [] => True end ->
  Scanf.drop_space (ws ++ tail) = tail.
Proof.
  intros Hws Htail. induction Hws as [ | x ws Hx Hws IH].
  - destruct tail as [ | a rest]; [reflexivity | ].
    cbn [app Scanf.drop_space]. rewrite Htail. reflexivity.
  - cbn [app Scanf.drop_space]. rewrite Hx. exact IH.
Qed.

Lemma digit_is_no_space (a : ascii) : Scanf.is_digit a = true -> isspace (code a) = false.
Proof.
  unfold Scanf.is_digit, isspace. intro H.
  apply andb_true_iff in H. destruct H as [H1 H2]. apply Z.leb_le in H1, H2.
  apply orb_false_iff. split; [apply Z.eqb_neq; lia | ].
  apply andb_false_iff. right. apply Z.leb_gt. lia.
Qed.

Lemma digit_is_no_sign (a : ascii) : Scanf.is_digit a = true -> Scanf.is_sign a = false.
Proof.
  unfold Scanf.is_digit, Scanf.is_sign. intro H.
  apply andb_true_iff in H. destruct H as [H1 H2]. apply Z.leb_le in H1, H2.
  apply orb_false_iff. split; apply Z.eqb_neq; lia.
Qed.

(** Digits up to the end of the stream are taken whole, and the end is
    run into. *)
Lemma take_item_digits (ds : list ascii) :
  forall (p : Scanf.phase) (l : Scanf.literal),
    p = Scanf.AtStart \/ p = Scanf.AfterZero \/ p = Scanf.InInteger ->
    Forall (fun x => Scanf.is_digit x = true) ds ->
    exists p' l', Scanf.take_item p l ds = (p', l', [], true).
Proof.
  induction ds as [ | a ds IH]; intros p l Hp Hds.
  - exists p, l. reflexivity.
  - inversion Hds as [ | ? ? Ha Hds']; subst.
    cbn [Scanf.take_item].
    destruct Hp as [-> | [-> | ->]]; cbn [Scanf.step].
    + rewrite (digit_is_no_sign a Ha). unfold Scanf.first_step. rewrite Ha.
      apply IH; [ | exact Hds'].
      destruct (Scanf.digit_value a =? 0); auto.
    + rewrite Ha. apply IH; auto.
    + rewrite Ha. apply IH; auto.
Qed.

(** X8.  A number that ends the stream.  On white space and decimal
    digits with nothing behind them, [next_number] ends the process with
    status 1 and the message of line 139: scanning the last digit runs
    into the end of the stream, and line 138 asks for just that, whether
    or not a number was read. *)
Theorem next_number_refuses_last_number (ws ds : list ascii) (w : world) :
  unread (json w) = (ws ++ ds)%list ->
  Forall (fun x => isspace (code x) = true) ws ->
  Forall (fun x => Scanf.is_digit x = true) ds ->
  exit_status (next_number w) = Some 1
  /\ written (next_number w) = (stderr w ++ [UnexpectedEndOfFile])%list
  /\ failure (next_number w) = Some Spec.UnexpectedEndOfInput.
Proof.
  intros Text Hws Hds.
  assert (Gone : exists scanned f,
             Scanf.fscanf_lf (set_decls (S (decls w)) w)
             = Done scanned (set_json f (set_decls (S (decls w)) w))
             /\ eof_ind f = true).
  { unfold Scanf.fscanf_lf. cbn [json set_decls]. rewrite Text.
    rewrite (drop_space_skips ws ds Hws).
    - destruct ds as [ | a ds'].
      + eexists. eexists. split; reflexivity.
      + destruct (take_item_digits (a :: ds') Scanf.AtStart Scanf.empty_literal
                    (or_introl eq_refl) Hds) as (p' & l' & T).
        rewrite T. eexists. eexists. split; [reflexivity | ].
        cbn [eof_ind]. apply orb_true_r.
    - destruct ds as [ | a ds']; [exact I | ].
      inversion Hds; subst. apply digit_is_no_space. assumption. }
  destruct Gone as (scanned & f & Scan & Eof).
  destruct (next_number_after_scan w) as (scanned' & w2 & Scan' & E).
  rewrite Scan in Scan'. injection Scan' as <- <-.
  assert (Eof' : eof_ind (json (set_json f (set_decls (S (decls w)) w))) = true)
    by exact Eof.
  rewrite E, Eof'.
  split; [reflexivity | ]. split; [reflexivity | ].
  apply (failure_after_message _ UnexpectedEndOfFile).
Qed.

(** The digits 255 at the end of a stream, and a stream of blanks. *)
Lemma next_number_refuses_last_number_witness :
  (exit_status (next_number (reading (scene_text " 255") (fun _ => blank_Object)
                               (fun _ => 0%float))) = Some 1
   /\ written (next_number (reading (scene_text " 255") (fun _ => blank_Object)
                              (fun _ => 0%float))) = [UnexpectedEndOfFile]
   /\ failure (next_number (reading (scene_text " 255") (fun _ => blank_Object)
                              (fun _ => 0%float))) = Some Spec.UnexpectedEndOfInput)
  /\ (exit_status (next_number (reading (scene_text "  ") (fun _ => blank_Object)
                                  (fun _ => 0%float))) = Some 1
      /\ written (next_number (reading (scene_text "  ") (fun _ => blank_Object)
                                 (fun _ => 0%float))) = [UnexpectedEndOfFile]
      /\ failure (next_number (reading (scene_text "  ") (fun _ => blank_Object)
                                 (fun _ => 0%float))) = Some Spec.UnexpectedEndOfInput).
Proof.
  split.
  - apply (next_number_refuses_last_number [" "%char] (scene_text "255"));
      [reflexivity | repeat constructor | repeat constructor].
  - apply (next_number_refuses_last_number (scene_text "  ") []);
      [reflexivity | repeat constructor | constructor].
Defined.

End NumberAtEnd.

(* ================================================================== *)
(** * Part XIV: the fields of an object                                *)
(* ================================================================== *)

Section Fields.

Lemma nan_spec (v : float) : is_nan v = true -> Prim2SF v = S754_nan.
Proof.
  unfold is_nan. rewrite eqb_spec. unfold SFeqb.
  destruct (Prim2SF v) as [s | s | | s m e]; try reflexivity.
  - destruct s; discriminate.
  - destruct s; discriminate.
  - cbn [SFcompare]. rewrite Z.compare_refl, Pos.compare_cont_refl.
    destruct s; discriminate.
Qed.

Lemma nan_is_not_below (v x : float) : is_nan v = true -> (v <? x)%float = false.
Proof.
  intro H. rewrite ltb_spec, (nan_spec v H). reflexivity.
Qed.

(** X9.  The sizes: the width and the height of a camera and the radius
    of a sphere, read from a stream on which [next_number] reads [v],
    the field not being a repetition.  A value under 1 ends the process
    with the message that names it, which the specification calls
    ValueOutOfRange.  A value of 1 or more is taken and the field marked
    as read; so is NaN, which is not under 1. *)
Theorem sizes_are_checked (o : Object) (w w' : world) (v : float) :
  camera_widthGiven o = false ->
  camera_heightGiven o = false ->
  sphere_radiusGiven o = false ->
  next_number w = Done v w' ->
  ((v <? 1)%float = true ->
     written (camera_field "width" o w) = (stderr w' ++ [CameraWidthInvalid v])%list
     /\ written (camera_field "height" o w) = (stderr w' ++ [CameraHeightInvalid v])%list
     /\ written (sphere_field "radius" o w) = (stderr w' ++ [RadiusInvalid v])%list
     /\ exit_status (camera_field "width" o w) = Some 1
     /\ exit_status (camera_field "height" o w) = Some 1
     /\ exit_status (sphere_field "radius" o w) = Some 1
     /\ failure (sphere_field "radius" o w) = Some Spec.ValueOutOfRange)
  /\ ((1 <=? v)%float = true \/ is_nan v = true ->
        camera_field "width" o w
        = Done (set_camera_width v (set_camera_widthGiven true o)) w'
        /\ camera_field "height" o w
           = Done (set_camera_height v (set_camera_heightGiven true o)) w'
        /\ sphere_field "radius" o w
           = Done (set_sphere_radius v (set_sphere_radiusGiven true o)) w').
Proof.
  intros Width Height Radius Number.
  assert (W : camera_field "width" o w
              = if (v <? 1)%float
                then Exit 1 (set_stderr (stderr w' ++ [CameraWidthInvalid v]) w')
                else Done (set_camera_width v (set_camera_widthGiven true o)) w').
  { unfold camera_field. cbn [same_string String.eqb Ascii.eqb Bool.eqb].
    rewrite Width. unfold bind. rewrite Number.
    destruct (v <? 1)%float; reflexivity. }
  assert (H : camera_field "height" o w
              = if (v <? 1)%float
                then Exit 1 (set_stderr (stderr w' ++ [CameraHeightInvalid v]) w')
                else Done (set_camera_height v (set_camera_heightGiven true o)) w').
  { unfold camera_field. cbn [same_string String.eqb Ascii.eqb Bool.eqb].
    rewrite Height. unfold bind. rewrite Number.
    destruct (v <? 1)%float; reflexivity. }
  assert (R : sphere_field "radius" o w
              = if (v <? 1)%float
                then Exit 1 (set_stderr (stderr w' ++ [RadiusInvalid v]) w')
                else Done (set_sphere_radius v (set_sphere_radiusGiven true o)) w').
  { unfold sphere_field. cbn [same_string String.eqb Ascii.eqb Bool.eqb].
    rewrite Radius. unfold bind. rewrite Number.
    destruct (v <? 1)%float; reflexivity. }
  rewrite W, H, R. split.
  - intros ->. repeat split; try reflexivity.
    apply (failure_after_message _ (RadiusInvalid v)).
  - intros [Above | Nan].
    + rewrite (leb_not_ltb _ _ Above). repeat split; reflexivity.
    + rewrite (nan_is_not_below v 1 Nan). repeat split; reflexivity.
Qed.

(** The values 0.5, 1 and NaN, each followed by the closing brace. *)
Lemma sizes_are_checked_witness :
  (written (sphere_field "radius" blank_Object
              (reading (scene_text "0.5}") (fun _ => blank_Object) (fun _ => 0%float)))
   = [RadiusInvalid 0.5%float]
   /\ exit_status (camera_field "width" blank_Object
                     (reading (scene_text "0.5}") (fun _ => blank_Object)
                        (fun _ => 0%float)))
      = Some 1)
  /\ sphere_field "radius" blank_Object
       (reading (scene_text "1}") (fun _ => blank_Object) (fun _ => 0%float))
     = Done (set_sphere_radius 1%float (set_sphere_radiusGiven true blank_Object))
         (set_decls 1 (reading (scene_text "}") (fun _ => blank_Object)
                         (fun _ => 0%float)))
  /\ sphere_field "radius" blank_Object
       (reading (scene_text "nan}") (fun _ => blank_Object) (fun _ => 0%float))
     = Done (set_sphere_radius nan (set_sphere_radiusGiven true blank_Object))
         (set_decls 1 (reading (scene_text "}") (fun _ => blank_Object)
                         (fun _ => 0%float))).
Proof.
  pose proof (sizes_are_checked blank_Object
                (reading (scene_text "0.5}") (fun _ => blank_Object) (fun _ => 0%float))
                (set_decls 1 (reading (scene_text "}") (fun _ => blank_Object)
                                (fun _ => 0%float)))
                0.5%float eq_refl eq_refl eq_refl eq_refl) as Low.
  pose proof (sizes_are_checked blank_Object
                (reading (scene_text "1}") (fun _ => blank_Object) (fun _ => 0%float))
                (set_decls 1 (reading (scene_text "}") (fun _ => blank_Object)
                                (fun _ => 0%float)))
                1%float eq_refl eq_refl eq_refl eq_refl) as One.
  pose proof (sizes_are_checked blank_Object
                (reading (scene_text "nan}") (fun _ => blank_Object) (fun _ => 0%float))
                (set_decls 1 (reading (scene_text "}") (fun _ => blank_Object)
                                (fun _ => 0%float)))
                nan eq_refl eq_refl eq_refl eq_refl) as Nan.
  split; [ | split].
  - destruct (proj1 Low eq_refl) as (_ & _ & R & Wd & _). split; [exact R | exact Wd].
  - exact (proj2 (proj2 (proj2 One (or_introl eq_refl)))).
  - exact (proj2 (proj2 (proj2 Nan (or_intror eq_refl)))).
Defined.

End Fields.

(* ================================================================== *)
(** * Part XV: what gets into the array                                *)
(* ================================================================== *)

(** Takes a field handler that returned apart, test by test. *)
Ltac field_returned H :=
  repeat match type of H with
         | context [if ?b then _ else _] => destruct b eqn:?
         end;
  unfold bind, fprintf, exit, ret, get_line in H;
  repeat match type of H with
         | context [match ?m with _ => _ end] => destruct m eqn:?
         end;
  try discriminate H;
  injection H as <- _.

Section Array.
Local Open Scope prog_scope.

(** Only [store] writes to the array. *)
Lemma keeps_ret {A : Type} (a : A) : keeps_array (ret a).
Proof. intros w w' H. injection H as <-. reflexivity. Qed.

Lemma keeps_exit {A : Type} (status : Z) : keeps_array (@exit A status).
Proof. intros w w' H. injection H as <-. reflexivity. Qed.

Lemma keeps_out_of_fuel {A : Type} : keeps_array (@out_of_fuel A).
Proof. intros w w' H. discriminate. Qed.

Lemma keeps_bind {A B : Type} (m : M A) (k : A -> M B) :
  keeps_array m -> (forall a, keeps_array (k a)) -> keeps_array (bind m k).
Proof.
  intros Hm Hk w w' H. unfold bind in H.
  destruct (m w) as [a w1 | s w1 | w1 | ] eqn:E.
  - rewrite (Hk a w1 w' H). apply Hm. rewrite E. reflexivity.
  - apply Hm. rewrite E. exact H.
  - apply Hm. rewrite E. exact H.
  - discriminate.
Qed.

Lemma keeps_fprintf (m : message) : keeps_array (fprintf m).
Proof. intros w w' H. injection H as <-. reflexivity. Qed.

Lemma keeps_get_line : keeps_array get_line.
Proof. intros w w' H. injection H as <-. reflexivity. Qed.

Lemma keeps_declare_Object : keeps_array declare_Object.
Proof. intros w w' H. injection H as <-. reflexivity. Qed.

Lemma keeps_declare_double : keeps_array declare_double.
Proof. intros w w' H. injection H as <-. reflexivity. Qed.

Lemma keeps_feof : keeps_array feof.
Proof. intros w w' H. injection H as <-. reflexivity. Qed.

Lemma keeps_ferror : keeps_array ferror.
Proof. intros w w' H. injection H as <-. reflexivity. Qed.

Lemma keeps_fclose : keeps_array fclose.
Proof. intros w w' H. injection H as <-. reflexivity. Qed.

Lemma keeps_fgetc : keeps_array fgetc.
Proof.
  intros w w' H. unfold fgetc in H.
  destruct (unread (json w)); injection H as <-; reflexivity.
Qed.

Lemma keeps_ungetc (c : Z) : keeps_array (ungetc c).
Proof.
  intros w w' H. unfold ungetc in H.
  destruct (c =? EOF); injection H as <-; reflexivity.
Qed.

Lemma keeps_fscanf_lf : keeps_array Scanf.fscanf_lf.
Proof.
  intros w w' H. unfold Scanf.fscanf_lf in H.
  destruct (Scanf.drop_space (unread (json w))) as [ | a s].
  - injection H as <-. reflexivity.
  - destruct (Scanf.take_item Scanf.AtStart Scanf.empty_literal (a :: s))
      as [[[p l] rest] hit_end].
    injection H as <-. reflexivity.
Qed.

Lemma keeps_fopen (files : string -> option (list ascii)) (filename : string) :
  keeps_array (fopen files filename).
Proof.
  intros w w' H. unfold fopen in H.
  destruct (files filename); injection H as <-; reflexivity.
Qed.

Ltac keeps_step :=
  first
    [ assumption
    | apply keeps_bind; [ | intro ]
    | apply keeps_ret | apply keeps_exit | apply keeps_out_of_fuel
    | apply keeps_fprintf | apply keeps_get_line
    | apply keeps_declare_Object | apply keeps_declare_double
    | apply keeps_feof | apply keeps_ferror | apply keeps_fclose
    | apply keeps_fgetc | apply keeps_ungetc | apply keeps_fscanf_lf
    | apply keeps_fopen
    | match goal with
      | |- keeps_array (if ?b then _ else _) => destruct b
      end ].

Ltac keeps := repeat keeps_step.

Lemma keeps_next_c : keeps_array next_c.
Proof.
  unfold next_c. apply keeps_bind; [apply keeps_fgetc | intro c].
  apply keeps_bind; [ | intros _; keeps].
  destruct (c =? ch newline); [ | apply keeps_ret].
  intros w w' H. injection H as <-. reflexivity.
Qed.

Lemma keeps_expect_c (d : Z) : keeps_array (expect_c d).
Proof. pose proof keeps_next_c. unfold expect_c. keeps. Qed.

Lemma keeps_skip_ws_while (fuel : nat) (c : Z) : keeps_array (skip_ws_while fuel c).
Proof.
  pose proof keeps_next_c.
  revert c. induction fuel as [ | fuel IH]; intro c; cbn [skip_ws_while].
  - keeps.
  - destruct (isspace c); [ | keeps]. apply keeps_bind; [assumption | intro c']. apply IH.
Qed.

Lemma keeps_skip_ws : keeps_array skip_ws.
Proof.
  intros w w' H. unfold skip_ws in H. revert H.
  apply keeps_bind; [apply keeps_next_c | intro c]. apply keeps_skip_ws_while.
Qed.

Lemma keeps_next_string_while (fuel : nat) (buffer : list ascii) (i c : Z) :
  keeps_array (next_string_while fuel buffer i c).
Proof.
  pose proof keeps_next_c.
  revert buffer i c. induction fuel as [ | fuel IH]; intros buffer i c;
    cbn [next_string_while]; keeps.
  apply IH.
Qed.

Lemma keeps_next_string : keeps_array next_string.
Proof.
  intros w w' H. unfold next_string in H. revert H.
  apply keeps_bind; [apply keeps_next_c | intro c].
  destruct (negb (c =? ch dquote)); [keeps | ].
  apply keeps_bind; [apply keeps_next_c | intro c']. apply keeps_next_string_while.
Qed.

Lemma keeps_next_number : keeps_array next_number.
Proof. unfold next_number. keeps. Qed.

Lemma keeps_next_vector : keeps_array next_vector.
Proof.
  pose proof keeps_next_number. pose proof keeps_skip_ws.
  pose proof (keeps_expect_c (ch "[")). pose proof (keeps_expect_c (ch ",")).
  pose proof (keeps_expect_c (ch "]")).
  unfold next_vector. keeps.
Qed.

Lemma keeps_read_key : keeps_array read_key.
Proof.
  pose proof keeps_skip_ws. pose proof keeps_next_string.
  pose proof (keeps_expect_c (ch ":")).
  unfold read_key. keeps.
Qed.

Lemma keeps_camera_field (key : string) (cam : Object) :
  keeps_array (camera_field key cam).
Proof. pose proof keeps_next_number. unfold camera_field. keeps. Qed.

Lemma keeps_sphere_field (key : string) (o : Object) :
  keeps_array (sphere_field key o).
Proof.
  pose proof keeps_next_number. pose proof keeps_next_vector.
  unfold sphere_field. keeps.
Qed.

Lemma keeps_plane_field (key : string) (o : Object) :
  keeps_array (plane_field key o).
Proof. pose proof keeps_next_vector. unfold plane_field. keeps. Qed.

Lemma keeps_light_field (key : string) (o : Object) :
  keeps_array (light_field key o).
Proof. pose proof keeps_next_vector. unfold light_field. keeps. Qed.

Lemma keeps_camera_while (fuel : nat) (key : string) (cam : Object) :
  keeps_array (camera_while fuel key cam).
Proof.
  pose proof keeps_next_c. pose proof keeps_read_key. pose proof keeps_skip_ws.
  revert cam. induction fuel as [ | fuel IH]; intro cam; cbn [camera_while]; keeps.
  - apply keeps_camera_field.
  - apply IH.
Qed.

Lemma keeps_sphere_while (fuel : nat) (o : Object) : keeps_array (sphere_while fuel o).
Proof.
  pose proof keeps_next_c. pose proof keeps_read_key. pose proof keeps_skip_ws.
  revert o. induction fuel as [ | fuel IH]; intro o; cbn [sphere_while]; keeps.
  - apply keeps_sphere_field.
  - apply IH.
  - apply IH.
Qed.

Lemma keeps_plane_while (fuel : nat) (o : Object) : keeps_array (plane_while fuel o).
Proof.
  pose proof keeps_next_c. pose proof keeps_read_key. pose proof keeps_skip_ws.
  revert o. induction fuel as [ | fuel IH]; intro o; cbn [plane_while]; keeps.
  - apply keeps_plane_field.
  - apply IH.
  - apply IH.
Qed.

Lemma keeps_light_while (fuel : nat) (o : Object) : keeps_array (light_while fuel o).
Proof.
  pose proof keeps_next_c. pose proof keeps_read_key. pose proof keeps_skip_ws.
  revert o. induction fuel as [ | fuel IH]; intro o; cbn [light_while]; keeps.
  - apply keeps_light_field.
  - apply IH.
  - apply IH.
Qed.

Lemma keeps_adds {A : Type} (P : Z * Object -> Prop) (m : M A) :
  keeps_array m -> adds_to_array P m.
Proof.
  intros K w w' H. exists []. rewrite app_nil_r. split; [exact (K w w' H) | constructor].
Qed.

Lemma adds_bind {A B : Type} (P : Z * Object -> Prop) (m : M A) (k : A -> M B) :
  adds_to_array P m -> (forall a, adds_to_array P (k a)) -> adds_to_array P (bind m k).
Proof.
  intros Hm Hk w w' H. unfold bind in H.
  destruct (m w) as [a w1 | s w1 | w1 | ] eqn:E.
  - destruct (Hm w w1) as (more1 & E1 & F1); [rewrite E; reflexivity | ].
    destruct (Hk a w1 w' H) as (more2 & E2 & F2).
    exists (more1 ++ more2)%list. split.
    + rewrite E2, E1, app_assoc. reflexivity.
    + apply Forall_app. split; assumption.
  - apply Hm. rewrite E. exact H.
  - apply Hm. rewrite E. exact H.
  - discriminate.
Qed.

(** What was read into a sphere or a camera passed the checks, and the
    type of the object is not touched by its fields. *)
Lemma sphere_field_checked (key : string) (o o' : Object) (w w' : world) :
  sphere_field key o w = Done o' w' ->
  sphere_checked o -> sphere_checked o' /\ type o' = type o.
Proof.
  unfold sphere_field, sphere_checked. intros H [C R].
  field_returned H; cbn; auto.
Qed.

Lemma camera_field_checked (key : string) (o o' : Object) (w w' : world) :
  camera_field key o w = Done o' w' ->
  camera_checked o -> camera_checked o' /\ type o' = type o.
Proof.
  unfold camera_field, camera_checked. intros H [C R].
  field_returned H; cbn; auto.
Qed.

Lemma sphere_while_checked (fuel : nat) (o o' : Object) (w w' : world) :
  sphere_while fuel o w = Done o' w' ->
  sphere_checked o -> sphere_checked o' /\ type o' = type o.
Proof.
  revert o w. induction fuel as [ | fuel IH]; intros o w H Checked;
    cbn [sphere_while] in H; [discriminate | ].
  unfold bind in H.
  destruct (next_c w) as [c w1 | | | ]; try discriminate.
  destruct (c =? ch "}").
  { injection H as <- _. split; [exact Checked | reflexivity]. }
  destruct (c =? ch ","); [ | exact (IH _ _ H Checked)].
  destruct (read_key w1) as [key w2 | | | ]; try discriminate.
  destruct (sphere_field key o w2) as [o1 w3 | | | ] eqn:F; try discriminate.
  destruct (skip_ws w3) as [[] w4 | | | ]; try discriminate.
  destruct (sphere_field_checked _ _ _ _ _ F Checked) as [Checked1 T1].
  destruct (IH _ _ H Checked1) as [Checked' T']. split; [exact Checked' | congruence].
Qed.

Lemma camera_while_checked (fuel : nat) (key : string) (o o' : Object) (w w' : world) :
  camera_while fuel key o w = Done o' w' ->
  camera_checked o -> camera_checked o' /\ type o' = type o.
Proof.
  revert o w. induction fuel as [ | fuel IH]; intros o w H Checked;
    cbn [camera_while] in H; [discriminate | ].
  unfold bind in H.
  destruct (next_c w) as [c w1 | | | ]; try discriminate.
  destruct (c =? ch "}").
  { injection H as <- _. split; [exact Checked | reflexivity]. }
  destruct (c =? ch ","); [ | discriminate].
  destruct (read_key w1) as [key' w2 | | | ]; try discriminate.
  destruct (camera_field key' o w2) as [o1 w3 | | | ] eqn:F; try discriminate.
  destruct (skip_ws w3) as [[] w4 | | | ]; try discriminate.
  destruct (camera_field_checked _ _ _ _ _ F Checked) as [Checked1 T1].
  destruct (IH _ _ H Checked1) as [Checked' T']. split; [exact Checked' | congruence].
Qed.

(** A sphere that reaches line 403 and a camera that reaches line 309. *)
Lemma sphere_after_the_loop (fuel : nat) (value : string) (blank o : Object)
  (w w' : world) :
  sphere_while fuel
    (set_sphere_radiusGiven false
       (set_positionGiven false (set_colorGiven false (set_type value blank)))) w
  = Done o w' ->
  negb (positionGiven o) || negb (colorGiven o) || negb (sphere_radiusGiven o) = false ->
  sphere_is_complete o = true /\ type o = value /\ objectArray w' = objectArray w.
Proof.
  intros Loop Given.
  destruct (sphere_while_checked _ _ _ _ _ Loop) as [[C R] T].
  { split; intro H; discriminate H. }
  split; [ | split].
  - unfold sphere_is_complete.
    destruct (positionGiven o); [ | discriminate].
    destruct (colorGiven o); [ | discriminate].
    destruct (sphere_radiusGiven o); [ | discriminate].
    rewrite (C eq_refl), (R eq_refl). reflexivity.
  - exact T.
  - exact (keeps_sphere_while _ _ _ _ (f_equal final_world Loop)).
Qed.

Lemma camera_after_the_loop (fuel : nat) (key : string) (cam o : Object)
  (w w' : world) :
  camera_while fuel key
    (set_camera_widthGiven false (set_camera_heightGiven false cam)) w
  = Done o w' ->
  negb (camera_heightGiven o) || negb (camera_widthGiven o) = false ->
  camera_is_complete o = true /\ type o = type cam /\ objectArray w' = objectArray w.
Proof.
  intros Loop Given.
  destruct (camera_while_checked _ _ _ _ _ _ Loop) as [[C R] T].
  { split; intro H; discriminate H. }
  split; [ | split].
  - unfold camera_is_complete.
    destruct (camera_heightGiven o); [ | discriminate].
    destruct (camera_widthGiven o); [ | discriminate].
    rewrite (C eq_refl), (R eq_refl). reflexivity.
  - exact T.
  - exact (keeps_camera_while _ _ _ _ _ (f_equal final_world Loop)).
Qed.

(** The four branches add complete spheres and cameras in slots of the
    array, or nothing. *)
Lemma adds_sphere_branch (fuel : nat) (value : string) (i : Z) :
  adds_to_array well_stored (sphere_branch fuel value i).
Proof.
  intros w w' H. unfold sphere_branch, bind, declare_Object in H.
  destruct (sphere_while fuel _ _) as [o w1 | s w1 | w1 | ] eqn:Loop.
  - destruct (negb (positionGiven o) || negb (colorGiven o)
              || negb (sphere_radiusGiven o)) eqn:Given.
    + injection H as <-. exists []. rewrite app_nil_r. split; [ | constructor].
      exact (keeps_sphere_while _ _ _ _ (f_equal final_world Loop)).
    + destruct (sphere_after_the_loop _ _ _ _ _ _ Loop Given) as (Complete & _ & Same).
      cbn [set_decls objectArray] in Same. unfold store in H.
      destruct ((0 <=? i) && (i <? 1000)) eqn:Slot; injection H as <-.
      * exists [(i, o)]. cbn [set_objectArray objectArray]. rewrite Same.
        split; [reflexivity | ]. constructor; [ | constructor].
        split; [cbn [fst]; lia | left; exact Complete].
      * exists []. rewrite app_nil_r. split; [exact Same | constructor].
  - exists []. rewrite app_nil_r. split; [ | constructor].
    injection H as <-. exact (keeps_sphere_while _ _ _ _ (f_equal final_world Loop)).
  - exists []. rewrite app_nil_r. split; [ | constructor].
    injection H as <-. exact (keeps_sphere_while _ _ _ _ (f_equal final_world Loop)).
  - discriminate.
Qed.

Lemma adds_camera_branch (fuel : nat) (key : string) (cam : Object) (i : Z) :
  adds_to_array well_stored (camera_branch fuel key cam i).
Proof.
  intros w w' H. unfold camera_branch, bind in H.
  destruct (camera_while fuel key _ w) as [o w1 | s w1 | w1 | ] eqn:Loop.
  - destruct (negb (camera_heightGiven o) || negb (camera_widthGiven o)) eqn:Given.
    + injection H as <-. exists []. rewrite app_nil_r. split; [ | constructor].
      exact (keeps_camera_while _ _ _ _ _ (f_equal final_world Loop)).
    + destruct (camera_after_the_loop _ _ _ _ _ _ Loop Given) as (Complete & _ & Same).
      unfold store in H.
      destruct ((0 <=? i) && (i <? 1000)) eqn:Slot; injection H as <-.
      * exists [(i, o)]. cbn [set_objectArray objectArray]. rewrite Same.
        split; [reflexivity | ]. constructor; [ | constructor].
        split; [cbn [fst]; lia | right; exact Complete].
      * exists []. rewrite app_nil_r. split; [exact Same | constructor].
  - exists []. rewrite app_nil_r. split; [ | constructor].
    injection H as <-. exact (keeps_camera_while _ _ _ _ _ (f_equal final_world Loop)).
  - exists []. rewrite app_nil_r. split; [ | constructor].
    injection H as <-. exact (keeps_camera_while _ _ _ _ _ (f_equal final_world Loop)).
  - discriminate.
Qed.

Lemma keeps_light_branch (fuel : nat) (value : string) :
  keeps_array (light_branch fuel value).
Proof.
  unfold light_branch. apply keeps_bind; [apply keeps_declare_Object | intro o].
  apply keeps_bind; [apply keeps_light_while | intro o']. apply keeps_ret.
Qed.

Lemma keeps_plane_branch (fuel : nat) (value : string) (i : Z) :
  keeps_array (plane_branch fuel value i).
Proof.
  intros w w' H. unfold plane_branch, bind, declare_Object in H.
  destruct (plane_while fuel _ _) as [o w1 | s w1 | w1 | ] eqn:Loop.
  - pose proof (plane_while_keeps_colorGiven fuel _ o _ w1 Loop) as Colour.
    cbn in Colour. rewrite Colour in H. rewrite orb_true_r in H. cbn in H.
    injection H as <-.
    exact (keeps_plane_while _ _ _ _ (f_equal final_world Loop)).
  - injection H as <-. exact (keeps_plane_while _ _ _ _ (f_equal final_world Loop)).
  - injection H as <-. exact (keeps_plane_while _ _ _ _ (f_equal final_world Loop)).
  - discriminate.
Qed.

Ltac adds_step :=
  first
    [ assumption
    | solve [apply keeps_adds; keeps]
    | apply adds_bind; [ | intro ]
    | match goal with
      | |- adds_to_array _ (if ?b then _ else _) => destruct b
      end ].

Ltac adds := repeat adds_step.

Lemma adds_read_object (fuel : nat) (cam : Object) (i : Z) :
  adds_to_array well_stored (read_object fuel cam i).
Proof.
  pose proof keeps_skip_ws. pose proof keeps_next_string.
  pose proof (keeps_expect_c (ch ":")).
  unfold read_object.
  apply adds_bind; [adds | intros _].
  apply adds_bind; [adds | intro key].
  destruct (negb (same_string key "type")); [adds | ].
  apply adds_bind; [adds | intros _].
  apply adds_bind; [adds | intros _].
  apply adds_bind; [adds | intros _].
  apply adds_bind; [adds | intro value].
  apply adds_bind; [ | intro cam'; adds].
  destruct (same_string value "camera"); [apply adds_camera_branch | ].
  destruct (same_string value "sphere").
  { apply adds_bind; [apply adds_sphere_branch | intros _; adds]. }
  destruct (same_string value "plane").
  { apply keeps_adds, keeps_bind; [apply keeps_plane_branch | intros _; keeps]. }
  destruct (same_string value "light").
  { apply keeps_adds, keeps_bind; [apply keeps_light_branch | intros _; keeps]. }
  adds.
Qed.

Lemma adds_scene_while (fuel : nat) (cam : Object) (i : Z) :
  adds_to_array well_stored (scene_while fuel cam i).
Proof.
  revert cam i. induction fuel as [ | fuel IH]; intros cam i; cbn [scene_while].
  - adds.
  - apply adds_bind; [adds | intro c].
    destruct (c =? ch "]"); [adds | ].
    apply adds_bind; [ | intro cam'; apply IH].
    destruct (c =? ch "{"); [apply adds_read_object | adds].
Qed.

Lemma adds_read_scene (fuel : nat) (files : string -> option (list ascii))
  (filename : string) :
  adds_to_array well_stored (read_scene fuel files filename).
Proof.
  pose proof keeps_skip_ws. pose proof (keeps_expect_c (ch "[")).
  unfold read_scene.
  apply adds_bind; [adds | intro opened].
  destruct (negb opened); [adds | ].
  apply adds_bind; [adds | intros _].
  apply adds_bind; [adds | intros _].
  apply adds_bind; [adds | intros _].
  apply adds_bind; [adds | intro c].
  destruct (c =? ch "]"); [adds | ].
  apply adds_bind; [adds | intro cam]. apply adds_scene_while.
Qed.


(** X11.  A sphere branch that runs to its end has made one store: of
    an object whose type is the string that was read as the type, with
    position, colour and radius read and in range, in slot [i], which is
    one of the 1000. *)
Theorem sphere_branch_stores_what_it_read (fuel : nat) (value : string) (i : Z)
  (w : world) :
  returned (sphere_branch fuel value i w) = Some tt ->
  exists o : Object,
    stored (sphere_branch fuel value i w) = (objectArray w ++ [(i, o)])%list
    /\ type o = value
    /\ sphere_is_complete o = true
    /\ 0 <= i < 1000.
Proof.
  unfold sphere_branch, bind, declare_Object.
  destruct (sphere_while fuel _ _) as [o w1 | s w1 | w1 | ] eqn:Loop;
    try discriminate.
  destruct (negb (positionGiven o) || negb (colorGiven o)
            || negb (sphere_radiusGiven o)) eqn:Given; [discriminate | ].
  destruct (sphere_after_the_loop _ _ _ _ _ _ Loop Given) as (Complete & Kind & Same).
  cbn [set_decls objectArray] in Same. unfold store.
  destruct ((0 <=? i) && (i <? 1000)) eqn:Slot; [ | discriminate].
  intros _. exists o. unfold stored, final_world, set_objectArray.
  cbn [objectArray]. rewrite Same.
  split; [reflexivity | split; [exact Kind | split; [exact Complete | lia]]].
Qed.

(** The fields of a sphere, read for slot 5. *)
Lemma sphere_branch_stores_what_it_read_witness :
  exists o : Object,
    stored (sphere_branch 20 "sphere" 5
              (reading (scene_text ",'color':[1,2,3],'position':[0,0,-5],'radius':2}]")
                 (fun _ => blank_Object) (fun _ => 0%float)))
    = ([] ++ [(5, o)])%list
    /\ type o = "sphere"
    /\ sphere_is_complete o = true
    /\ 0 <= 5 < 1000.
Proof.
  exact (sphere_branch_stores_what_it_read 20 "sphere" 5
           (reading (scene_text ",'color':[1,2,3],'position':[0,0,-5],'radius':2}]")
              (fun _ => blank_Object) (fun _ => 0%float))
           eq_refl).
Defined.

(** X12.  A camera branch that runs to its end has made one store, in
    slot [i], which is one of the 1000: of the camera it hands back,
    whose width and height were read and are not under 1, and whose type
    is what it was before, for the branch does not set it. *)
Theorem camera_branch_stores_the_camera (fuel : nat) (key : string) (cam cam' : Object)
  (i : Z) (w : world) :
  returned (camera_branch fuel key cam i w) = Some cam' ->
  stored (camera_branch fuel key cam i w) = (objectArray w ++ [(i, cam')])%list
  /\ camera_is_complete cam' = true
  /\ type cam' = type cam
  /\ 0 <= i < 1000.
Proof.
  unfold camera_branch, bind.
  destruct (camera_while fuel key _ w) as [o w1 | s w1 | w1 | ] eqn:Loop;
    try discriminate.
  destruct (negb (camera_heightGiven o) || negb (camera_widthGiven o)) eqn:Given;
    [discriminate | ].
  destruct (camera_after_the_loop _ _ _ _ _ _ Loop Given) as (Complete & Kind & Same).
  unfold store.
  destruct ((0 <=? i) && (i <? 1000)) eqn:Slot; [ | discriminate].
  cbn [ret returned]. intro H. injection H as <-.
  unfold stored, final_world, set_objectArray. cbn [objectArray]. rewrite Same.
  split; [reflexivity | split; [exact Complete | split; [exact Kind | lia]]].
Qed.

(** The fields of a camera, read for slot 0 into an object whose type
    is the empty string. *)
Lemma camera_branch_stores_the_camera_witness :
  stored (camera_branch 20 "type" blank_Object 0
            (reading (scene_text ",'width':2,'height':3}]")
               (fun _ => blank_Object) (fun _ => 0%float)))
  = ([] ++ [(0, set_camera_height 3 (set_camera_width 2
                   (set_camera_heightGiven true
                      (set_camera_widthGiven true blank_Object))))])%list
  /\ camera_is_complete
       (set_camera_height 3 (set_camera_width 2
          (set_camera_heightGiven true (set_camera_widthGiven true blank_Object))))
     = true
  /\ type (set_camera_height 3 (set_camera_width 2
             (set_camera_heightGiven true (set_camera_widthGiven true blank_Object))))
     = type blank_Object
  /\ 0 <= 0 < 1000.
Proof.
  exact (camera_branch_stores_the_camera 20 "type" blank_Object
           (set_camera_height 3 (set_camera_width 2
              (set_camera_heightGiven true (set_camera_widthGiven true blank_Object))))
           0
           (reading (scene_text ",'width':2,'height':3}]")
              (fun _ => blank_Object) (fun _ => 0%float))
           eq_refl).
Defined.

(** X13.  What is read of a plane or of a light is dropped: however
    the plane branch and the light branch end, the array is as it
    was. *)
Theorem planes_and_lights_are_dropped (fuel : nat) (value : string) (i : Z) (w : world) :
  match final_world (plane_branch fuel value i w) with
  | Some w' => objectArray w' = objectArray w
  | None => plane_branch fuel value i w = OutOfFuel
  end
  /\ match final_world (light_branch fuel value w) with
     | Some w' => objectArray w' = objectArray w
     | None => light_branch fuel value w = OutOfFuel
     end.
Proof.
  split.
  - pose proof (keeps_plane_branch fuel value i w) as K.
    destruct (plane_branch fuel value i w) as [a w' | s w' | w' | ];
      cbn [final_world] in *; try (apply K; reflexivity). reflexivity.
  - pose proof (keeps_light_branch fuel value w) as K.
    destruct (light_branch fuel value w) as [a w' | s w' | w' | ];
      cbn [final_world] in *; try (apply K; reflexivity). reflexivity.
Qed.

End Array.

(* ================================================================== *)
(** * Part XVI: fields given twice                                     *)
(* ================================================================== *)

Section Repetitions.
Local Open Scope prog_scope.

Lemma refuses_after_message (A : Type) (m : message) (w : world) :
  classify m = Spec.DuplicateField ->
  refuses_repetition (@Exit A 1 (set_stderr (stderr w ++ [m]) w)).
Proof.
  intro C. split; [reflexivity | ]. rewrite failure_after_message, C. reflexivity.
Qed.

(** The flags of a sphere, of a camera, of a light and of a plane are
    never taken back by a field. *)
Lemma sphere_field_flags (key : string) (o o' : Object) (w w' : world) :
  sphere_field key o w = Done o' w' ->
  (colorGiven o = true -> colorGiven o' = true)
  /\ (sphere_radiusGiven o = true -> sphere_radiusGiven o' = true)
  /\ (positionGiven o = true -> positionGiven o' = true).
Proof.
  unfold sphere_field. intro H. field_returned H; cbn; auto.
Qed.

Lemma camera_field_flags (key : string) (o o' : Object) (w w' : world) :
  camera_field key o w = Done o' w' ->
  (camera_widthGiven o = true -> camera_widthGiven o' = true)
  /\ (camera_heightGiven o = true -> camera_heightGiven o' = true).
Proof.
  unfold camera_field. intro H. field_returned H; cbn; auto.
Qed.

Lemma light_field_flags (key : string) (o o' : Object) (w w' : world) :
  light_field key o w = Done o' w' ->
  (colorGiven o = true -> colorGiven o' = true)
  /\ (plane_normalGiven o = true -> plane_normalGiven o' = true)
  /\ (positionGiven o = true -> positionGiven o' = true).
Proof.
  unfold light_field. intro H. field_returned H; cbn; auto.
Qed.

Lemma plane_field_flags (key : string) (o o' : Object) (w w' : world) :
  plane_field key o w = Done o' w' ->
  (plane_normalGiven o = true -> plane_normalGiven o' = true)
  /\ (positionGiven o = true -> positionGiven o' = true).
Proof.
  unfold plane_field. intro H. field_returned H; cbn; auto.
Qed.

(** A field that was read has its flag set. *)
Lemma sphere_field_sets (o o' : Object) (w w' : world) :
  (sphere_field "color" o w = Done o' w' -> colorGiven o' = true)
  /\ (sphere_field "radius" o w = Done o' w' -> sphere_radiusGiven o' = true)
  /\ (sphere_field "position" o w = Done o' w' -> positionGiven o' = true).
Proof.
  unfold sphere_field. cbn [same_string String.eqb Ascii.eqb Bool.eqb].
  split; [ | split]; intro H; field_returned H; reflexivity.
Qed.

Lemma camera_field_sets (o o' : Object) (w w' : world) :
  (camera_field "width" o w = Done o' w' -> camera_widthGiven o' = true)
  /\ (camera_field "height" o w = Done o' w' -> camera_heightGiven o' = true).
Proof.
  unfold camera_field. cbn [same_string String.eqb Ascii.eqb Bool.eqb].
  split; intro H; field_returned H; reflexivity.
Qed.

Lemma light_field_sets (o o' : Object) (w w' : world) :
  (light_field "color" o w = Done o' w' -> colorGiven o' = true)
  /\ (light_field "normal" o w = Done o' w' -> plane_normalGiven o' = true)
  /\ (light_field "position" o w = Done o' w' -> positionGiven o' = true).
Proof.
  unfold light_field. cbn [same_string String.eqb Ascii.eqb Bool.eqb].
  split; [ | split]; intro H; field_returned H; reflexivity.
Qed.

Lemma plane_field_sets (o o' : Object) (w w' : world) :
  (plane_field EmptyString o w = Done o' w' -> plane_normalGiven o' = true)
  /\ (plane_field "position" o w = Done o' w' -> positionGiven o' = true).
Proof.
  unfold plane_field. cbn [same_string String.eqb Ascii.eqb Bool.eqb].
  split; intro H; field_returned H; reflexivity.
Qed.

(** A field whose flag is set is refused. *)
Lemma sphere_field_refuses (o : Object) (w : world) :
  (colorGiven o = true -> refuses_repetition (sphere_field "color" o w))
  /\ (sphere_radiusGiven o = true -> refuses_repetition (sphere_field "radius" o w))
  /\ (positionGiven o = true -> refuses_repetition (sphere_field "position" o w)).
Proof.
  unfold sphere_field. cbn [same_string String.eqb Ascii.eqb Bool.eqb].
  split; [ | split]; intros ->; now apply refuses_after_message.
Qed.

Lemma camera_field_refuses (o : Object) (w : world) :
  (camera_widthGiven o = true -> refuses_repetition (camera_field "width" o w))
  /\ (camera_heightGiven o = true -> refuses_repetition (camera_field "height" o w)).
Proof.
  unfold camera_field. cbn [same_string String.eqb Ascii.eqb Bool.eqb].
  split; intros ->; now apply refuses_after_message.
Qed.

Lemma light_field_refuses (o : Object) (w : world) :
  (colorGiven o = true -> refuses_repetition (light_field "color" o w))
  /\ (plane_normalGiven o = true -> refuses_repetition (light_field "normal" o w))
  /\ (positionGiven o = true -> refuses_repetition (light_field "position" o w)).
Proof.
  unfold light_field. cbn [same_string String.eqb Ascii.eqb Bool.eqb].
  split; [ | split]; intros ->; now apply refuses_after_message.
Qed.

Lemma plane_field_refuses (o : Object) (w : world) :
  (plane_normalGiven o = true -> refuses_repetition (plane_field EmptyString o w))
  /\ (positionGiven o = true -> refuses_repetition (plane_field "position" o w)).
Proof.
  unfold plane_field. cbn [same_string String.eqb Ascii.eqb Bool.eqb].
  split; intros ->; now apply refuses_after_message.
Qed.

(** X14.  No field is read twice into one object: once [color],
    [radius] or [position] of a sphere, [width] or [height] of a camera,
    [color], [normal] or [position] of a light, or the empty key or
    [position] of a plane was read, the same key again ends the process
    with status 1 and a message that the specification calls
    DuplicateField, whether it comes next or after another field.  (The
    [color] of a plane is not in the list.) *)
Theorem fields_are_read_once :
  read_once sphere_field ["color"; "radius"; "position"]
  /\ read_once camera_field ["width"; "height"]
  /\ read_once light_field ["color"; "normal"; "position"]
  /\ read_once plane_field [EmptyString; "position"].
Proof.
  split; [ | split; [ | split]]; intros key o o1 w w1 Key Read.
  - split.
    + intro w2. destruct Key as [<- | [<- | [<- | []]]];
        apply sphere_field_refuses; eapply sphere_field_sets; eassumption.
    + intros other o2 w2 w3 Other w4.
      destruct (sphere_field_flags _ _ _ _ _ Other) as (C & R & P).
      destruct Key as [<- | [<- | [<- | []]]]; apply sphere_field_refuses;
        [apply C | apply R | apply P]; eapply sphere_field_sets; eassumption.
  - split.
    + intro w2. destruct Key as [<- | [<- | []]];
        apply camera_field_refuses; eapply camera_field_sets; eassumption.
    + intros other o2 w2 w3 Other w4.
      destruct (camera_field_flags _ _ _ _ _ Other) as (C & R).
      destruct Key as [<- | [<- | []]]; apply camera_field_refuses;
        [apply C | apply R]; eapply camera_field_sets; eassumption.
  - split.
    + intro w2. destruct Key as [<- | [<- | [<- | []]]];
        apply light_field_refuses; eapply light_field_sets; eassumption.
    + intros other o2 w2 w3 Other w4.
      destruct (light_field_flags _ _ _ _ _ Other) as (C & R & P).
      destruct Key as [<- | [<- | [<- | []]]]; apply light_field_refuses;
        [apply C | apply R | apply P]; eapply light_field_sets; eassumption.
  - split.
    + intro w2. destruct Key as [<- | [<- | []]];
        apply plane_field_refuses; eapply plane_field_sets; eassumption.
    + intros other o2 w2 w3 Other w4.
      destruct (plane_field_flags _ _ _ _ _ Other) as (C & R).
      destruct Key as [<- | [<- | []]]; apply plane_field_refuses;
        [apply C | apply R]; eapply plane_field_sets; eassumption.
Qed.

(** The radius of a sphere, read once and met again. *)
Lemma fields_are_read_once_witness :
  refuses_repetition
    (sphere_field "radius"
       (set_sphere_radius 1%float (set_sphere_radiusGiven true blank_Object))
       (reading (scene_text "3}") (fun _ => blank_Object) (fun _ => 0%float))).
Proof.
  exact (proj1 (proj1 fields_are_read_once "radius" blank_Object
                  (set_sphere_radius 1%float (set_sphere_radiusGiven true blank_Object))
                  (reading (scene_text "1}") (fun _ => blank_Object) (fun _ => 0%float))
                  (set_decls 1 (reading (scene_text "}") (fun _ => blank_Object)
                                  (fun _ => 0%float)))
                  (or_intror (or_introl eq_refl)) eq_refl)
           (reading (scene_text "3}") (fun _ => blank_Object) (fun _ => 0%float))).
Defined.

End Repetitions.

(* ================================================================== *)
(** * Part XVII: the loop of line 218 on any text                      *)
(* ================================================================== *)

Section OuterLoop.
Local Open Scope prog_scope.

(** One turn for every character that is neither the closing bracket
    nor an opening brace. *)
Lemma scene_while_passes_over (junk : list ascii) :
  forall (fuel : nat) (cam : Object) (i : Z) (tail : list ascii) (e r cl : bool) (l : Z)
         (err : list message) (arr : list (Z * Object))
         (so : nat -> Object) (sd : nat -> float) (d : nat),
    Forall (fun a => passed_over a = true) junk ->
    scene_while (List.length junk + fuel) cam i
      (mkWorld (mkFILE (junk ++ tail) e r cl) l err arr so sd d)
    = scene_while fuel cam (turns (List.length junk) i)
        (mkWorld (mkFILE tail e r cl) l err arr so sd d).
Proof.
  induction junk as [ | a junk IH];
    intros fuel cam i tail e r cl l err arr so sd d Hjunk; [reflexivity | ].
  inversion Hjunk as [ | ? ? Ha Hjunk']; subst.
  unfold passed_over in Ha. apply andb_true_iff in Ha. destruct Ha as [B O].
  apply negb_true_iff in B, O.
  cbn [List.length Nat.add app scene_while]. unfold bind, fgetc, set_json.
  cbn [json unread eof_ind err_ind closed line stderr objectArray
       stack_Object stack_double decls].
  rewrite B, O. cbn [ret].
  rewrite IH by assumption. unfold turns. rewrite Nat.iter_succ_r. reflexivity.
Qed.

Lemma scene_while_runs_out (junk : list ascii) :
  forall (fuel : nat) (cam : Object) (i : Z) (e r cl : bool) (l : Z)
         (err : list message) (arr : list (Z * Object))
         (so : nat -> Object) (sd : nat -> float) (d : nat),
    Forall (fun a => passed_over a = true) junk ->
    scene_while fuel cam i (mkWorld (mkFILE junk e r cl) l err arr so sd d) = OutOfFuel.
Proof.
  induction junk as [ | a junk IH];
    intros fuel cam i e r cl l err arr so sd d Hjunk.
  - apply scene_while_turns_at_end. reflexivity.
  - destruct fuel as [ | fuel]; [reflexivity | ].
    inversion Hjunk as [ | ? ? Ha Hjunk']; subst.
    unfold passed_over in Ha. apply andb_true_iff in Ha. destruct Ha as [B O].
    apply negb_true_iff in B, O.
    cbn [scene_while]. unfold bind, fgetc, set_json.
    cbn [json unread eof_ind err_ind closed line stderr objectArray
         stack_Object stack_double decls].
    rewrite B, O. cbn [ret]. apply IH. assumption.
Qed.

(** [read_scene] up to the loop of line 218: the white space, the
    opening bracket, and the character that line 203 reads. *)
Lemma read_scene_up_to_the_loop (fuel : nat) (before inside : list ascii) (a : ascii)
  (tail : list ascii) (uninit_Object : nat -> Object) (uninit_double : nat -> float) :
  Forall (fun x => isspace (code x) = true) before ->
  Forall (fun x => isspace (code x) = true) inside ->
  isspace (code a) = false ->
  (code a =? ch "]") = false ->
  1 + line_feeds before + line_feeds inside < 2 ^ 31 ->
  run fuel (before ++ "["%char :: inside ++ a :: tail)%list uninit_Object uninit_double
  = scene_while fuel
      (set_camera_width (-1)%float (set_camera_height (-1)%float (uninit_Object 0%nat)))
      0
      (mkWorld (mkFILE tail false false false)
         (1 + line_feeds before + line_feeds inside) [] []
         uninit_Object uninit_double 1).
Proof.
  intros Hbefore Hinside Ha Hb Hlines.
  pose proof (line_feeds_nonneg before). pose proof (line_feeds_nonneg inside).
  unfold run, read_scene, initial_world. unfold bind at 1. unfold fopen, set_json.
  cbn [negb json line stderr objectArray stack_Object stack_double decls].
  unfold bind at 1.
  rewrite (skip_ws_over before ("["%char :: inside ++ a :: tail))
    by (try assumption; try reflexivity; lia).
  unfold bind at 1. rewrite expect_c_reads by reflexivity.
  unfold bind at 1.
  rewrite (skip_ws_over inside (a :: tail)) by (try assumption; lia).
  unfold bind at 1. unfold fgetc, set_json.
  cbn [json unread eof_ind err_ind closed line stderr objectArray
       stack_Object stack_double decls].
  rewrite Hb. unfold bind, declare_Object, set_decls.
  cbn [json line stderr objectArray stack_Object stack_double decls].
  reflexivity.
Qed.

(** X15.  The first object of the array is not read.  Line 203 takes
    the character behind the opening bracket, the brace of the first
    object as a rule, and the loop of line 218 then passes over
    everything up to the next closing bracket or opening brace.  So on a
    text with no further brace before the first closing bracket the
    process ends at that bracket with [exit(0)]: nothing was written,
    nothing stored, [line] counts only the line feeds in front of the
    first object, and what follows the bracket is left unread. *)
Theorem first_object_is_not_read (extra : nat) (before inside : list ascii) (a : ascii)
  (body after : list ascii) (uninit_Object : nat -> Object) (uninit_double : nat -> float) :
  Forall (fun x => isspace (code x) = true) before ->
  Forall (fun x => isspace (code x) = true) inside ->
  isspace (code a) = false ->
  (code a =? ch "]") = false ->
  Forall (fun x => passed_over x = true) body ->
  1 + line_feeds before + line_feeds inside < 2 ^ 31 ->
  run (S (List.length body) + extra)
    (before ++ "["%char :: inside ++ a :: body ++ "]"%char :: after)%list
    uninit_Object uninit_double
  = Exit 0
      (mkWorld (mkFILE after false false true)
         (1 + line_feeds before + line_feeds inside) [] []
         uninit_Object uninit_double 1).
Proof.
  intros Hbefore Hinside Ha Hb Hbody Hlines.
  rewrite read_scene_up_to_the_loop by assumption.
  replace (S (List.length body) + extra)%nat with (List.length body + S extra)%nat by lia.
  rewrite scene_while_passes_over by assumption.
  reflexivity.
Qed.

(** A sphere with a radius of -5 and a colour out of range as the first
    object, on the third line of the text. *)
Lemma first_object_is_not_read_witness :
  run 100
    (newline :: newline
     :: scene_text "[ {'type':'sphere','radius':-5,'color':[1,2,999],'position':7} ] rest")
    (fun _ => blank_Object) (fun _ => 0%float)
  = Exit 0
      (mkWorld (mkFILE (scene_text ",'position':7} ] rest") false false true) 3 [] []
         (fun _ => blank_Object) (fun _ => 0%float) 1).
Proof.
  exact (first_object_is_not_read 55 [newline; newline] [" "%char] "{"%char
           (scene_text "'type':'sphere','radius':-5,'color':[1,2,999")
           (scene_text ",'position':7} ] rest")
           (fun _ => blank_Object) (fun _ => 0%float)
           ltac:(repeat constructor) ltac:(repeat constructor) eq_refl eq_refl
           ltac:(repeat constructor) ltac:(cbn; lia)).
Defined.

(** X16.  A text that breaks off before any closing bracket or further
    opening brace: the reader does not end, on any budget.  At the end
    of the stream [fgetc] answers [EOF] on every turn of the loop of
    line 218, and [EOF] is neither the bracket nor the brace. *)
Theorem text_without_closing_bracket_never_ends (fuel : nat)
  (before inside : list ascii) (a : ascii) (body : list ascii)
  (uninit_Object : nat -> Object) (uninit_double : nat -> float) :
  Forall (fun x => isspace (code x) = true) before ->
  Forall (fun x => isspace (code x) = true) inside ->
  isspace (code a) = false ->
  (code a =? ch "]") = false ->
  Forall (fun x => passed_over x = true) body ->
  1 + line_feeds before + line_feeds inside < 2 ^ 31 ->
  run fuel (before ++ "["%char :: inside ++ a :: body)%list uninit_Object uninit_double
  = OutOfFuel.
Proof.
  intros Hbefore Hinside Ha Hb Hbody Hlines.
  rewrite read_scene_up_to_the_loop by assumption.
  apply scene_while_runs_out. assumption.
Qed.

(** A camera whose closing brace and bracket are missing. *)
Lemma text_without_closing_bracket_never_ends_witness :
  run 1000 (scene_text "[{'type':'camera','width':1,'height':1")
    (fun _ => blank_Object) (fun _ => 0%float)
  = OutOfFuel.
Proof.
  exact (text_without_closing_bracket_never_ends 1000 [] [] "{"%char
           (scene_text "'type':'camera','width':1,'height':1")
           (fun _ => blank_Object) (fun _ => 0%float)
           ltac:(constructor) ltac:(constructor) eq_refl eq_refl
           ltac:(repeat constructor) ltac:(cbn; lia)).
Defined.

End OuterLoop.

(* ================================================================== *)
(** * Part XVIII: the head of an object                                *)
(* ================================================================== *)

Section ObjectHead.
Local Open Scope prog_scope.

(** X17.  An object has to begin with the key [type]: behind the brace,
    white space and a quoted string that is not [type] end the process
    with status 1 and the message of line 232, which names the line the
    string is on.  The comparison is that of [strcmp]: [Type] is not
    [type]. *)
Theorem object_must_begin_with_type (fuel : nat) (cam : Object) (i : Z)
  (ws key rest : list ascii) (e r cl : bool) (l : Z) (err : list message)
  (arr : list (Z * Object)) (so : nat -> Object) (sd : nat -> float) (d : nat) :
  Forall (fun x => isspace (code x) = true) ws ->
  Forall (fun x => string_character x = true) key ->
  (List.length key <= 128)%nat ->
  - 2 ^ 31 <= l -> l + line_feeds ws < 2 ^ 31 ->
  string_of_list_ascii key <> "type" ->
  read_object fuel cam i
    (mkWorld (mkFILE (ws ++ dquote :: key ++ dquote :: rest) e r cl) l err arr so sd d)
  = Exit 1
      (mkWorld (mkFILE rest false r cl) (l + line_feeds ws)
         (err ++ [ExpectedTypeKeyOnLine (l + line_feeds ws)])%list arr so sd d).
Proof.
  intros Hws Hkey Hlen Hlow Hhigh Hother.
  unfold read_object. unfold bind at 1.
  rewrite (skip_ws_over ws (dquote :: key ++ dquote :: rest))
    by (try assumption; reflexivity).
  unfold bind at 1. rewrite next_string_quoted by assumption.
  apply String.eqb_neq in Hother. unfold same_string. rewrite Hother.
  reflexivity.
Qed.

(** The key [Type] on the second line. *)
Lemma object_must_begin_with_type_witness :
  read_object 50 blank_Object 0
    (reading (newline :: scene_text " 'Type':'sphere'}]")
       (fun _ => blank_Object) (fun _ => 0%float))
  = Exit 1
      (set_stderr [ExpectedTypeKeyOnLine 2]
         (set_line 2
            (reading (scene_text ":'sphere'}]") (fun _ => blank_Object)
               (fun _ => 0%float)))).
Proof.
  exact (object_must_begin_with_type 50 blank_Object 0 [newline; " "%char]
           (list_ascii_of_string "Type") (scene_text ":'sphere'}]")
           false false false 1 [] [] (fun _ => blank_Object) (fun _ => 0%float) 0
           ltac:(repeat constructor) ltac:(repeat constructor)
           ltac:(cbn; lia) ltac:(lia) ltac:(cbn; lia) ltac:(discriminate)).
Defined.

(** [read_object] up to the branch on the type: the key [type], the
    colon, the value, and the white space around them. *)
Lemma read_object_head (fuel : nat) (cam : Object) (i : Z)
  (ws1 ws2 ws3 value rest : list ascii) (e r cl : bool) (l : Z) (err : list message)
  (arr : list (Z * Object)) (so : nat -> Object) (sd : nat -> float) (d : nat) :
  Forall (fun x => isspace (code x) = true) ws1 ->
  Forall (fun x => isspace (code x) = true) ws2 ->
  Forall (fun x => isspace (code x) = true) ws3 ->
  Forall (fun x => string_character x = true) value ->
  (List.length value <= 128)%nat ->
  - 2 ^ 31 <= l -> l + line_feeds ws1 + line_feeds ws2 + line_feeds ws3 < 2 ^ 31 ->
  read_object fuel cam i
    (mkWorld
       (mkFILE (ws1 ++ scene_text "'type'" ++ ws2 ++ ":"%char :: ws3
                ++ dquote :: value ++ dquote :: rest) e r cl)
       l err arr so sd d)
  = (cam' <-
       (let value := string_of_list_ascii value in
        if same_string value "camera" then camera_branch fuel "type" cam i
        else if same_string value "sphere" then sphere_branch fuel value i ;; ret cam
        else if same_string value "plane" then plane_branch fuel value i ;; ret cam
        else if same_string value "light" then light_branch fuel value ;; ret cam
        else l <- get_line ;; fprintf (UnknownTypeOnLine value l) ;; exit 1) ;;
     skip_ws ;;
     ret cam')
      (mkWorld (mkFILE rest false r cl)
         (l + line_feeds ws1 + line_feeds ws2 + line_feeds ws3) err arr so sd d).
Proof.
  intros H1 H2 H3 Hvalue Hlen Hlow Hhigh.
  pose proof (line_feeds_nonneg ws1). pose proof (line_feeds_nonneg ws2).
  pose proof (line_feeds_nonneg ws3).
  set (tail := (ws2 ++ ":"%char :: ws3 ++ dquote :: value ++ dquote :: rest)%list).
  change (scene_text "'type'" ++ tail)%list
    with (dquote :: list_ascii_of_string "type" ++ dquote :: tail)%list.
  subst tail.
  unfold read_object. unfold bind at 1.
  rewrite (skip_ws_over ws1) by (try assumption; try reflexivity; lia).
  unfold bind at 1.
  rewrite (next_string_quoted (list_ascii_of_string "type"))
    by (repeat constructor; cbn; lia).
  change (string_of_list_ascii (list_ascii_of_string "type")) with "type".
  change (negb (same_string "type" "type")) with false. cbv iota.
  unfold bind at 1.
  rewrite (skip_ws_over ws2) by (try assumption; try reflexivity; lia).
  unfold bind at 1. rewrite expect_c_reads by reflexivity.
  unfold bind at 1.
  rewrite (skip_ws_over ws3) by (try assumption; try reflexivity; lia).
  unfold bind at 1. rewrite next_string_quoted by assumption.
  reflexivity.
Qed.

(** X18.  The value of [type] has to be one of [camera], [sphere],
    [plane] and [light], spelled so: behind the key [type], a colon and
    any white space around them, another quoted string ends the process
    with status 1 and the message of line 573, which names the string
    and the line it is on, and which the specification calls
    UnknownType. *)
Theorem unknown_type_is_refused (fuel : nat) (cam : Object) (i : Z)
  (ws1 ws2 ws3 value rest : list ascii) (e r cl : bool) (l : Z) (err : list message)
  (arr : list (Z * Object)) (so : nat -> Object) (sd : nat -> float) (d : nat) :
  Forall (fun x => isspace (code x) = true) ws1 ->
  Forall (fun x => isspace (code x) = true) ws2 ->
  Forall (fun x => isspace (code x) = true) ws3 ->
  Forall (fun x => string_character x = true) value ->
  (List.length value <= 128)%nat ->
  - 2 ^ 31 <= l -> l + line_feeds ws1 + line_feeds ws2 + line_feeds ws3 < 2 ^ 31 ->
  ~ In (string_of_list_ascii value) ["camera"; "sphere"; "plane"; "light"] ->
  let o :=
    read_object fuel cam i
      (mkWorld
         (mkFILE (ws1 ++ scene_text "'type'" ++ ws2 ++ ":"%char :: ws3
                  ++ dquote :: value ++ dquote :: rest) e r cl)
         l err arr so sd d) in
  o = Exit 1
        (mkWorld (mkFILE rest false r cl)
           (l + line_feeds ws1 + line_feeds ws2 + line_feeds ws3)
           (err ++ [UnknownTypeOnLine (string_of_list_ascii value)
                      (l + line_feeds ws1 + line_feeds ws2 + line_feeds ws3)])%list
           arr so sd d)
  /\ failure o = Some Spec.UnknownType.
Proof.
  intros H1 H2 H3 Hvalue Hlen Hlow Hhigh Hother o.
  assert (E : o = Exit 1
        (mkWorld (mkFILE rest false r cl)
           (l + line_feeds ws1 + line_feeds ws2 + line_feeds ws3)
           (err ++ [UnknownTypeOnLine (string_of_list_ascii value)
                      (l + line_feeds ws1 + line_feeds ws2 + line_feeds ws3)])%list
           arr so sd d)).
  { subst o. rewrite read_object_head by assumption. cbv zeta.
    unfold same_string.
    destruct (String.eqb_spec (string_of_list_ascii value) "camera") as [Eq | _];
      [exfalso; apply Hother; rewrite Eq; cbn; tauto | ].
    destruct (String.eqb_spec (string_of_list_ascii value) "sphere") as [Eq | _];
      [exfalso; apply Hother; rewrite Eq; cbn; tauto | ].
    destruct (String.eqb_spec (string_of_list_ascii value) "plane") as [Eq | _];
      [exfalso; apply Hother; rewrite Eq; cbn; tauto | ].
    destruct (String.eqb_spec (string_of_list_ascii value) "light") as [Eq | _];
      [exfalso; apply Hother; rewrite Eq; cbn; tauto | ].
    reflexivity. }
  split; [exact E | ]. rewrite E.
  unfold failure. cbn [stderr Z.eqb]. rewrite rev_unit. reflexivity.
Qed.

(** The type [Sphere], on the line after the key. *)
Lemma unknown_type_is_refused_witness :
  let o :=
    read_object 50 blank_Object 0
      (reading (scene_text "'type' :" ++ newline :: scene_text "'Sphere','radius':2}]")
         (fun _ => blank_Object) (fun _ => 0%float)) in
  o = Exit 1
        (set_stderr [UnknownTypeOnLine "Sphere" 2]
           (set_line 2
              (reading (scene_text ",'radius':2}]") (fun _ => blank_Object)
                 (fun _ => 0%float))))
  /\ failure o = Some Spec.UnknownType.
Proof.
  exact (unknown_type_is_refused 50 blank_Object 0 [] [" "%char] [newline]
           (list_ascii_of_string "Sphere") (scene_text ",'radius':2}]")
           false false false 1 [] [] (fun _ => blank_Object) (fun _ => 0%float) 0
           ltac:(constructor) ltac:(repeat constructor) ltac:(repeat constructor)
           ltac:(repeat constructor) ltac:(cbn; lia) ltac:(lia) ltac:(cbn; lia)
           ltac:(cbn; intros [H | [H | [H | [H | []]]]]; discriminate H)).
Defined.

End ObjectHead.

(* ================================================================== *)
(** * Part XIX: the slot an object is stored in                        *)
(* ================================================================== *)

Section Slots.
Local Open Scope prog_scope.

Lemma turns_in_range (n : nat) (i : Z) :
  0 <= i -> i + Z.of_nat n < 2 ^ 31 -> turns n i = i + Z.of_nat n.
Proof.
  revert i. induction n as [ | n IH]; intros i Hlow Hhigh.
  - cbn. lia.
  - unfold turns. rewrite Nat.iter_succ_r. fold (turns n (wrap_int (i + 1))).
    rewrite wrap_int_in_range by lia. rewrite IH by lia. lia.
Qed.

(** The loop of line 322 on the fields of [sphere_object_text]. *)
Lemma sphere_loop_on_the_text (after : list ascii)
  (so : nat -> Object) (sd : nat -> float) :
  sphere_while 20
    (set_sphere_radiusGiven false
       (set_positionGiven false (set_colorGiven false (set_type "sphere" (so 1%nat)))))
    (mkWorld
       (mkFILE (scene_text ",'color':[1,2,3],'position':[0,0,-5],'radius':2}"
                ++ "]"%char :: after) false false false)
       1 [] [] so sd 2)
  = Done (sphere_read (so 1%nat))
      (mkWorld (mkFILE ("]"%char :: after) false false false) 1 [] [] so sd 9).
Proof. vm_compute. reflexivity. Qed.

(** The sphere branch on that text comes to the store of line 403. *)
Lemma sphere_branch_on_the_text (fuel : nat) (i : Z) (after : list ascii)
  (so : nat -> Object) (sd : nat -> float) :
  sphere_branch (20 + fuel) "sphere" i
    (mkWorld
       (mkFILE (scene_text ",'color':[1,2,3],'position':[0,0,-5],'radius':2}"
                ++ "]"%char :: after) false false false)
       1 [] [] so sd 1)
  = store i (sphere_read (so 1%nat))
      (mkWorld (mkFILE ("]"%char :: after) false false false) 1 [] [] so sd 9).
Proof.
  unfold sphere_branch. unfold bind at 1. unfold declare_Object, set_decls.
  cbn [json line stderr objectArray stack_Object stack_double decls].
  unfold bind at 1.
  rewrite (sphere_while_fuel 20%nat (20 + fuel)%nat)
    by (first [lia | rewrite sphere_loop_on_the_text; discriminate]).
  rewrite sphere_loop_on_the_text. reflexivity.
Qed.

(** [read_object] on the text, up to the same store. *)
Lemma read_object_on_the_text (fuel : nat) (cam : Object) (i : Z) (after : list ascii)
  (so : nat -> Object) (sd : nat -> float) :
  read_object (20 + fuel) cam i
    (mkWorld (mkFILE (sphere_object_text ++ "]"%char :: after) false false false)
       1 [] [] so sd 1)
  = (store i (sphere_read (so 1%nat)) ;; ret cam)
      (mkWorld (mkFILE ("]"%char :: after) false false false) 1 [] [] so sd 9).
Proof.
  assert (Text : (sphere_object_text ++ "]"%char :: after)%list
                 = ([] ++ scene_text "'type'" ++ [] ++ ":"%char :: []
                    ++ dquote :: list_ascii_of_string "sphere" ++ dquote
                    :: scene_text ",'color':[1,2,3],'position':[0,0,-5],'radius':2}"
                    ++ "]"%char :: after)%list) by reflexivity.
  rewrite Text.
  rewrite read_object_head
    by (try constructor; try (repeat constructor; fail); cbn; lia).
  cbv zeta.
  replace (string_of_list_ascii (list_ascii_of_string "sphere")) with "sphere"
    by reflexivity.
  replace (same_string "sphere" "camera") with false by reflexivity.
  replace (same_string "sphere" "sphere") with true by reflexivity.
  replace (1 + line_feeds [] + line_feeds [] + line_feeds []) with 1 by reflexivity.
  unfold bind. rewrite sphere_branch_on_the_text.
  unfold store. destruct ((0 <=? i) && (i <? 1000)); [ | reflexivity].
  unfold ret, set_objectArray.
  cbn [json line stderr objectArray stack_Object stack_double decls].
  rewrite (skip_ws_over [] ("]"%char :: after)) by (try constructor; cbn; lia).
  cbn [line_feeds]. rewrite Z.add_0_r. reflexivity.
Qed.

(** The run on a text that has the sphere behind [n] characters that
    are passed over, as a whole. *)
Lemma run_on_sphere_behind (extra : nat) (a : ascii) (body after : list ascii)
  (uninit_Object : nat -> Object) (uninit_double : nat -> float) :
  isspace (code a) = false ->
  (code a =? ch "]") = false ->
  Forall (fun x => passed_over x = true) body ->
  Z.of_nat (List.length body) < 2 ^ 31 ->
  run (List.length body + 30 + extra)
    ("["%char :: a :: body ++ "{"%char :: sphere_object_text ++ "]"%char :: after)%list
    uninit_Object uninit_double
  = if Z.of_nat (List.length body) <? 1000
    then Exit 0
           (mkWorld (mkFILE after false false true) 1 []
              [(Z.of_nat (List.length body), sphere_read (uninit_Object 1%nat))]
              uninit_Object uninit_double 9)
    else Undefined
           (mkWorld (mkFILE ("]"%char :: after) false false false) 1 [] []
              uninit_Object uninit_double 9).
Proof.
  intros Ha Hb Hbody Hlen.
  pose proof (read_scene_up_to_the_loop (List.length body + 30 + extra) [] [] a
                (body ++ "{"%char :: sphere_object_text ++ "]"%char :: after)
                uninit_Object uninit_double
                ltac:(constructor) ltac:(constructor) Ha Hb ltac:(cbn; lia)) as Up.
  cbn [app line_feeds] in Up. rewrite Up. clear Up.
  replace (1 + 0 + 0) with 1 by reflexivity.
  replace (List.length body + 30 + extra)%nat
    with (List.length body + S (20 + (9 + extra)))%nat by lia.
  rewrite scene_while_passes_over by assumption.
  rewrite turns_in_range by lia. rewrite Z.add_0_l.
  cbn [scene_while]. unfold bind at 1. unfold fgetc, set_json.
  cbn [json unread eof_ind err_ind closed line stderr objectArray
       stack_Object stack_double decls].
  replace (code "{" =? ch "]") with false by reflexivity.
  replace (code "{" =? ch "{") with true by reflexivity.
  unfold bind at 1. rewrite read_object_on_the_text.
  unfold bind, store.
  replace (0 <=? Z.of_nat (List.length body)) with true
    by (symmetry; apply Z.leb_le; lia).
  cbn [andb].
  destruct (Z.of_nat (List.length body) <? 1000); [ | reflexivity].
  cbn [ret]. replace (20 + (9 + extra))%nat with (S (19 + (9 + extra))) by reflexivity.
  cbn [scene_while]. unfold bind, fgetc, fclose, exit, set_json, set_objectArray.
  cbn [json unread eof_ind err_ind closed line stderr objectArray
       stack_Object stack_double decls].
  replace (code "]" =? ch "]") with true by reflexivity.
  reflexivity.
Qed.

(** X19.  The slot of an object is the number of turns the loop of
    line 218 has made, one for every character it read between the
    objects and over the first object, not the number of objects; and
    the slot is not checked against the 1000 the array has.  After the
    character that line 203 takes and [n] characters that are passed
    over, the sphere of [sphere_object_text] is stored in slot [n] and
    the process ends at the closing bracket with [exit(0)], if [n] is
    under 1000; from 1000 on the store of line 403 is outside the
    array. *)
Theorem slot_is_the_number_of_turns (extra : nat) (a : ascii) (body after : list ascii)
  (uninit_Object : nat -> Object) (uninit_double : nat -> float) :
  isspace (code a) = false ->
  (code a =? ch "]") = false ->
  Forall (fun x => passed_over x = true) body ->
  Z.of_nat (List.length body) < 2 ^ 31 ->
  let o := run (List.length body + 30 + extra)
             ("["%char :: a :: body ++ "{"%char :: sphere_object_text
              ++ "]"%char :: after)%list
             uninit_Object uninit_double in
  if Z.of_nat (List.length body) <? 1000
  then exit_status o = Some 0
       /\ stored o = [(Z.of_nat (List.length body), sphere_read (uninit_Object 1%nat))]
       /\ written o = []
  else undefined o = true /\ stored o = [] /\ written o = [].
Proof.
  intros Ha Hb Hbody Hlen o. subst o.
  rewrite run_on_sphere_behind by assumption.
  destruct (Z.of_nat (List.length body) <? 1000);
    (split; [reflexivity | split; reflexivity]).
Qed.

(** Seven characters in front of the sphere, and 1000 blanks. *)
Lemma slot_is_the_number_of_turns_witness :
  (let o := run 50 (scene_text "[{ junk }{" ++ sphere_object_text ++ scene_text "]")%list
              (fun _ => blank_Object) (fun _ => 0%float) in
   exit_status o = Some 0
   /\ stored o = [(7, sphere_read blank_Object)]
   /\ written o = [])
  /\ (let o := run 1030
                 ("["%char :: "{"%char :: repeat " "%char 1000 ++ "{"%char
                  :: sphere_object_text ++ "]"%char :: [])%list
                 (fun _ => blank_Object) (fun _ => 0%float) in
      undefined o = true /\ stored o = [] /\ written o = []).
Proof.
  split.
  - exact (slot_is_the_number_of_turns 13 "{"%char (scene_text " junk }") []
             (fun _ => blank_Object) (fun _ => 0%float)
             eq_refl eq_refl ltac:(repeat constructor) ltac:(cbn; lia)).
  - pose proof (slot_is_the_number_of_turns 0 "{"%char (repeat " "%char 1000) []
                  (fun _ => blank_Object) (fun _ => 0%float)
                  eq_refl eq_refl
                  ltac:(apply Forall_forall; intros x Hx; apply repeat_spec in Hx;
                        subst x; reflexivity)
                  ltac:(rewrite repeat_length; lia)) as H.
    rewrite repeat_length in H. exact H.
Defined.

End Slots.

(* ================================================================== *)
(** * Part XX: every failure is announced                              *)
(* ================================================================== *)

Section Messages.
Local Open Scope prog_scope.

Lemma announced_nothing {A : Type} (a : A) (w : world) : announced (stderr w) (Done a w).
Proof. exists []. rewrite app_nil_r. split; [reflexivity | constructor]. Qed.

Lemma announces_ret {A : Type} (a : A) : announces (ret a).
Proof. intro w. apply announced_nothing. Qed.

Lemma announces_out_of_fuel {A : Type} : announces (@out_of_fuel A).
Proof. intro w. exact I. Qed.

Lemma announces_bind {A B : Type} (m : M A) (k : A -> M B) :
  announces m -> (forall a, announces (k a)) -> announces (bind m k).
Proof.
  intros Hm Hk w. unfold bind. specialize (Hm w).
  destruct (m w) as [a w1 | s w1 | w1 | ]; try exact Hm.
  destruct Hm as (more1 & E1 & F1). specialize (Hk a w1). rewrite E1 in Hk.
  destruct (k a w1) as [b w2 | s w2 | w2 | ]; cbn [announced] in *.
  - destruct Hk as (more2 & E2 & F2). exists (more1 ++ more2)%list.
    rewrite E2, app_assoc. split; [reflexivity | apply Forall_app; split; assumption].
  - destruct Hk as [(S0 & more2 & E2 & F2) | (S1 & more2 & m2 & E2 & F2)].
    + left. split; [exact S0 | ]. exists (more1 ++ more2)%list.
      rewrite E2, app_assoc. split; [reflexivity | apply Forall_app; split; assumption].
    + right. split; [exact S1 | ]. exists (more1 ++ more2)%list, m2.
      rewrite E2, <- !app_assoc.
      split; [reflexivity | apply Forall_app; split; assumption].
  - destruct Hk as (more2 & E2 & F2). exists (more1 ++ more2)%list.
    rewrite E2, app_assoc. split; [reflexivity | apply Forall_app; split; assumption].
  - exact I.
Qed.

(** The operations that write nothing. *)
Lemma announces_get_line : announces get_line.
Proof. intro w. apply announced_nothing. Qed.

Lemma announces_declare_Object : announces declare_Object.
Proof. intro w. apply (announced_nothing _ (set_decls _ w)). Qed.

Lemma announces_declare_double : announces declare_double.
Proof. intro w. apply (announced_nothing _ (set_decls _ w)). Qed.

Lemma announces_feof : announces feof.
Proof. intro w. apply announced_nothing. Qed.

Lemma announces_ferror : announces ferror.
Proof. intro w. apply announced_nothing. Qed.

Lemma announces_fclose : announces fclose.
Proof. intro w. apply (announced_nothing _ (set_json _ w)). Qed.

Lemma announces_fgetc : announces fgetc.
Proof.
  intro w. unfold fgetc. destruct (unread (json w));
    apply (announced_nothing _ (set_json _ w)).
Qed.

Lemma announces_ungetc (c : Z) : announces (ungetc c).
Proof.
  intro w. unfold ungetc. destruct (c =? EOF);
    [apply announced_nothing | apply (announced_nothing _ (set_json _ w))].
Qed.

Lemma announces_fscanf_lf : announces Scanf.fscanf_lf.
Proof.
  intro w. unfold Scanf.fscanf_lf.
  destruct (Scanf.drop_space (unread (json w))) as [ | a s].
  - apply (announced_nothing _ (set_json _ w)).
  - destruct (Scanf.take_item Scanf.AtStart Scanf.empty_literal (a :: s))
      as [[[p l] rest] hit_end].
    apply (announced_nothing _ (set_json _ w)).
Qed.

Lemma announces_fopen (files : string -> option (list ascii)) (filename : string) :
  announces (fopen files filename).
Proof.
  intro w. unfold fopen. destruct (files filename);
    [apply (announced_nothing _ (set_json _ w)) | apply announced_nothing].
Qed.

Lemma announces_store (i : Z) (o : Object) : announces (store i o).
Proof.
  intro w. unfold store. destruct ((0 <=? i) && (i <? 1000)).
  - apply (announced_nothing _ (set_objectArray _ w)).
  - exists []. rewrite app_nil_r. split; [reflexivity | constructor].
Qed.

Lemma announces_next_line :
  announces (fun w => Done tt (set_line (wrap_int (line w + 1)) w)).
Proof. intro w. apply (announced_nothing _ (set_line _ w)). Qed.

(** The ways the program writes: a message and [exit(1)], the notice
    and on, and [exit(0)] without a word. *)
Lemma announces_failure {A : Type} (m : message) :
  announces (fprintf m ;; @exit A 1).
Proof.
  intro w. right. split; [reflexivity | ]. exists [], m. split; [reflexivity | constructor].
Qed.

Lemma announces_failure_on_line {A : Type} (m : Z -> message) :
  announces (l <- get_line ;; fprintf (m l) ;; @exit A 1).
Proof.
  intro w. right. split; [reflexivity | ]. exists [], (m (line w)).
  split; [reflexivity | constructor].
Qed.

Lemma announces_failure_closing {A : Type} (m : message) :
  announces (fprintf m ;; fclose ;; @exit A 1).
Proof.
  intro w. right. split; [reflexivity | ]. exists [], m. split; [reflexivity | constructor].
Qed.

Lemma announces_notice {A : Type} (key : string) (a : A) :
  announces (l <- get_line ;; fprintf (UnknownProperty key l) ;; ret a).
Proof.
  intro w. exists [UnknownProperty key (line w)].
  split; [reflexivity | repeat constructor].
Qed.

Lemma announces_success {A : Type} : announces (fclose ;; @exit A 0).
Proof.
  intro w. left. split; [reflexivity | ]. exists []. rewrite app_nil_r.
  split; [reflexivity | constructor].
Qed.

Ltac announces_step :=
  first
    [ assumption
    | apply announces_failure | apply announces_failure_closing
    | apply announces_success | apply announces_notice
    | apply (announces_failure_on_line (fun l => UnexpectedEndOfFileOnLine l))
    | apply (announces_failure_on_line (fun l => ExpectedCharOnLine _ l))
    | apply (announces_failure_on_line (fun l => ExpectedStringOnLine l))
    | apply (announces_failure_on_line (fun l => ExpectedTypeKeyOnLine l))
    | apply (announces_failure_on_line (fun l => UnknownTypeOnLine _ l))
    | apply (announces_failure_on_line (fun l => UnknownProperty _ l))
    | apply announces_ret | apply announces_out_of_fuel
    | apply announces_get_line
    | apply announces_declare_Object | apply announces_declare_double
    | apply announces_feof | apply announces_ferror | apply announces_fclose
    | apply announces_fgetc | apply announces_ungetc | apply announces_fscanf_lf
    | apply announces_fopen | apply announces_store | apply announces_next_line
    | apply announces_bind; [ | intro ]
    | match goal with
      | |- announces (if ?b then _ else _) => destruct b
      end ].

Ltac announces_all := repeat announces_step.

Lemma announces_next_c : announces next_c.
Proof. unfold next_c. announces_all. Qed.

Lemma announces_expect_c (d : Z) : announces (expect_c d).
Proof. pose proof announces_next_c. unfold expect_c. announces_all. Qed.

Lemma announces_skip_ws_while (fuel : nat) (c : Z) : announces (skip_ws_while fuel c).
Proof.
  pose proof announces_next_c.
  revert c. induction fuel as [ | fuel IH]; intro c; cbn [skip_ws_while].
  - announces_all.
  - destruct (isspace c); [ | announces_all].
    apply announces_bind; [assumption | intro c']. apply IH.
Qed.

Lemma announces_skip_ws : announces skip_ws.
Proof.
  intro w. unfold skip_ws.
  exact (announces_bind _ _ announces_next_c
           (fun c => announces_skip_ws_while _ c) w).
Qed.

Lemma announces_next_string_while (fuel : nat) (buffer : list ascii) (i c : Z) :
  announces (next_string_while fuel buffer i c).
Proof.
  pose proof announces_next_c.
  revert buffer i c. induction fuel as [ | fuel IH]; intros buffer i c;
    cbn [next_string_while]; announces_all.
  apply IH.
Qed.

Lemma announces_next_string : announces next_string.
Proof.
  intro w. unfold next_string.
  refine (announces_bind _ _ announces_next_c _ w). intro c.
  destruct (negb (c =? ch dquote)); [announces_all | ].
  apply announces_bind; [apply announces_next_c | intro c'].
  apply announces_next_string_while.
Qed.

Lemma announces_next_number : announces next_number.
Proof. unfold next_number. announces_all. Qed.

Lemma announces_next_vector : announces next_vector.
Proof.
  pose proof announces_next_number. pose proof announces_skip_ws.
  pose proof (announces_expect_c (ch "[")). pose proof (announces_expect_c (ch ",")).
  pose proof (announces_expect_c (ch "]")).
  unfold next_vector. announces_all.
Qed.

Lemma announces_read_key : announces read_key.
Proof.
  pose proof announces_skip_ws. pose proof announces_next_string.
  pose proof (announces_expect_c (ch ":")).
  unfold read_key. announces_all.
Qed.

Lemma announces_camera_field (key : string) (cam : Object) :
  announces (camera_field key cam).
Proof. pose proof announces_next_number. unfold camera_field. announces_all. Qed.

Lemma announces_sphere_field (key : string) (o : Object) :
  announces (sphere_field key o).
Proof.
  pose proof announces_next_number. pose proof announces_next_vector.
  unfold sphere_field. announces_all.
Qed.

Lemma announces_plane_field (key : string) (o : Object) :
  announces (plane_field key o).
Proof. pose proof announces_next_vector. unfold plane_field. announces_all. Qed.

Lemma announces_light_field (key : string) (o : Object) :
  announces (light_field key o).
Proof. pose proof announces_next_vector. unfold light_field. announces_all. Qed.

Lemma announces_camera_while (fuel : nat) (key : string) (cam : Object) :
  announces (camera_while fuel key cam).
Proof.
  pose proof announces_next_c. pose proof announces_read_key.
  pose proof announces_skip_ws.
  revert cam. induction fuel as [ | fuel IH]; intro cam; cbn [camera_while];
    announces_all.
  - apply announces_camera_field.
  - apply IH.
Qed.

Lemma announces_sphere_while (fuel : nat) (o : Object) : announces (sphere_while fuel o).
Proof.
  pose proof announces_next_c. pose proof announces_read_key.
  pose proof announces_skip_ws.
  revert o. induction fuel as [ | fuel IH]; intro o; cbn [sphere_while]; announces_all.
  - apply announces_sphere_field.
  - apply IH.
  - apply IH.
Qed.

Lemma announces_plane_while (fuel : nat) (o : Object) : announces (plane_while fuel o).
Proof.
  pose proof announces_next_c. pose proof announces_read_key.
  pose proof announces_skip_ws.
  revert o. induction fuel as [ | fuel IH]; intro o; cbn [plane_while]; announces_all.
  - apply announces_plane_field.
  - apply IH.
  - apply IH.
Qed.

Lemma announces_light_while (fuel : nat) (o : Object) : announces (light_while fuel o).
Proof.
  pose proof announces_next_c. pose proof announces_read_key.
  pose proof announces_skip_ws.
  revert o. induction fuel as [ | fuel IH]; intro o; cbn [light_while]; announces_all.
  - apply announces_light_field.
  - apply IH.
  - apply IH.
Qed.

Lemma announces_read_object (fuel : nat) (cam : Object) (i : Z) :
  announces (read_object fuel cam i).
Proof.
  pose proof announces_skip_ws. pose proof announces_next_string.
  pose proof (announces_expect_c (ch ":")).
  unfold read_object, camera_branch, sphere_branch, plane_branch, light_branch.
  announces_all;
    first [ apply announces_camera_while | apply announces_sphere_while
          | apply announces_plane_while | apply announces_light_while ].
Qed.

Lemma announces_scene_while (fuel : nat) (cam : Object) (i : Z) :
  announces (scene_while fuel cam i).
Proof.
  revert cam i. induction fuel as [ | fuel IH]; intros cam i; cbn [scene_while].
  - announces_all.
  - apply announces_bind; [apply announces_fgetc | intro c].
    destruct (c =? ch "]"); [apply announces_success | ].
    apply announces_bind; [ | intro cam'; apply IH].
    destruct (c =? ch "{"); [apply announces_read_object | apply announces_ret].
Qed.

Lemma announces_read_scene (fuel : nat) (files : string -> option (list ascii))
  (filename : string) :
  announces (read_scene fuel files filename).
Proof.
  pose proof announces_skip_ws. pose proof (announces_expect_c (ch "[")).
  unfold read_scene. announces_all. apply announces_scene_while.
Qed.


End Messages.

(* ================================================================== *)
(** * Part XXI: [main]                                                 *)
(* ================================================================== *)

Section Main.

(** X21.  [main] never comes to the [return 0] of line 664.  It returns
    -1 after one message of its own (too few or too many arguments, a
    width or height whose first character is not above the digit 0, an
    input file that cannot be opened), or the process ends inside
    [read_scene], which is then called on a file that could be opened
    and does not return. *)
Theorem main_returns_minus_1_or_ends_in_read_scene (char_is_signed : bool) (fuel : nat)
  (files : string -> option (list ascii)) (argv : list string)
  (uninit_Object : nat -> Object) (uninit_double : nat -> float) :
  match main char_is_signed fuel files argv uninit_Object uninit_double with
  | Return status said => status = -1 /\ List.length said = 1%nat
  | Within o =>
      List.length argv = 5%nat
      /\ 0 < argv_char char_is_signed argv 1 - ch "0"
      /\ 0 < argv_char char_is_signed argv 2 - ch "0"
      /\ files (nth 3 argv EmptyString) <> None
      /\ o = read_scene fuel files (nth 3 argv EmptyString)
               (initial_world uninit_Object uninit_double)
      /\ returned o = None
  end.
Proof.
  unfold main.
  destruct (Z.of_nat (List.length argv) <? 5) eqn:Few; [split; reflexivity | ].
  destruct (5 <? Z.of_nat (List.length argv)) eqn:Many; [split; reflexivity | ].
  cbv zeta.
  destruct (argv_char char_is_signed argv 1 - ch "0" <? 1) eqn:Width;
    [split; reflexivity | ].
  destruct (argv_char char_is_signed argv 2 - ch "0" <? 1) eqn:Height;
    [split; reflexivity | ].
  destruct (files (nth 3 argv EmptyString)) as [text | ] eqn:File;
    [ | split; reflexivity].
  pose proof (read_scene_never_returns fuel files (nth 3 argv EmptyString)
                (initial_world uninit_Object uninit_double)) as Never.
  apply Z.ltb_ge in Few, Many, Width, Height.
  destruct (read_scene fuel files (nth 3 argv EmptyString)
              (initial_world uninit_Object uninit_double)) as [a w | s w | w | ];
    [discriminate Never | | | ];
    (split; [lia | split; [lia | split; [lia | split; [discriminate | ]]]]);
    split; reflexivity.
Qed.

End Main.
